(** * proxy-checker: a shallow embedding of [proxy_checker.go]

    The Go program reads a list of proxy addresses, probes each of them from
    its own goroutine (admission bounded by a buffered channel used as a
    semaphore), sends the valid ones over a buffered channel and appends them
    to a file under [results/].

    Layout of the development:
    - [GoStrings]: the functions of Go's [strings] and [fmt] packages the
      program calls, on byte strings;
    - the loading of the proxy list ([extractProxies], [readProxies]);
    - one probe ([checkProxy]) against an explicit network environment;
    - persistence ([saveValidProxy], [handleValidProxy]) on a file-system map;
    - the run of [main] as an interleaving step relation over the main
      goroutine, the workers and the aggregator started by [handleExit];
    - measures and invariants of that run, and the run of the other variant;
    - the theorems.

    The repository holds two variants of the program.  [proxy_checker.go] is
    the one modelled throughout, and the line numbers in the comments are
    its lines; the modules [SecondVariant], [SecondVariantProbe] and
    [SecondVariantRun] hold what differs in the other variant: its loader,
    its probe and handler, and the end of its [main].  Its dispatch loop, its
    semaphore and its conversion of the thread count are the statements of
    [proxy_checker.go]. *)

From Stdlib Require Import ZArith Lia.
From Stdlib Require Import Ascii String.
From Stdlib Require Import Decimal DecimalPos DecimalString.
From stdpp Require Import base list strings gmap relations.

Local Open Scope Z_scope.

(** ** Go's byte strings *)

Module GoStrings.

(** A Go string is a sequence of bytes; [ascii] is an 8-bit byte. *)
Definition byte_of (n : N) : ascii := ascii_of_N n.
Definition code (c : ascii) : N := N_of_ascii c.

Definition byte_eqb (c : ascii) (n : N) : bool := N.eqb (code c) n.

(** [unicode.IsSpace] on the one-byte runes:
    '\t', '\n', '\v', '\f', '\r' and ' '. *)
Definition isSpace1 (c : ascii) : bool :=
  let n := code c in
  (N.leb 9 n && N.leb n 13) || N.eqb n 32.

(** The two-byte encodings: U+0085 (C2 85) and U+00A0 (C2 A0). *)
Definition isSpace2 (c1 c2 : ascii) : bool :=
  byte_eqb c1 194 && (byte_eqb c2 133 || byte_eqb c2 160).

(** The three-byte encodings: U+1680 (E1 9A 80), U+2000..U+200A
    (E2 80 80..8A), U+2028, U+2029 (E2 80 A8, A9), U+202F (E2 80 AF),
    U+205F (E2 81 9F) and U+3000 (E3 80 80). *)
Definition isSpace3 (c1 c2 c3 : ascii) : bool :=
  let n3 := code c3 in
  (byte_eqb c1 225 && byte_eqb c2 154 && byte_eqb c3 128)
  || (byte_eqb c1 226 && byte_eqb c2 128 &&
        ((N.leb 128 n3 && N.leb n3 138) || N.eqb n3 168 || N.eqb n3 169
         || N.eqb n3 175))
  || (byte_eqb c1 226 && byte_eqb c2 129 && byte_eqb c3 159)
  || (byte_eqb c1 227 && byte_eqb c2 128 && byte_eqb c3 128).

(** [strings.TrimLeftFunc s unicode.IsSpace]: drop leading white-space
    runes.  A byte sequence that is not the encoding of a white-space rune
    (also an invalid one, decoded as U+FFFD) stops the scan. *)
Fixpoint trimLeftSpace (s : string) : string :=
  match s with
  | EmptyString => EmptyString
  | String c1 s1 =>
      if isSpace1 c1 then trimLeftSpace s1 else
      match s1 with
      | EmptyString => s
      | String c2 s2 =>
          if isSpace2 c1 c2 then trimLeftSpace s2 else
          match s2 with
          | EmptyString => s
          | String c3 s3 =>
              if isSpace3 c1 c2 c3 then trimLeftSpace s3 else s
          end
      end
  end.

(** The same scan from the right end, on the reversed bytes (UTF-8 is
    self-synchronising, so the last rune is a white-space rune exactly when
    the string ends with one of the encodings above). *)
Fixpoint trimLeftSpace_rev (s : string) : string :=
  match s with
  | EmptyString => EmptyString
  | String c1 s1 =>
      if isSpace1 c1 then trimLeftSpace_rev s1 else
      match s1 with
      | EmptyString => s
      | String c2 s2 =>
          if isSpace2 c2 c1 then trimLeftSpace_rev s2 else
          match s2 with
          | EmptyString => s
          | String c3 s3 =>
              if isSpace3 c3 c2 c1 then trimLeftSpace_rev s3 else s
          end
      end
  end.

Definition trimRightSpace (s : string) : string :=
  String.rev (trimLeftSpace_rev (String.rev s)).

(** [strings.TrimSpace]. *)
Definition TrimSpace (s : string) : string :=
  trimRightSpace (trimLeftSpace s).

(** [strings.Split s sep] for a one-byte separator: the pieces between the
    occurrences of [sep]; never the empty list. *)
Fixpoint Split (s : string) (sep : ascii) : list string :=
  match s with
  | EmptyString => [EmptyString]
  | String c r =>
      if Ascii.eqb c sep then EmptyString :: Split r sep
      else match Split r sep with
           | l :: ls => String c l :: ls
           | [] => [String c EmptyString]
           end
  end.

(** [strings.HasPrefix s p]. *)
Definition HasPrefix (s p : string) : bool := String.prefix p s.

(** [strings.Contains s sub]: [sub] occurs in [s] at some offset. *)
Fixpoint Contains (s sub : string) : bool :=
  String.prefix sub s ||
  match s with
  | EmptyString => false
  | String _ r => Contains r sub
  end.

(** [s[:n]] for [n] within bounds: the first [n] bytes. *)
Fixpoint slice_to (n : nat) (s : string) : string :=
  match n, s with
  | S k, String c r => String c (slice_to k r)
  | _, _ => EmptyString
  end.

Definition newline : ascii := byte_of 10.
Definition bar_byte : ascii := byte_of 124.

(** *** Go's [int] *)

(** [int] is 64 bits wide on the platforms the program is built for. *)
Definition intBits : Z := 64.
Definition minInt : Z := - 2 ^ (intBits - 1).
Definition maxInt : Z := 2 ^ (intBits - 1) - 1.
Definition in_int (z : Z) : bool := (minInt <=? z) && (z <=? maxInt).

(** Two's complement wrap-around of an [int] result. *)
Definition wrap_int (z : Z) : Z :=
  (z + 2 ^ (intBits - 1)) mod 2 ^ intBits - 2 ^ (intBits - 1).

(** *** [fmt.Sprintf("%d", z)] *)
Definition Sprintf_d (z : Z) : string := NilZero.string_of_int (Z.to_int z).

(** *** [fmt.Sscanf(input, "%d", &v)] *)

(** [ss.SkipSpace] with [nlIsSpace = false]: white space before the verb is
    skipped, a newline there is the error "unexpected newline". *)
Fixpoint SkipSpace (s : string) : option string :=
  match s with
  | EmptyString => Some EmptyString
  | String c1 s1 =>
      if byte_eqb c1 10 then None else
      if isSpace1 c1 then SkipSpace s1 else
      match s1 with
      | EmptyString => Some s
      | String c2 s2 =>
          if isSpace2 c1 c2 then SkipSpace s2 else
          match s2 with
          | EmptyString => Some s
          | String c3 s3 =>
              if isSpace3 c1 c2 c3 then SkipSpace s3 else Some s
          end
      end
  end.

Definition isDigit (c : ascii) : bool :=
  N.leb 48 (code c) && N.leb (code c) 57.

(** [ss.scanNumber]: the longest run of decimal digits, read most
    significant digit first, and what follows it. *)
Fixpoint scanNumber (s : string) : string * string :=
  match s with
  | EmptyString => (EmptyString, EmptyString)
  | String c r =>
      if isDigit c then
        let '(ds, rest) := scanNumber r in (String c ds, rest)
      else (EmptyString, s)
  end.

Fixpoint digits_value (acc : N) (ds : string) : N :=
  match ds with
  | EmptyString => acc
  | String c r => digits_value (10 * acc + (code c - 48)) r
  end.

(** [ss.scanInt] for the verb [%d] followed by [strconv.ParseInt tok 10 64]:
    an optional sign, at least one digit, and a value that fits [int].
    [None] stands for [err != nil] (then no operand was stored and the
    count is 0), [Some v] for one operand stored.  Input after the number
    is left unread and is no error. *)
Definition Sscanf_d (input : string) : option Z :=
  match SkipSpace input with
  | None => None
  | Some EmptyString => None
  | Some (String c r as s) =>
      let neg := byte_eqb c 45 in
      let rest := if neg || byte_eqb c 43 then r else s in
      match fst (scanNumber rest) with
      | EmptyString => None
      | ds =>
          let v := Z.of_N (digits_value 0 ds) in
          let i := if neg then - v else v in
          if in_int i then Some i else None
      end
  end.

End GoStrings.

Import GoStrings.

(** ** Results of fallible calls *)

(** A Go call returning [(T, error)]: a value or the error's message. *)
Inductive result (A : Type) : Type :=
| Ok (a : A)
| Err (msg : string).
Arguments Ok {A} a.
Arguments Err {A} msg.

(** ** Configuration and prompts *)

(** [Config]: the settings read from [proxy.config.ini].  [Timeout] is a
    [time.Duration], a count of nanoseconds. *)
Record Config : Type := mkConfig {
  ProxyList : string;
  Protocol : string;
  URL : string;
  ValidStr : string;
  Timeout : Z;
  Threads : Z
}.

(** What the ini library hands to [loadConfig] for section [config]: for each
    key the value it holds, [None] where [MustString] / [MustInt] fall back to
    their default (key absent, empty, or not a number). *)
Record IniSection : Type := mkIni {
  ini_proxy_list : option string;
  ini_protocol : option string;
  ini_url : option string;
  ini_valid_string : option string;
  ini_timeout : option Z;
  ini_threads : option Z
}.

Definition Millisecond : Z := 1000000.

(** [loadConfig]; its argument is the outcome of [ini.Load]. *)
Definition loadConfig (file : result IniSection) : result Config :=
  match file with
  | Err e => Err ("failed to read proxy.config.ini: " +:+ e)
  | Ok cfg =>
      Ok {| ProxyList := default "proxies.txt" (ini_proxy_list cfg);
            Protocol := default "socks5" (ini_protocol cfg);
            URL := default "https://example.com" (ini_url cfg);
            ValidStr := default "Success" (ini_valid_string cfg);
            Timeout := wrap_int (default 5000 (ini_timeout cfg) * Millisecond);
            Threads := default 10 (ini_threads cfg) |}
  end.

(** [promptInput]: [line] is what [scanner.Text()] returns for the line the
    user typed (empty at end of input). *)
Definition promptInput (line defaultValue : string) : string :=
  let input := TrimSpace line in
  if decide (input = "") then defaultValue else input.

Definition protocols : gmap string string :=
  list_to_map [("1", "https"); ("2", "socks4"); ("3", "socks5");
               ("4", "socks4"); ("5", "socks5")].

(** [promptProtocol]. *)
Definition promptProtocol (line defaultProtocol : string) : string :=
  let choice := promptInput line defaultProtocol in
  match protocols !! choice with
  | Some val => val
  | None => defaultProtocol
  end.

(** The conversion of the thread count in [main]: [Sscanf] stores into
    [threads] only when it succeeds, and on failure [threads] is reset to the
    configured value. *)
Definition parseThreads (config : Config) (line : string) : Z :=
  let threadCount := promptInput line (Sprintf_d (Threads config)) in
  match Sscanf_d threadCount with
  | Some t => t
  | None => Threads config
  end.

(** ** Loading the proxy list *)

(** The loop of [extractProxies] over the lines; [proxySet] is Go's
    [map[string]struct{}], a set of strings. *)
Definition extractProxies_loop (lines : list string) : gset string :=
  foldl (fun (proxySet : gset string) line =>
           let line := TrimSpace line in
           if decide (line = "") then proxySet else {[ line ]} ∪ proxySet)
        ∅ lines.

(** [extractProxies].  Go ranges over the map in an unspecified order; the
    model lists the set in the order of [elements], and nothing below depends
    on which order that is. *)
Definition extractProxies (content : string) : list string :=
  let lines := Split content newline in
  let proxySet := extractProxies_loop lines in
  elements proxySet.

(** The outside world of the loading phase: the files that can be read and the
    bodies that [http.Get] followed by [ioutil.ReadAll] yields. *)
Record Sources : Type := mkSources {
  ReadFile : string -> result string;
  http_Get_body : string -> result string
}.

(** [fetchProxiesFromURL]. *)
Definition fetchProxiesFromURL (w : Sources) (proxyURL : string) : result (list string) :=
  match http_Get_body w proxyURL with
  | Err e => Err e
  | Ok body => Ok (extractProxies body)
  end.

(** [readProxies]. *)
Definition readProxies (w : Sources) (filePath : string) : result (list string) :=
  if HasPrefix filePath "http://" || HasPrefix filePath "https://" then
    fetchProxiesFromURL w filePath
  else
    match ReadFile w filePath with
    | Err e => Err e
    | Ok data => Ok (extractProxies data)
    end.

(** The loader of the other variant of the program. *)
Module SecondVariant.

Definition MaxScanTokenSize : N := 65536.

Definition dropCR (line : string) : string :=
  match String.rev line with
  | String c r => if byte_eqb c 13 then String.rev r else line
  | EmptyString => line
  end.

(** The tokens of [bufio.ScanLines]: the lines of the input, each without
    its end-of-line marker; an empty piece after the last newline is no
    token. *)
Definition ScanLines (content : string) : list string :=
  let pieces := Split content newline in
  let pieces :=
    match List.rev pieces with
    | EmptyString :: front => List.rev front
    | _ => pieces
    end in
  map dropCR pieces.

(** The loop of [readProxies]: [scanner.Scan()] stops with [ErrTooLong]
    at a line that does not fit the scanner's buffer. *)
Fixpoint readProxies_loop (tokens : list string) (proxies : list string)
  : result (list string) :=
  match tokens with
  | [] => Ok proxies
  | line :: rest =>
      if N.leb MaxScanTokenSize (N.of_nat (String.length line)) then
        Err "bufio.Scanner: token too long"
      else
        let proxy := TrimSpace line in
        if decide (proxy = "") then readProxies_loop rest proxies
        else readProxies_loop rest (proxies ++ [proxy])
  end.

(** [readProxies] of the other variant: a file only, every non-empty line
    appended in order. *)
Definition readProxies (w : Sources) (filePath : string) : result (list string) :=
  match ReadFile w filePath with
  | Err e => Err e
  | Ok content => readProxies_loop (ScanLines content) []
  end.

End SecondVariant.


(** ** One probe *)

(** Why [client.Get] returned an error. *)
Inductive TransportError : Type :=
| ConnectionRefused
| TimeoutExceeded
| TLSFailure
| DNSFailure
| OtherFailure (msg : string).

(** A response as the probe sees it: the body the server sends, the number of
    its bytes that have arrived when the probe issues its single [Read] (a
    [Read] returns what is there, it does not wait to fill its buffer), and
    the nanoseconds between [time.Now()] and [time.Since(start)]. *)
Record Response : Type := mkResponse {
  resp_body : string;
  resp_available : nat;
  resp_elapsed : Z
}.

Inductive GetResult : Type :=
| GetErr (e : TransportError)
| GetOk (resp : Response).

(** The network and the library below the probe.  [url_Parse] is Go's
    [net/url.Parse]; [client_Get i u target timeout] is what the [i]-th
    dispatched probe gets from [client.Get target] through the proxy [u]. *)
Record Network : Type := mkNetwork {
  ParsedURL : Type;
  url_Parse : string -> option ParsedURL;
  client_Get : nat -> ParsedURL -> string -> Z -> GetResult
}.

(** [Duration.Milliseconds]: integer division, truncated towards zero. *)
Definition Milliseconds (d : Z) : Z := Z.quot d Millisecond.

(** [n, _ := resp.Body.Read(body)] with [body] a buffer of 1024 bytes: one
    [Read] returns what is available, at most the buffer's length. *)
Definition Read_1024 (resp : Response) : nat :=
  Nat.min 1024 (Nat.min (resp_available resp) (String.length (resp_body resp))).

(** Lines 139-162 of [checkProxy], up to the decision to send: [Some msg]
    is the value sent on [results] for a valid proxy, [None] a return without
    a send. *)
Definition checkProxy_verdict (net : Network) (i : nat)
    (proxy protocol targetURL validString : string) (timeout : Z) : option string :=
  let proxyURL := protocol +:+ "://" +:+ proxy in
  match url_Parse net proxyURL with
  | None => None
  | Some proxyParsed =>
      match client_Get net i proxyParsed targetURL timeout with
      | GetErr _ => None
      | GetOk resp =>
          let responseTime := Milliseconds (resp_elapsed resp) in
          let n := Read_1024 resp in
          let responseBody := slice_to n (resp_body resp) in
          if Contains responseBody validString then
            Some (proxy +:+ "|" +:+ Sprintf_d responseTime +:+ "ms")
          else None
      end
  end.

(** ** Persistence *)

(** A file of the results directory: its bytes and whether it can be opened
    for writing. *)
Record file : Type := mkFile {
  writable : bool;
  data : string
}.

Definition valid_path (protocol : string) : string :=
  "results/" +:+ protocol +:+ ".valid.txt".

(** [saveValidProxy]: open with [O_APPEND|O_CREATE|O_WRONLY], write one line,
    close.  The new file system and the error returned. *)
Definition saveValidProxy (fs : gmap string file) (protocol proxy : string)
  : gmap string file * option string :=
  let path := valid_path protocol in
  match fs !! path with
  | None =>
      (<[path := mkFile true (proxy +:+ String newline "")]> fs, None)
  | Some f =>
      if writable f then
        (<[path := mkFile true (data f +:+ proxy +:+ String newline "")]> fs, None)
      else (fs, Some "permission denied")
  end.

(** [handleValidProxy]: [parts[1]] is an index out of range, a run-time
    panic, when the message holds no ['|']; the error of [saveValidProxy] is
    dropped. *)
Definition handleValidProxy (fs : gmap string file) (protocol proxyWithTime : string)
  : option (gmap string file) :=
  match Split proxyWithTime bar_byte with
  | proxy :: responseTime :: _ => Some (fst (saveValidProxy fs protocol proxy))
  | _ => None
  end.

(** The probe and the handler of the other variant: the message is the
    address alone, and nothing is split off it. *)
Module SecondVariantProbe.

Definition checkProxy_verdict (net : Network) (i : nat)
    (proxy protocol targetURL validString : string) (timeout : Z) : option string :=
  let proxyURL := protocol +:+ "://" +:+ proxy in
  match url_Parse net proxyURL with
  | None => None
  | Some proxyParsed =>
      match client_Get net i proxyParsed targetURL timeout with
      | GetErr _ => None
      | GetOk resp =>
          let n := Read_1024 resp in
          let responseBody := slice_to n (resp_body resp) in
          if Contains responseBody validString then Some proxy else None
      end
  end.

Definition handleValidProxy (fs : gmap string file) (protocol proxy : string)
  : gmap string file :=
  fst (saveValidProxy fs protocol proxy).

End SecondVariantProbe.

(** ** The run of [main] *)

(** The run's constants once the prompts are answered and the list is read. *)
Record Run : Type := mkRun {
  run_config : Config;
  run_protocol : string;
  run_threads : Z;
  run_proxies : list string
}.

(** Where a worker goroutine (lines 244-248, with [checkProxy] inlined) is. *)
Inductive WorkerPC : Type :=
| WProbe                (* lines 139-161: Parse, Get, Read, Contains *)
| WSend (msg : string)  (* line 162: results <- msg *)
| WLoad                 (* line 163: read of *validCount *)
| WStore (tmp : Z)      (* line 163: write of *validCount *)
| WWgDone               (* line 137: deferred wg.Done() *)
| WBarAdd               (* line 247: bar.Add(1) *)
| WRelease              (* line 245: deferred <-sem *)
| WExit.

Record Worker : Type := mkWorker {
  w_id : nat;
  w_proxy : string;
  w_pc : WorkerPC
}.

(** Where the main goroutine is, from line 233 on. *)
Inductive MainPC : Type :=
| MSetup                                      (* lines 233-240 *)
| MLoop (rest : list string)                  (* lines 241-242 *)
| MAcquire (proxy : string) (rest : list string)  (* line 243: sem <- *)
| MGo (proxy : string) (rest : list string)   (* line 244: go func *)
| MWait                                       (* line 251 *)
| MClose                                      (* line 252 *)
| MFinish                                     (* lines 253-254 *)
| MExit.                                      (* main has returned *)

(** Where the goroutine started by [handleExit] is. *)
Inductive AggrPC : Type :=
| ANotStarted
| ARecv                  (* line 193: for proxy := range results *)
| AHandle (msg : string) (* line 194 *)
| ASummary               (* line 196 *)
| AExit.

(** The state of a run: the three kinds of goroutine, the [results] channel
    (buffer, capacity, closed flag), the number of tokens in [sem], the
    [WaitGroup] counter, [validCount], the progress bar's count, the files,
    the two totals printed, and the run-time panic that ended the process.
    [sent_log] is a history variable: every message ever sent on [results]. *)
Record State : Type := mkState {
  st_main : MainPC;
  st_workers : list Worker;
  st_aggr : AggrPC;
  results : list string;
  results_cap : nat;
  results_closed : bool;
  sem : Z;
  wg : Z;
  validCount : Z;
  bar : Z;
  fs : gmap string file;
  reported_total : option Z;
  reported_saved : option Z;
  panicked : option string;
  sent_log : list string
}.

Definition set_main (v : MainPC) (s : State) : State :=
  {| st_main := v; st_workers := st_workers s; st_aggr := st_aggr s; results := results s;
     results_cap := results_cap s; results_closed := results_closed s; sem := sem s;
     wg := wg s; validCount := validCount s; bar := bar s; fs := fs s;
     reported_total := reported_total s; reported_saved := reported_saved s;
     panicked := panicked s; sent_log := sent_log s |}.

Definition set_workers (v : list Worker) (s : State) : State :=
  {| st_main := st_main s; st_workers := v; st_aggr := st_aggr s; results := results s;
     results_cap := results_cap s; results_closed := results_closed s; sem := sem s;
     wg := wg s; validCount := validCount s; bar := bar s; fs := fs s;
     reported_total := reported_total s; reported_saved := reported_saved s;
     panicked := panicked s; sent_log := sent_log s |}.

Definition set_aggr (v : AggrPC) (s : State) : State :=
  {| st_main := st_main s; st_workers := st_workers s; st_aggr := v; results := results s;
     results_cap := results_cap s; results_closed := results_closed s; sem := sem s;
     wg := wg s; validCount := validCount s; bar := bar s; fs := fs s;
     reported_total := reported_total s; reported_saved := reported_saved s;
     panicked := panicked s; sent_log := sent_log s |}.

Definition set_results (v : list string) (s : State) : State :=
  {| st_main := st_main s; st_workers := st_workers s; st_aggr := st_aggr s; results := v;
     results_cap := results_cap s; results_closed := results_closed s; sem := sem s;
     wg := wg s; validCount := validCount s; bar := bar s; fs := fs s;
     reported_total := reported_total s; reported_saved := reported_saved s;
     panicked := panicked s; sent_log := sent_log s |}.

Definition set_results_cap (v : nat) (s : State) : State :=
  {| st_main := st_main s; st_workers := st_workers s; st_aggr := st_aggr s;
     results := results s; results_cap := v; results_closed := results_closed s;
     sem := sem s; wg := wg s; validCount := validCount s; bar := bar s; fs := fs s;
     reported_total := reported_total s; reported_saved := reported_saved s;
     panicked := panicked s; sent_log := sent_log s |}.

Definition set_results_closed (v : bool) (s : State) : State :=
  {| st_main := st_main s; st_workers := st_workers s; st_aggr := st_aggr s;
     results := results s; results_cap := results_cap s; results_closed := v; sem := sem s;
     wg := wg s; validCount := validCount s; bar := bar s; fs := fs s;
     reported_total := reported_total s; reported_saved := reported_saved s;
     panicked := panicked s; sent_log := sent_log s |}.

Definition set_sem (v : Z) (s : State) : State :=
  {| st_main := st_main s; st_workers := st_workers s; st_aggr := st_aggr s;
     results := results s; results_cap := results_cap s;
     results_closed := results_closed s; sem := v; wg := wg s; validCount := validCount s;
     bar := bar s; fs := fs s; reported_total := reported_total s;
     reported_saved := reported_saved s; panicked := panicked s; sent_log := sent_log s |}.

Definition set_wg (v : Z) (s : State) : State :=
  {| st_main := st_main s; st_workers := st_workers s; st_aggr := st_aggr s;
     results := results s; results_cap := results_cap s;
     results_closed := results_closed s; sem := sem s; wg := v; validCount := validCount s;
     bar := bar s; fs := fs s; reported_total := reported_total s;
     reported_saved := reported_saved s; panicked := panicked s; sent_log := sent_log s |}.

Definition set_validCount (v : Z) (s : State) : State :=
  {| st_main := st_main s; st_workers := st_workers s; st_aggr := st_aggr s;
     results := results s; results_cap := results_cap s;
     results_closed := results_closed s; sem := sem s; wg := wg s; validCount := v;
     bar := bar s; fs := fs s; reported_total := reported_total s;
     reported_saved := reported_saved s; panicked := panicked s; sent_log := sent_log s |}.

Definition set_bar (v : Z) (s : State) : State :=
  {| st_main := st_main s; st_workers := st_workers s; st_aggr := st_aggr s;
     results := results s; results_cap := results_cap s;
     results_closed := results_closed s; sem := sem s; wg := wg s;
     validCount := validCount s; bar := v; fs := fs s; reported_total := reported_total s;
     reported_saved := reported_saved s; panicked := panicked s; sent_log := sent_log s |}.

Definition set_fs (v : gmap string file) (s : State) : State :=
  {| st_main := st_main s; st_workers := st_workers s; st_aggr := st_aggr s;
     results := results s; results_cap := results_cap s;
     results_closed := results_closed s; sem := sem s; wg := wg s;
     validCount := validCount s; bar := bar s; fs := v; reported_total := reported_total s;
     reported_saved := reported_saved s; panicked := panicked s; sent_log := sent_log s |}.

Definition set_reported_total (v : option Z) (s : State) : State :=
  {| st_main := st_main s; st_workers := st_workers s; st_aggr := st_aggr s;
     results := results s; results_cap := results_cap s;
     results_closed := results_closed s; sem := sem s; wg := wg s;
     validCount := validCount s; bar := bar s; fs := fs s; reported_total := v;
     reported_saved := reported_saved s; panicked := panicked s; sent_log := sent_log s |}.

Definition set_reported_saved (v : option Z) (s : State) : State :=
  {| st_main := st_main s; st_workers := st_workers s; st_aggr := st_aggr s;
     results := results s; results_cap := results_cap s;
     results_closed := results_closed s; sem := sem s; wg := wg s;
     validCount := validCount s; bar := bar s; fs := fs s;
     reported_total := reported_total s; reported_saved := v; panicked := panicked s;
     sent_log := sent_log s |}.

Definition set_panicked (v : option string) (s : State) : State :=
  {| st_main := st_main s; st_workers := st_workers s; st_aggr := st_aggr s;
     results := results s; results_cap := results_cap s;
     results_closed := results_closed s; sem := sem s; wg := wg s;
     validCount := validCount s; bar := bar s; fs := fs s;
     reported_total := reported_total s; reported_saved := reported_saved s; panicked := v;
     sent_log := sent_log s |}.

Definition set_sent_log (v : list string) (s : State) : State :=
  {| st_main := st_main s; st_workers := st_workers s; st_aggr := st_aggr s;
     results := results s; results_cap := results_cap s;
     results_closed := results_closed s; sem := sem s; wg := wg s;
     validCount := validCount s; bar := bar s; fs := fs s;
     reported_total := reported_total s; reported_saved := reported_saved s;
     panicked := panicked s; sent_log := v |}.

Definition panic (msg : string) (s : State) : State := set_panicked (Some msg) s.

(** The process is running: no panic has ended it and [main] has not
    returned (when [main] returns the other goroutines stop with it). *)
Definition alive (s : State) : bool :=
  match panicked s, st_main s with
  | None, MExit => false
  | None, _ => true
  | Some _, _ => false
  end.

Section Machine.

Variable net : Network.
Variable r : Run.

(** The state at line 233. *)
Definition init (fs0 : gmap string file) : State :=
  {| st_main := MSetup; st_workers := []; st_aggr := ANotStarted;
     results := []; results_cap := 0; results_closed := false;
     sem := 0; wg := 0; validCount := 0; bar := 0;
     fs := fs0; reported_total := None; reported_saved := None;
     panicked := None; sent_log := [] |}.

(** One step of the main goroutine.  [make(chan struct{}, threads)] panics
    for a negative size; [sem <- struct{}{}] waits while the channel holds
    [threads] tokens; [wg.Wait()] waits for the counter to be zero. *)
Definition step_main (s : State) : option State :=
  if negb (alive s) then None else
  match st_main s with
  | MSetup =>
      let s := set_results_cap (length (run_proxies r)) s in
      let s := set_aggr ARecv s in
      if run_threads r <? 0 then Some (panic "makechan: size out of range" s)
      else Some (set_main (MLoop (run_proxies r)) s)
  | MLoop [] => Some (set_main MWait s)
  | MLoop (proxy :: rest) =>
      Some (set_main (MAcquire proxy rest) (set_wg (wg s + 1) s))
  | MAcquire proxy rest =>
      if sem s <? run_threads r then
        Some (set_main (MGo proxy rest) (set_sem (sem s + 1) s))
      else None
  | MGo proxy rest =>
      let w := mkWorker (length (st_workers s)) proxy WProbe in
      Some (set_main (MLoop rest) (set_workers (st_workers s ++ [w]) s))
  | MWait => if wg s =? 0 then Some (set_main MClose s) else None
  | MClose =>
      if results_closed s then Some (panic "close of closed channel" s)
      else Some (set_main MFinish (set_results_closed true s))
  | MFinish =>
      Some (set_main MExit (set_reported_total (Some (validCount s)) s))
  | MExit => None
  end.

Definition verdict_of (w : Worker) : option string :=
  checkProxy_verdict net (w_id w) (w_proxy w) (run_protocol r)
    (URL (run_config r)) (ValidStr (run_config r)) (Timeout (run_config r)).

Definition at_pc (w : Worker) (pc : WorkerPC) : Worker :=
  mkWorker (w_id w) (w_proxy w) pc.

(** One step of a worker, as the pair of its new control point and the new
    shared state.  A send waits while the buffer is full and panics on a
    closed channel; [*validCount++] is a read followed by a write. *)
Definition step_worker_at (w : Worker) (s : State) : option (WorkerPC * State) :=
  match w_pc w with
  | WProbe =>
      match verdict_of w with
      | Some msg => Some (WSend msg, s)
      | None => Some (WWgDone, s)
      end
  | WSend msg =>
      if results_closed s then Some (WSend msg, panic "send on closed channel" s)
      else if Nat.ltb (length (results s)) (results_cap s) then
        Some (WLoad, set_sent_log (sent_log s ++ [msg]) (set_results (results s ++ [msg]) s))
      else None
  | WLoad => Some (WStore (validCount s), s)
  | WStore tmp => Some (WWgDone, set_validCount (wrap_int (tmp + 1)) s)
  | WWgDone =>
      if wg s - 1 <? 0 then Some (WWgDone, panic "sync: negative WaitGroup counter" s)
      else Some (WBarAdd, set_wg (wg s - 1) s)
  | WBarAdd => Some (WRelease, set_bar (bar s + 1) s)
  | WRelease =>
      if 0 <? sem s then Some (WExit, set_sem (sem s - 1) s) else None
  | WExit => None
  end.

Definition step_worker (i : nat) (s : State) : option State :=
  if negb (alive s) then None else
  match st_workers s !! i with
  | None => None
  | Some w =>
      match step_worker_at w s with
      | None => None
      | Some (pc, s') => Some (set_workers (<[i := at_pc w pc]> (st_workers s')) s')
      end
  end.

(** One step of the goroutine of [handleExit]: it ranges over [results]
    and saves under the protocol written in its body, "socks5". *)
Definition step_aggr (s : State) : option State :=
  if negb (alive s) then None else
  match st_aggr s with
  | ANotStarted => None
  | ARecv =>
      match results s with
      | msg :: rest => Some (set_aggr (AHandle msg) (set_results rest s))
      | [] => if results_closed s then Some (set_aggr ASummary s) else None
      end
  | AHandle msg =>
      match handleValidProxy (fs s) "socks5" msg with
      | Some fs' => Some (set_aggr ARecv (set_fs fs' s))
      | None => Some (panic "index out of range" s)
      end
  | ASummary =>
      Some (set_aggr AExit (set_reported_saved (Some (validCount s)) s))
  | AExit => None
  end.

(** The goroutines a scheduler can pick. *)
Inductive Tid : Type :=
| TMain
| TWorker (i : nat)
| TAggr.

Definition step_of (t : Tid) (s : State) : option State :=
  match t with
  | TMain => step_main s
  | TWorker i => step_worker i s
  | TAggr => step_aggr s
  end.

(** The interleaving semantics: any goroutine that can move may move. *)
Definition step (s s' : State) : Prop := exists t, step_of t s = Some s'.

Definition reachable_from (s0 s : State) : Prop := rtc step s0 s.

Definition reachable (fs0 : gmap string file) (s : State) : Prop :=
  reachable_from (init fs0) s.

(** A schedule run from a state: [None] when a picked goroutine cannot
    move. *)
Fixpoint run_schedule (sched : list Tid) (s : State) : option State :=
  match sched with
  | [] => Some s
  | t :: rest =>
      match step_of t s with
      | Some s' => run_schedule rest s'
      | None => None
      end
  end.

(** [checkProxy] run by worker [i] alone, the other goroutines standing
    still: the steps of the worker up to and including its [wg.Done()], at
    most five of them.  [None] when the worker cannot move. *)
Fixpoint checkProxy_from (fuel : nat) (i : nat) (s : State) : option State :=
  match fuel with
  | O => Some s
  | S fuel' =>
      match st_workers s !! i with
      | None => None
      | Some w =>
          match w_pc w with
          | WBarAdd | WRelease | WExit => Some s
          | _ =>
              match step_worker i s with
              | Some s' => checkProxy_from fuel' i s'
              | None => None
              end
          end
      end
  end.

Definition checkProxy (i : nat) (s : State) : option State := checkProxy_from 5 i s.

End Machine.

(** ** Counting workers *)

(** The sum of a weight over the workers. *)
Definition sumZ (f : Worker -> Z) (ws : list Worker) : Z :=
  foldr (fun w acc => f w + acc) 0 ws.

(** A worker that has not released its slot. *)
Definition holds_slot (w : Worker) : Z :=
  match w_pc w with WExit => 0 | _ => 1 end.

(** A worker that has not called [wg.Done()]. *)
Definition not_done (w : Worker) : Z :=
  match w_pc w with
  | WProbe | WSend _ | WLoad | WStore _ | WWgDone => 1
  | _ => 0
  end.

(** A worker whose [bar.Add(1)] has run. *)
Definition accounted (w : Worker) : Z :=
  match w_pc w with WRelease | WExit => 1 | _ => 0 end.

(** A worker that has released its slot. *)
Definition released (w : Worker) : Z :=
  match w_pc w with WExit => 1 | _ => 0 end.

(** A worker waiting to send, or about to. *)
Definition at_send (w : Worker) : Z :=
  match w_pc w with WSend _ => 1 | _ => 0 end.

(** The workers between their slot acquisition and its release. *)
Definition live_workers (s : State) : Z := sumZ holds_slot (st_workers s).

(** The token [main] holds for the goroutine it is about to start. *)
Definition pending_sem (pc : MainPC) : Z :=
  match pc with MGo _ _ => 1 | _ => 0 end.

Definition pending_wg (pc : MainPC) : Z :=
  match pc with MAcquire _ _ | MGo _ _ => 1 | _ => 0 end.

(** The addresses [main] has not yet handed to a goroutine. *)
Definition todo (proxies : list string) (pc : MainPC) : list string :=
  match pc with
  | MSetup => proxies
  | MLoop rest => rest
  | MAcquire proxy rest | MGo proxy rest => proxy :: rest
  | _ => []
  end.

Definition past_wait (pc : MainPC) : bool :=
  match pc with MClose | MFinish | MExit => true | _ => false end.

Definition past_close (pc : MainPC) : bool :=
  match pc with MFinish | MExit => true | _ => false end.

(** ** The URL parser below the probe *)

(** The checks of Go's [net/url.Parse] (standard library) up to the port of
    the authority: control bytes, the scheme, the colon rule for a first path
    segment, and [parseHost]'s bracket and port rules.  The validation of
    percent escapes and of the bytes of host and user information comes after
    these checks in Go and is left out, so [Parse] rejects only raw URLs that
    Go rejects. *)
Module NetURL.

Definition isCTL (c : ascii) : bool := N.ltb (code c) 32 || byte_eqb c 127.

Fixpoint stringContainsCTLByte (s : string) : bool :=
  match s with
  | EmptyString => false
  | String c r => isCTL c || stringContainsCTLByte r
  end.

(** [strings.Cut s sep] for a one-byte separator: the text before the first
    [sep] and, when there is one, the text after it. *)
Fixpoint Cut (s : string) (sep : ascii) : string * option string :=
  match s with
  | EmptyString => (EmptyString, None)
  | String c r =>
      if Ascii.eqb c sep then (EmptyString, Some r)
      else let '(before, after) := Cut r sep in (String c before, after)
  end.

(** The text after the last [sep] of [s], when [s] holds one. *)
Definition after_last (s : string) (sep : ascii) : option string :=
  match Cut (String.rev s) sep with
  | (tail_rev, Some _) => Some (String.rev tail_rev)
  | (_, None) => None
  end.

Definition isAlpha (c : ascii) : bool :=
  let n := code c in
  (N.leb 97 n && N.leb n 122) || (N.leb 65 n && N.leb n 90).

Definition isSchemeExtra (c : ascii) : bool :=
  isDigit c || byte_eqb c 43 || byte_eqb c 45 || byte_eqb c 46.

(** [getScheme]: [None] is the error "missing protocol scheme"; otherwise the
    scheme (empty when the text has none) and what follows it. *)
Fixpoint getScheme_from (first : bool) (s : string) : option (option (string * string)) :=
  match s with
  | EmptyString => Some None
  | String c r =>
      if isAlpha c || (isSchemeExtra c && negb first) then
        match getScheme_from false r with
        | Some (Some (scheme, rest)) => Some (Some (String c scheme, rest))
        | other => other
        end
      else if byte_eqb c 58 then
        if first then None else Some (Some (EmptyString, r))
      else Some None
  end.

Definition getScheme (rawURL : string) : option (string * string) :=
  match getScheme_from true rawURL with
  | None => None
  | Some None => Some (EmptyString, rawURL)
  | Some (Some found) => Some found
  end.

Fixpoint all_digits (s : string) : bool :=
  match s with
  | EmptyString => true
  | String c r => isDigit c && all_digits r
  end.

(** [validOptionalPort]: empty, or a colon followed by digits only. *)
Definition validOptionalPort (port : string) : bool :=
  match port with
  | EmptyString => true
  | String c r => byte_eqb c 58 && all_digits r
  end.

(** The part of [parseHost] that rejects: a bracketed literal without its
    closing bracket, or a port that is not a number. *)
Definition parseHost_ok (host : string) : bool :=
  if String.prefix "[" host then
    match after_last host (byte_of 93) with
    | None => false
    | Some colonPort => validOptionalPort colonPort
    end
  else
    match after_last host (byte_of 58) with
    | None => true
    | Some port => all_digits port
    end.

(** [parseAuthority]: the host is what follows the last ['@']. *)
Definition parseAuthority_ok (authority : string) : bool :=
  match after_last authority (byte_of 64) with
  | None => parseHost_ok authority
  | Some host => parseHost_ok host
  end.

(** [parse] on the text before the fragment. *)
Definition parse_ok (u : string) : bool :=
  if stringContainsCTLByte u then false else
  if String.eqb u "*" then true else
  match getScheme u with
  | None => false
  | Some (scheme, rest) =>
      let rest := fst (Cut rest (byte_of 63)) in
      if negb (String.prefix "/" rest) then
        if negb (String.eqb scheme "") then true
        else negb (Contains (fst (Cut rest (byte_of 47))) ":")
      else if (negb (String.eqb scheme "") || negb (String.prefix "///" rest))
              && String.prefix "//" rest then
        match rest with
        | String _ (String _ after) => parseAuthority_ok (fst (Cut after (byte_of 47)))
        | _ => true
        end
      else true
  end.

(** [url.Parse]; a parsed URL is stood for by the text it was parsed from. *)
Definition Parse (rawURL : string) : option string :=
  if parse_ok (fst (Cut rawURL (byte_of 35))) then Some rawURL else None.

End NetURL.

(** ** Invariants of the run *)

Section MachineInvariant.

Variable net : Network.
Variable r : Run.

(** A worker whose message has been put on the channel. *)
Definition has_sent (w : Worker) : Z :=
  match w_pc w with
  | WProbe | WSend _ => 0
  | _ => match verdict_of net r w with Some _ => 1 | None => 0 end
  end.

(** What a worker's control point says about its verdict. *)
Definition wf_worker (w : Worker) : Prop :=
  match w_pc w with
  | WSend m => verdict_of net r w = Some m
  | WLoad | WStore _ => verdict_of net r w <> None
  | _ => True
  end.

(** The invariant of a run started with the files [fs0]. *)
Record Inv (fs0 : gmap string file) (s : State) : Prop := mkInv {
  inv_sem : sem s = live_workers s + pending_sem (st_main s);
  inv_sem_le : sem s <= Z.max 0 (run_threads r);
  inv_wg : wg s = sumZ not_done (st_workers s) + pending_wg (st_main s);
  inv_bar : bar s = sumZ accounted (st_workers s);
  inv_dispatch :
    map w_proxy (st_workers s) ++ todo (run_proxies r) (st_main s) = run_proxies r;
  inv_ids : forall i w, st_workers s !! i = Some w -> w_id w = i;
  inv_cap : st_main s <> MSetup -> results_cap s = length (run_proxies r);
  inv_wf : forall i w, st_workers s !! i = Some w -> wf_worker w;
  inv_sent_len : Z.of_nat (length (sent_log s)) = sumZ has_sent (st_workers s);
  inv_sent_by : forall m, m ∈ sent_log s ->
    exists i w, st_workers s !! i = Some w /\ verdict_of net r w = Some m /\ has_sent w = 1;
  inv_sent_in : forall i w m,
    st_workers s !! i = Some w -> has_sent w = 1 -> verdict_of net r w = Some m ->
    m ∈ sent_log s;
  inv_buf : results s `suffix_of` sent_log s;
  inv_handle : forall m, st_aggr s = AHandle m -> m ∈ sent_log s;
  inv_aggr : st_aggr s = ANotStarted -> st_main s = MSetup;
  inv_closed : results_closed s = true -> past_close (st_main s) = true;
  inv_waited : past_wait (st_main s) = true -> wg s = 0;
  inv_nopanic : 0 <= run_threads r -> panicked s = None;
  inv_fs : forall path, path <> valid_path "socks5" -> fs s !! path = fs0 !! path;
  inv_quiet : st_workers s = [] -> validCount s = 0;
  inv_total : forall v, reported_total s = Some v ->
    st_main s = MExit /\ (st_workers s = [] -> v = 0)
}.

End MachineInvariant.

(** The messages a probe sends have the form [address|latency]. *)
Definition is_message (m : string) : Prop :=
  exists a b, m = a +:+ String bar_byte b.

(** The failures of a probe before it has a response: the proxy URL does not
    parse, or [client.Get] returns an error (connection refused, timeout,
    TLS or DNS failure, or any other). *)
Definition probe_fails (net : Network) (r : Run) (w : Worker) : Prop :=
  url_Parse net (run_protocol r +:+ "://" +:+ w_proxy w) = None \/
  exists u e,
    url_Parse net (run_protocol r +:+ "://" +:+ w_proxy w) = Some u /\
    client_Get net (w_id w) u (URL (run_config r)) (Timeout (run_config r)) = GetErr e.

(** ** From the prompts to the run *)


(** What [readProxies] reads its list from. *)
Definition source_content (w : Sources) (filePath : string) : result string :=
  if HasPrefix filePath "http://" || HasPrefix filePath "https://" then
    http_Get_body w filePath
  else ReadFile w filePath.

(** ** The loaded set, in the words of the specification *)

(** Split on line breaks, trim white space, discard empty lines, and keep
    each address once. *)
Definition load_spec (content : string) : gset string :=
  list_to_set (filter (fun line => line <> "") (TrimSpace <$> Split content newline)).

(** ** Concrete inputs *)

(** The state a schedule leads to from the start of a run (the start itself
    when the schedule cannot be followed). *)
Definition after (net : Network) (r : Run) (sched : list Tid) (fs0 : gmap string file) : State :=
  default (init fs0) (run_schedule net r sched (init fs0)).

Definition default_config : Config :=
  mkConfig "proxies.txt" "socks5" "https://example.com" "Success" (5000 * Millisecond) 10.

(** A network in which every proxy answers with the marker, 3 ms after the
    request. *)
Definition net_all_valid : Network :=
  mkNetwork string (fun rawURL => Some rawURL)
    (fun _ _ _ _ => GetOk (mkResponse "Success" 7 3000000)).

(** Two valid proxies and room for both probes at once. *)
Definition run_two : Run := mkRun default_config "socks5" 2 ["a:1"; "b:2"].

(** Both workers read [validCount] before either writes it back. *)
Definition sched_lost_update : list Tid :=
  [TMain; TMain; TMain; TMain; TMain; TMain; TMain; TMain;
   TWorker 0; TWorker 1; TWorker 0; TWorker 1;
   TWorker 0; TWorker 1; TWorker 0; TWorker 1;
   TWorker 0; TWorker 1; TMain; TMain; TMain].

(** A response whose first [Read] delivers 10 of its 17 bytes. *)
Definition short_read_response : Response :=
  mkResponse "Loading...Success" 10 3000000.

Definition net_short_read : Network :=
  mkNetwork string (fun rawURL => Some rawURL)
    (fun _ _ _ _ => GetOk short_read_response).

(** One valid proxy checked under the protocol [https]. *)
Definition run_https : Run := mkRun default_config "https" 10 ["1.2.3.4:80"].

(** The probe completes and the aggregator saves its message before [main]
    goes on. *)
Definition sched_https_saved : list Tid :=
  [TMain; TMain; TMain; TMain; TMain;
   TWorker 0; TWorker 0; TAggr; TAggr;
   TWorker 0; TWorker 0; TWorker 0; TWorker 0; TWorker 0;
   TMain; TMain; TMain].

(** [main] returns while the message is still in the channel. *)
Definition sched_https_lost : list Tid :=
  [TMain; TMain; TMain; TMain; TMain;
   TWorker 0; TWorker 0; TWorker 0; TWorker 0; TWorker 0;
   TMain; TMain; TMain].


Definition sched_main_only : list Tid := [TMain; TMain; TMain; TMain; TMain].

(** A file holding the same address on two lines. *)
Definition two_lines : string :=
  "1.2.3.4:8080" +:+ String newline ("1.2.3.4:8080" +:+ String newline "").

Definition sources_two_lines : Sources :=
  mkSources (fun path => if String.eqb path "proxies.txt" then Ok two_lines
                         else Err "no such file or directory")
            (fun _ => Err "no route to host").

(** The scenario of the specification: two addresses, one of them malformed,
    checked under [https] for the marker [OK]. *)
Definition scenario_source : string :=
  "10.0.0.1:80" +:+ String newline "bad::addr".

Definition scenario_config : Config :=
  mkConfig "proxies.txt" "https" "https://example.com" "OK" (5000 * Millisecond) 10.

Definition scenario_run : Run :=
  mkRun scenario_config "https" 10 (extractProxies scenario_source).

Definition scenario_net (get : nat -> string -> string -> Z -> GetResult) : Network :=
  mkNetwork string NetURL.Parse get.

(** The states the schedules above lead to. *)
Definition state_lost_update : State :=
  after net_all_valid run_two sched_lost_update ∅.

Definition state_both_sending : State :=
  after net_all_valid run_two (take 10 sched_lost_update) ∅.

Definition state_https_saved : State :=
  after net_all_valid run_https sched_https_saved ∅.

Definition state_https_lost : State :=
  after net_all_valid run_https sched_https_lost ∅.


Definition blank_source : string :=
  String newline (" " +:+ String newline (String (byte_of 9) (String newline ""))).



(** The scenario on a network that refuses every connection, once both
    addresses are handed to their goroutines. *)
Definition net_refusing : Network :=
  scenario_net (fun _ _ _ _ => GetErr ConnectionRefused).

Definition sched_dispatch_two : list Tid :=
  [TMain; TMain; TMain; TMain; TMain; TMain; TMain].

Definition state_scenario_dispatched : State :=
  after net_refusing scenario_run sched_dispatch_two ∅.

Definition worker_bad_addr : Worker := mkWorker 1 "bad::addr" WProbe.

(** ** White space at the ends of a string *)

(** The scan of [trimLeftSpace] and of [trimLeftSpace_rev], over any
    recognisers of the one-, two- and three-byte white-space runes. *)
Section TrimRunes.

Variable p1 : ascii -> bool.
Variable p2 : ascii -> ascii -> bool.
Variable p3 : ascii -> ascii -> ascii -> bool.

Fixpoint trimRunes (s : string) : string :=
  match s with
  | EmptyString => EmptyString
  | String c1 s1 =>
      if p1 c1 then trimRunes s1 else
      match s1 with
      | EmptyString => s
      | String c2 s2 =>
          if p2 c1 c2 then trimRunes s2 else
          match s2 with
          | EmptyString => s
          | String c3 s3 =>
              if p3 c1 c2 c3 then trimRunes s3 else s
          end
      end
  end.

(** [s] begins with a rune the scan drops. *)
Definition startsRune (s : string) : bool :=
  match s with
  | EmptyString => false
  | String c1 s1 =>
      p1 c1 ||
      match s1 with
      | EmptyString => false
      | String c2 s2 =>
          p2 c1 c2 ||
          match s2 with
          | EmptyString => false
          | String c3 _ => p3 c1 c2 c3
          end
      end
  end.

End TrimRunes.

(** The bytes of a string. *)
Definition bytes (s : string) : list ascii := list_ascii_of_string s.

(** The text successive calls of [saveValidProxy] write for the addresses
    [ps]: each of them followed by a line break. *)
Definition lines_of (ps : list string) : string :=
  foldr (fun p acc => p +:+ String newline acc) "" ps.



(** A marker of 1025 bytes. *)
Definition long_marker : string := string_of_list_ascii (repeat (byte_of 97) 1025).

(** ** Measures of the run *)

(** The steps a worker has left at most; the send counts for three, its own
    and the two the aggregator takes for the message. *)
Definition worker_fuel (w : Worker) : Z :=
  match w_pc w with
  | WProbe => 9
  | WSend _ => 8
  | WLoad => 5
  | WStore _ => 4
  | WWgDone => 3
  | WBarAdd => 2
  | WRelease => 1
  | WExit => 0
  end.

(** The steps [main] has left at most, with those of the workers it has yet
    to start. *)
Definition main_fuel (r : Run) (pc : MainPC) : Z :=
  match pc with
  | MSetup => 12 * Z.of_nat (length (run_proxies r)) + 7
  | MLoop rest => 12 * Z.of_nat (length rest) + 4
  | MAcquire _ rest => 12 * Z.of_nat (length rest) + 15
  | MGo _ rest => 12 * Z.of_nat (length rest) + 14
  | MWait => 3
  | MClose => 2
  | MFinish => 1
  | MExit => 0
  end.

Definition aggr_fuel (pc : AggrPC) : Z :=
  match pc with
  | ANotStarted => 0
  | ARecv => 2
  | AHandle _ => 3
  | ASummary => 1
  | AExit => 0
  end.

(** A bound on the steps a run can still take from the state [s]. *)
Definition fuel (r : Run) (s : State) : Z :=
  if alive s then
    main_fuel r (st_main s) + sumZ worker_fuel (st_workers s)
    + 2 * Z.of_nat (length (results s)) + aggr_fuel (st_aggr s)
  else 0.

(** ** What the aggregator has saved *)

(** The message the aggregator has taken from the channel and not yet
    handled. *)
Definition in_hand (pc : AggrPC) : list string :=
  match pc with
  | AHandle msg => [msg]
  | _ => []
  end.

(** [parts[0]] in [handleValidProxy]: the text before the first ['|']. *)
Definition before_bar (m : string) : string := fst (NetURL.Cut m bar_byte).

(** The files after [saveValidProxy] was called for the addresses [ps] in
    turn, its error dropped as [handleValidProxy] drops it. *)
Definition save_each (fs : gmap string file) (protocol : string) (ps : list string)
  : gmap string file :=
  foldl (fun fs p => fst (saveValidProxy fs protocol p)) fs ps.

(** The bytes of a file, none for a file that is not there. *)
Definition file_data (fs : gmap string file) (path : string) : string :=
  match fs !! path with
  | Some f => data f
  | None => ""
  end.

(** The file can be appended to: it is writable, or not there yet. *)
Definition appendable (fs : gmap string file) (path : string) : Prop :=
  match fs !! path with
  | Some f => writable f = true
  | None => True
  end.

(** What a run keeps true of the channel and the files. *)
Definition saved_so_far (fs0 : gmap string file) (s : State) (handled : list string) : Prop :=
  sent_log s = handled ++ in_hand (st_aggr s) ++ results s /\
  fs s = save_each fs0 "socks5" (before_bar <$> handled) /\
  (alive s = true -> st_main s = MSetup -> st_aggr s = ANotStarted) /\
  (st_aggr s = ASummary \/ st_aggr s = AExit -> results s = [] /\ results_closed s = true).

(** ** What the counter holds *)

(** A worker whose update of [validCount] has been written back. *)
Definition stored (net : Network) (r : Run) (w : Worker) : Z :=
  match w_pc w with
  | WProbe | WSend _ | WLoad | WStore _ => 0
  | _ => match verdict_of net r w with Some _ => 1 | None => 0 end
  end.

(** The counter, and every value read from it and not yet written back,
    lies between zero and the number of updates written back; it is not
    zero once one was; the total printed is the counter. *)
Definition counted (net : Network) (r : Run) (s : State) : Prop :=
  0 <= validCount s <= sumZ (stored net r) (st_workers s) /\
  (1 <= sumZ (stored net r) (st_workers s) -> 1 <= validCount s) /\
  (forall i w tmp, st_workers s !! i = Some w -> w_pc w = WStore tmp ->
     0 <= tmp <= sumZ (stored net r) (st_workers s)) /\
  (forall v, reported_total s = Some v -> v = validCount s).

(** Under a limit of 1: the counter is the number of updates written back,
    and a value read from it is still the counter when it is written back. *)
Definition counted_serially (net : Network) (r : Run) (s : State) : Prop :=
  validCount s = sumZ (stored net r) (st_workers s) /\
  (forall i w tmp, st_workers s !! i = Some w -> w_pc w = WStore tmp ->
     tmp = validCount s).

(** ** Further concrete inputs *)

(** Two valid proxies under a limit of 1, the probes one after the other. *)
Definition run_serial : Run := mkRun default_config "socks5" 1 ["a:1"; "b:2"].

Definition sched_serial : list Tid :=
  [TMain; TMain; TMain; TMain; TMain;
   TWorker 0; TWorker 0; TWorker 0; TWorker 0; TWorker 0; TWorker 0; TWorker 0;
   TMain; TMain; TMain;
   TWorker 1; TWorker 1; TWorker 1; TWorker 1; TWorker 1; TWorker 1; TWorker 1;
   TMain; TMain; TMain].

Definition state_serial : State := after net_all_valid run_serial sched_serial ∅.

(** One address handed to its worker. *)
Definition state_https_dispatched : State :=
  after net_all_valid run_https (take 5 sched_https_saved) ∅.

(** A configuration file with a timeout of 250 ms and nothing else. *)
Definition ini_timeout_250 : IniSection := mkIni None None None None (Some 250) None.

(** One valid proxy under [https]; the aggregator saves it, sees the channel
    closed and prints its summary before [main] returns. *)
Definition sched_https_summary : list Tid :=
  [TMain; TMain; TMain; TMain; TMain;
   TWorker 0; TWorker 0; TAggr; TAggr;
   TWorker 0; TWorker 0; TWorker 0; TWorker 0; TWorker 0;
   TMain; TMain; TAggr; TAggr; TMain].

Definition state_https_summary : State :=
  after net_all_valid run_https sched_https_summary ∅.

(** ** The messages of the workers *)

(** The messages of the workers that have sent theirs, in the order of the
    workers. *)
Definition sent_of (net : Network) (r : Run) (ws : list Worker) : list string :=
  omap (fun w => if decide (has_sent net r w = 1) then verdict_of net r w else None) ws.

(** The summary of the aggregator is printed once, at its end, and is the
    counter. *)
Definition summary_ok (s : State) : Prop :=
  forall v, reported_saved s = Some v -> st_aggr s = AExit /\ v = validCount s.

(** ** The run of [main] in the other variant *)

(** The other variant starts its workers as [proxy_checker.go] does, but
    then leaves the closing of [results] to a goroutine of its own, receives
    from [results] in [main] as well as in the goroutine of [handleExit],
    and waits for a signal before it returns.  The line numbers in this
    module are those of the other variant. *)
Module SecondVariantRun.

(** Where the main goroutine is, from line 190 on. *)
Inductive MainPC : Type :=
| MSetup                                          (* lines 190-206 *)
| MLoop (rest : list string)                      (* lines 208-209 *)
| MAcquire (proxy : string) (rest : list string)  (* line 210: sem <- *)
| MGo (proxy : string) (rest : list string)       (* line 212: go func *)
| MCloser                                         (* line 222: go func *)
| MRecv                                           (* line 228: range results *)
| MHandle (msg : string)                          (* line 229 *)
| MFinish                                         (* lines 233-234 *)
| MSignal                                         (* line 237: <-signalChan *)
| MExit.                                          (* main has returned *)

(** Where the goroutine of lines 222-225 is. *)
Inductive CloserPC : Type :=
| CNotStarted
| CWait     (* line 223: wg.Wait() *)
| CClose    (* line 224: close(results) *)
| CExit.

(** The state of a run.  The workers and the goroutine of [handleExit] go
    through the control points of [WorkerPC] and [AggrPC]; [signalChan] is
    the number of signals buffered in the channel of that name, of capacity
    1.  [sent_log] and [signals] are history variables: the messages ever
    sent on [results] and the number of signals delivered. *)
Record State : Type := mkState {
  st_main : MainPC;
  st_workers : list Worker;
  st_aggr : AggrPC;
  st_closer : CloserPC;
  results : list string;
  results_cap : nat;
  results_closed : bool;
  sem : Z;
  wg : Z;
  validCount : Z;
  bar : Z;
  fs : gmap string file;
  reported_total : option Z;
  reported_saved : option Z;
  panicked : option string;
  signalChan : nat;
  sent_log : list string;
  signals : nat
}.

Definition set_st_main (v : MainPC) (s : State) : State :=
  {| st_main := v; st_workers := st_workers s; st_aggr := st_aggr s;
     st_closer := st_closer s; results := results s; results_cap := results_cap s;
     results_closed := results_closed s; sem := sem s; wg := wg s;
     validCount := validCount s; bar := bar s; fs := fs s;
     reported_total := reported_total s; reported_saved := reported_saved s;
     panicked := panicked s; signalChan := signalChan s; sent_log := sent_log s;
     signals := signals s |}.

Definition set_st_workers (v : list Worker) (s : State) : State :=
  {| st_main := st_main s; st_workers := v; st_aggr := st_aggr s;
     st_closer := st_closer s; results := results s; results_cap := results_cap s;
     results_closed := results_closed s; sem := sem s; wg := wg s;
     validCount := validCount s; bar := bar s; fs := fs s;
     reported_total := reported_total s; reported_saved := reported_saved s;
     panicked := panicked s; signalChan := signalChan s; sent_log := sent_log s;
     signals := signals s |}.

Definition set_st_aggr (v : AggrPC) (s : State) : State :=
  {| st_main := st_main s; st_workers := st_workers s; st_aggr := v;
     st_closer := st_closer s; results := results s; results_cap := results_cap s;
     results_closed := results_closed s; sem := sem s; wg := wg s;
     validCount := validCount s; bar := bar s; fs := fs s;
     reported_total := reported_total s; reported_saved := reported_saved s;
     panicked := panicked s; signalChan := signalChan s; sent_log := sent_log s;
     signals := signals s |}.

Definition set_st_closer (v : CloserPC) (s : State) : State :=
  {| st_main := st_main s; st_workers := st_workers s; st_aggr := st_aggr s;
     st_closer := v; results := results s; results_cap := results_cap s;
     results_closed := results_closed s; sem := sem s; wg := wg s;
     validCount := validCount s; bar := bar s; fs := fs s;
     reported_total := reported_total s; reported_saved := reported_saved s;
     panicked := panicked s; signalChan := signalChan s; sent_log := sent_log s;
     signals := signals s |}.

Definition set_results (v : list string) (s : State) : State :=
  {| st_main := st_main s; st_workers := st_workers s; st_aggr := st_aggr s;
     st_closer := st_closer s; results := v; results_cap := results_cap s;
     results_closed := results_closed s; sem := sem s; wg := wg s;
     validCount := validCount s; bar := bar s; fs := fs s;
     reported_total := reported_total s; reported_saved := reported_saved s;
     panicked := panicked s; signalChan := signalChan s; sent_log := sent_log s;
     signals := signals s |}.

Definition set_results_cap (v : nat) (s : State) : State :=
  {| st_main := st_main s; st_workers := st_workers s; st_aggr := st_aggr s;
     st_closer := st_closer s; results := results s; results_cap := v;
     results_closed := results_closed s; sem := sem s; wg := wg s;
     validCount := validCount s; bar := bar s; fs := fs s;
     reported_total := reported_total s; reported_saved := reported_saved s;
     panicked := panicked s; signalChan := signalChan s; sent_log := sent_log s;
     signals := signals s |}.

Definition set_results_closed (v : bool) (s : State) : State :=
  {| st_main := st_main s; st_workers := st_workers s; st_aggr := st_aggr s;
     st_closer := st_closer s; results := results s; results_cap := results_cap s;
     results_closed := v; sem := sem s; wg := wg s; validCount := validCount s;
     bar := bar s; fs := fs s; reported_total := reported_total s;
     reported_saved := reported_saved s; panicked := panicked s;
     signalChan := signalChan s; sent_log := sent_log s; signals := signals s |}.

Definition set_sem (v : Z) (s : State) : State :=
  {| st_main := st_main s; st_workers := st_workers s; st_aggr := st_aggr s;
     st_closer := st_closer s; results := results s; results_cap := results_cap s;
     results_closed := results_closed s; sem := v; wg := wg s;
     validCount := validCount s; bar := bar s; fs := fs s;
     reported_total := reported_total s; reported_saved := reported_saved s;
     panicked := panicked s; signalChan := signalChan s; sent_log := sent_log s;
     signals := signals s |}.

Definition set_wg (v : Z) (s : State) : State :=
  {| st_main := st_main s; st_workers := st_workers s; st_aggr := st_aggr s;
     st_closer := st_closer s; results := results s; results_cap := results_cap s;
     results_closed := results_closed s; sem := sem s; wg := v;
     validCount := validCount s; bar := bar s; fs := fs s;
     reported_total := reported_total s; reported_saved := reported_saved s;
     panicked := panicked s; signalChan := signalChan s; sent_log := sent_log s;
     signals := signals s |}.

Definition set_validCount (v : Z) (s : State) : State :=
  {| st_main := st_main s; st_workers := st_workers s; st_aggr := st_aggr s;
     st_closer := st_closer s; results := results s; results_cap := results_cap s;
     results_closed := results_closed s; sem := sem s; wg := wg s; validCount := v;
     bar := bar s; fs := fs s; reported_total := reported_total s;
     reported_saved := reported_saved s; panicked := panicked s;
     signalChan := signalChan s; sent_log := sent_log s; signals := signals s |}.

Definition set_bar (v : Z) (s : State) : State :=
  {| st_main := st_main s; st_workers := st_workers s; st_aggr := st_aggr s;
     st_closer := st_closer s; results := results s; results_cap := results_cap s;
     results_closed := results_closed s; sem := sem s; wg := wg s;
     validCount := validCount s; bar := v; fs := fs s;
     reported_total := reported_total s; reported_saved := reported_saved s;
     panicked := panicked s; signalChan := signalChan s; sent_log := sent_log s;
     signals := signals s |}.

Definition set_fs (v : gmap string file) (s : State) : State :=
  {| st_main := st_main s; st_workers := st_workers s; st_aggr := st_aggr s;
     st_closer := st_closer s; results := results s; results_cap := results_cap s;
     results_closed := results_closed s; sem := sem s; wg := wg s;
     validCount := validCount s; bar := bar s; fs := v;
     reported_total := reported_total s; reported_saved := reported_saved s;
     panicked := panicked s; signalChan := signalChan s; sent_log := sent_log s;
     signals := signals s |}.

Definition set_reported_total (v : option Z) (s : State) : State :=
  {| st_main := st_main s; st_workers := st_workers s; st_aggr := st_aggr s;
     st_closer := st_closer s; results := results s; results_cap := results_cap s;
     results_closed := results_closed s; sem := sem s; wg := wg s;
     validCount := validCount s; bar := bar s; fs := fs s; reported_total := v;
     reported_saved := reported_saved s; panicked := panicked s;
     signalChan := signalChan s; sent_log := sent_log s; signals := signals s |}.

Definition set_reported_saved (v : option Z) (s : State) : State :=
  {| st_main := st_main s; st_workers := st_workers s; st_aggr := st_aggr s;
     st_closer := st_closer s; results := results s; results_cap := results_cap s;
     results_closed := results_closed s; sem := sem s; wg := wg s;
     validCount := validCount s; bar := bar s; fs := fs s;
     reported_total := reported_total s; reported_saved := v; panicked := panicked s;
     signalChan := signalChan s; sent_log := sent_log s; signals := signals s |}.

Definition set_panicked (v : option string) (s : State) : State :=
  {| st_main := st_main s; st_workers := st_workers s; st_aggr := st_aggr s;
     st_closer := st_closer s; results := results s; results_cap := results_cap s;
     results_closed := results_closed s; sem := sem s; wg := wg s;
     validCount := validCount s; bar := bar s; fs := fs s;
     reported_total := reported_total s; reported_saved := reported_saved s;
     panicked := v; signalChan := signalChan s; sent_log := sent_log s;
     signals := signals s |}.

Definition set_signalChan (v : nat) (s : State) : State :=
  {| st_main := st_main s; st_workers := st_workers s; st_aggr := st_aggr s;
     st_closer := st_closer s; results := results s; results_cap := results_cap s;
     results_closed := results_closed s; sem := sem s; wg := wg s;
     validCount := validCount s; bar := bar s; fs := fs s;
     reported_total := reported_total s; reported_saved := reported_saved s;
     panicked := panicked s; signalChan := v; sent_log := sent_log s;
     signals := signals s |}.

Definition set_sent_log (v : list string) (s : State) : State :=
  {| st_main := st_main s; st_workers := st_workers s; st_aggr := st_aggr s;
     st_closer := st_closer s; results := results s; results_cap := results_cap s;
     results_closed := results_closed s; sem := sem s; wg := wg s;
     validCount := validCount s; bar := bar s; fs := fs s;
     reported_total := reported_total s; reported_saved := reported_saved s;
     panicked := panicked s; signalChan := signalChan s; sent_log := v;
     signals := signals s |}.

Definition set_signals (v : nat) (s : State) : State :=
  {| st_main := st_main s; st_workers := st_workers s; st_aggr := st_aggr s;
     st_closer := st_closer s; results := results s; results_cap := results_cap s;
     results_closed := results_closed s; sem := sem s; wg := wg s;
     validCount := validCount s; bar := bar s; fs := fs s;
     reported_total := reported_total s; reported_saved := reported_saved s;
     panicked := panicked s; signalChan := signalChan s; sent_log := sent_log s;
     signals := v |}.

Definition panic (msg : string) (s : State) : State := set_panicked (Some msg) s.

(** The process is running: no panic has ended it and [main] has not
    returned. *)
Definition alive (s : State) : bool :=
  match panicked s, st_main s with
  | None, MExit => false
  | None, _ => true
  | Some _, _ => false
  end.

Section Machine.

Variable net : Network.
Variable r : Run.

(** The state at line 190. *)
Definition init (fs0 : gmap string file) : State :=
  {| st_main := MSetup; st_workers := []; st_aggr := ANotStarted; st_closer := CNotStarted;
     results := []; results_cap := 0; results_closed := false;
     sem := 0; wg := 0; validCount := 0; bar := 0;
     fs := fs0; reported_total := None; reported_saved := None;
     panicked := None; signalChan := 0; sent_log := []; signals := 0 |}.

(** One step of the main goroutine.  After the loop it starts the closing
    goroutine and ranges over [results] itself, saving under the protocol of
    the run; then it prints its total and waits for a signal. *)
Definition step_main (s : State) : option State :=
  if negb (alive s) then None else
  match st_main s with
  | MSetup =>
      let s := set_results_cap (length (run_proxies r)) s in
      let s := set_st_aggr ARecv s in
      if run_threads r <? 0 then Some (panic "makechan: size out of range" s)
      else Some (set_st_main (MLoop (run_proxies r)) s)
  | MLoop [] => Some (set_st_main MCloser s)
  | MLoop (proxy :: rest) =>
      Some (set_st_main (MAcquire proxy rest) (set_wg (wg s + 1) s))
  | MAcquire proxy rest =>
      if sem s <? run_threads r then
        Some (set_st_main (MGo proxy rest) (set_sem (sem s + 1) s))
      else None
  | MGo proxy rest =>
      let w := mkWorker (length (st_workers s)) proxy WProbe in
      Some (set_st_main (MLoop rest) (set_st_workers (st_workers s ++ [w]) s))
  | MCloser => Some (set_st_main MRecv (set_st_closer CWait s))
  | MRecv =>
      match results s with
      | msg :: rest => Some (set_st_main (MHandle msg) (set_results rest s))
      | [] => if results_closed s then Some (set_st_main MFinish s) else None
      end
  | MHandle msg =>
      Some (set_st_main MRecv
              (set_fs (SecondVariantProbe.handleValidProxy (fs s) (run_protocol r) msg) s))
  | MFinish =>
      Some (set_st_main MSignal (set_reported_total (Some (validCount s)) s))
  | MSignal =>
      match signalChan s with
      | S n => Some (set_st_main MExit (set_signalChan n s))
      | O => None
      end
  | MExit => None
  end.

(** The goroutine of lines 222-225. *)
Definition step_closer (s : State) : option State :=
  if negb (alive s) then None else
  match st_closer s with
  | CNotStarted => None
  | CWait => if wg s =? 0 then Some (set_st_closer CClose s) else None
  | CClose =>
      if results_closed s then Some (panic "close of closed channel" s)
      else Some (set_st_closer CExit (set_results_closed true s))
  | CExit => None
  end.

Definition verdict_of (w : Worker) : option string :=
  SecondVariantProbe.checkProxy_verdict net (w_id w) (w_proxy w) (run_protocol r)
    (URL (run_config r)) (ValidStr (run_config r)) (Timeout (run_config r)).

(** One step of a worker (lines 212-218, with [checkProxy] inlined); the
    print of line 217 reads [validCount] and changes nothing. *)
Definition step_worker_at (w : Worker) (s : State) : option (WorkerPC * State) :=
  match w_pc w with
  | WProbe =>
      match verdict_of w with
      | Some msg => Some (WSend msg, s)
      | None => Some (WWgDone, s)
      end
  | WSend msg =>
      if results_closed s then Some (WSend msg, panic "send on closed channel" s)
      else if Nat.ltb (length (results s)) (results_cap s) then
        Some (WLoad, set_sent_log (sent_log s ++ [msg]) (set_results (results s ++ [msg]) s))
      else None
  | WLoad => Some (WStore (validCount s), s)
  | WStore tmp => Some (WWgDone, set_validCount (wrap_int (tmp + 1)) s)
  | WWgDone =>
      if wg s - 1 <? 0 then Some (WWgDone, panic "sync: negative WaitGroup counter" s)
      else Some (WBarAdd, set_wg (wg s - 1) s)
  | WBarAdd => Some (WRelease, set_bar (bar s + 1) s)
  | WRelease =>
      if 0 <? sem s then Some (WExit, set_sem (sem s - 1) s) else None
  | WExit => None
  end.

Definition step_worker (i : nat) (s : State) : option State :=
  if negb (alive s) then None else
  match st_workers s !! i with
  | None => None
  | Some w =>
      match step_worker_at w s with
      | None => None
      | Some (pc, s') => Some (set_st_workers (<[i := at_pc w pc]> (st_workers s')) s')
      end
  end.

(** The goroutine of [handleExit]: it saves under "socks5". *)
Definition step_aggr (s : State) : option State :=
  if negb (alive s) then None else
  match st_aggr s with
  | ANotStarted => None
  | ARecv =>
      match results s with
      | msg :: rest => Some (set_st_aggr (AHandle msg) (set_results rest s))
      | [] => if results_closed s then Some (set_st_aggr ASummary s) else None
      end
  | AHandle msg =>
      Some (set_st_aggr ARecv
              (set_fs (SecondVariantProbe.handleValidProxy (fs s) "socks5" msg) s))
  | ASummary =>
      Some (set_st_aggr AExit (set_reported_saved (Some (validCount s)) s))
  | AExit => None
  end.

(** The delivery of SIGINT or SIGTERM once [signal.Notify] is in force, that
    is after line 198: the signal is put into [signalChan], or dropped when
    the channel holds one already.  (Before that line a signal ends the
    process; such runs are not part of this model.) *)
Definition step_signal (s : State) : option State :=
  if negb (alive s) then None else
  match st_main s with
  | MSetup => None
  | _ => Some (set_signals (S (signals s)) (set_signalChan 1 s))
  end.

(** The goroutines, and the environment that delivers signals. *)
Inductive Tid : Type :=
| TMain
| TWorker (i : nat)
| TAggr
| TCloser
| TSignal.

Definition step_of (t : Tid) (s : State) : option State :=
  match t with
  | TMain => step_main s
  | TWorker i => step_worker i s
  | TAggr => step_aggr s
  | TCloser => step_closer s
  | TSignal => step_signal s
  end.

Definition step (s s' : State) : Prop := exists t, step_of t s = Some s'.

Definition reachable (fs0 : gmap string file) (s : State) : Prop :=
  rtc step (init fs0) s.

Fixpoint run_schedule (sched : list Tid) (s : State) : option State :=
  match sched with
  | [] => Some s
  | t :: rest =>
      match step_of t s with
      | Some s' => run_schedule rest s'
      | None => None
      end
  end.

(** The state a schedule leads to from the start of a run (the start itself
    when the schedule cannot be followed). *)
Definition after (sched : list Tid) (fs0 : gmap string file) : State :=
  default (init fs0) (run_schedule sched (init fs0)).

End Machine.

(** The workers between their slot acquisition and its release, and the
    token [main] holds for the goroutine it is about to start. *)
Definition live_workers (s : State) : Z := sumZ holds_slot (st_workers s).

Definition pending_sem (pc : MainPC) : Z :=
  match pc with MGo _ _ => 1 | _ => 0 end.

(** The addresses [main] has not yet handed to a goroutine. *)
Definition todo (proxies : list string) (pc : MainPC) : list string :=
  match pc with
  | MSetup => proxies
  | MLoop rest => rest
  | MAcquire proxy rest | MGo proxy rest => proxy :: rest
  | _ => []
  end.

(** The message [main] has received and not yet handled. *)
Definition main_in_hand (pc : MainPC) : list string :=
  match pc with
  | MHandle msg => [msg]
  | _ => []
  end.

(** A worker that is past its send, or has none to make. *)
Definition past_send (w : Worker) : Z :=
  match w_pc w with WProbe | WSend _ => 0 | _ => 1 end.

(** What a run keeps true of the semaphore, the dispatch and the channel. *)
Record Inv (r : Run) (s : State) : Prop := mkInv {
  inv_sem : sem s = live_workers s + pending_sem (st_main s);
  inv_sem_le : sem s <= Z.max 0 (run_threads r);
  inv_dispatch :
    map w_proxy (st_workers s) ++ todo (run_proxies r) (st_main s) = run_proxies r;
  inv_cap : st_main s <> MSetup -> results_cap s = length (run_proxies r);
  inv_sent : Z.of_nat (length (sent_log s)) <= sumZ past_send (st_workers s);
  inv_buf : (length (results s) <= length (sent_log s))%nat
}.

(** The saves of the two receivers: each a protocol and an address. *)
Definition save_pairs (fs : gmap string file) (saves : list (string * string))
  : gmap string file :=
  foldl (fun fs sp => fst (saveValidProxy fs (fst sp) (snd sp))) fs saves.

(** What a run keeps true of the messages and the files. *)
Definition saved_by_both (r : Run) (fs0 : gmap string file) (s : State)
    (saves : list (string * string)) : Prop :=
  fs s = save_pairs fs0 saves /\
  sent_log s ≡ₚ (snd <$> saves) ++ main_in_hand (st_main s) ++ in_hand (st_aggr s)
                 ++ results s /\
  Forall (fun sp => fst sp = run_protocol r \/ fst sp = "socks5") saves /\
  (alive s = true -> st_main s = MSetup -> st_aggr s = ANotStarted).

(** Two valid proxies checked under [https]: [main] receives and saves the
    first message, the goroutine of [handleExit] the second. *)
Definition run_split : Run := mkRun default_config "https" 10 ["a:1"; "b:2"].

Definition sched_split : list Tid :=
  [TMain; TMain; TMain; TMain; TMain; TMain; TMain; TMain; TMain;
   TWorker 0; TWorker 0; TWorker 1; TWorker 1;
   TMain; TMain; TAggr; TAggr].

Definition state_split : State := after net_all_valid run_split sched_split ∅.

(** The same run to its end, a signal delivered while the probes run. *)
Definition sched_to_exit : list Tid :=
  sched_split ++
  [TSignal;
   TWorker 0; TWorker 0; TWorker 0; TWorker 0; TWorker 0;
   TWorker 1; TWorker 1; TWorker 1; TWorker 1; TWorker 1;
   TCloser; TCloser; TMain; TMain; TMain].

Definition state_exit : State := after net_all_valid run_split sched_to_exit ∅.

End SecondVariantRun.
(** * Theorems *)

(** ** The library functions on examples *)

Example TrimSpace_ex1 :
  TrimSpace (String (byte_of 32) ("1.2.3.4:8080" +:+ String (byte_of 13) ""))
  = "1.2.3.4:8080".
Proof. reflexivity. Qed.

Example TrimSpace_ex2 :
  TrimSpace (String (byte_of 194) (String (byte_of 160)
               ("a b" +:+ String (byte_of 226) (String (byte_of 128)
                                                  (String (byte_of 168) "")))))
  = "a b".
Proof. reflexivity. Qed.

Example Split_ex1 :
  Split ("a" +:+ String newline ("" +:+ String newline "b")) newline = ["a"; ""; "b"].
Proof. reflexivity. Qed.

Example Contains_ex1 : Contains "xxSuccessyy" "Success" = true.
Proof. reflexivity. Qed.

Example Sprintf_d_ex : Sprintf_d (-42) = "-42" /\ Sprintf_d 0 = "0" /\ Sprintf_d 10 = "10".
Proof. repeat split; reflexivity. Qed.

Example Sscanf_d_ex :
  Sscanf_d "12abc" = Some 12 /\ Sscanf_d "-7" = Some (-7) /\ Sscanf_d "+3" = Some 3 /\
  Sscanf_d "abc" = None /\ Sscanf_d "-" = None /\
  Sscanf_d "9223372036854775807" = Some maxInt /\
  Sscanf_d "9223372036854775808" = None /\
  Sscanf_d "-9223372036854775808" = Some minInt.
Proof. repeat split; vm_compute; reflexivity. Qed.

Example extractProxies_ex : extractProxies two_lines = ["1.2.3.4:8080"].
Proof. vm_compute. reflexivity. Qed.

Example SecondVariant_ScanLines_ex :
  SecondVariant.ScanLines two_lines = ["1.2.3.4:8080"; "1.2.3.4:8080"].
Proof. vm_compute. reflexivity. Qed.

Example protocols_ex :
  promptProtocol "4" "socks5" = "socks4" /\ promptProtocol "" "https" = "https".
Proof. split; vm_compute; reflexivity. Qed.

Example NetURL_ex :
  NetURL.Parse "https://bad::addr" = None /\
  NetURL.Parse "https://10.0.0.1:80" = Some "https://10.0.0.1:80" /\
  NetURL.Parse "socks5://[::1]:1080" = Some "socks5://[::1]:1080" /\
  NetURL.Parse "socks5://[::1" = None /\
  NetURL.Parse "://x" = None /\
  NetURL.Parse "https://user:pw@host:8080/path?q#f" = Some "https://user:pw@host:8080/path?q#f" /\
  NetURL.Parse "https://host:80a" = None.
Proof. repeat split; vm_compute; reflexivity. Qed.

(** ** Sums over the workers *)

Lemma sumZ_app f ws1 ws2 : sumZ f (ws1 ++ ws2) = sumZ f ws1 + sumZ f ws2.
Proof. induction ws1 as [|w ws1 IH]; simpl; [reflexivity | rewrite IH; lia]. Qed.

Lemma sumZ_insert f ws i w w' :
  ws !! i = Some w ->
  sumZ f (<[i := w']> ws) = sumZ f ws - f w + f w'.
Proof.
  revert i. induction ws as [|w0 ws IH]; intros [|i] Hi; simpl in *; try discriminate.
  - injection Hi as ->. lia.
  - rewrite (IH _ Hi). lia.
Qed.

Lemma sumZ_nonneg f ws : (forall w, 0 <= f w) -> 0 <= sumZ f ws.
Proof. intros Hf. induction ws as [|w ws IH]; simpl; [lia | specialize (Hf w); lia]. Qed.

Lemma sumZ_lookup_le f ws i w :
  (forall w, 0 <= f w) -> ws !! i = Some w -> f w <= sumZ f ws.
Proof.
  intros Hf. revert i. induction ws as [|w0 ws IH]; intros [|i] Hi; simpl in *; try discriminate.
  - injection Hi as ->. pose proof (sumZ_nonneg f ws Hf). lia.
  - specialize (IH _ Hi). specialize (Hf w0). lia.
Qed.

Lemma sumZ_zero_lookup f ws i w :
  (forall w, 0 <= f w) -> sumZ f ws = 0 -> ws !! i = Some w -> f w = 0.
Proof.
  intros Hf H0 Hi. pose proof (sumZ_lookup_le f ws i w Hf Hi). specialize (Hf w). lia.
Qed.

Lemma sumZ_pair_le_length f g ws :
  (forall w, f w + g w <= 1) -> sumZ f ws + sumZ g ws <= Z.of_nat (length ws).
Proof.
  intros Hfg. induction ws as [|w ws IH]; simpl length; simpl sumZ; [lia|].
  specialize (Hfg w). lia.
Qed.

(** ** Schedules *)

Section Schedules.

Variable net : Network.
Variable r : Run.

Lemma run_schedule_reachable sched s s' :
  run_schedule net r sched s = Some s' -> reachable_from net r s s'.
Proof.
  revert s. induction sched as [|t sched IH]; intros s Hrun; simpl in Hrun.
  - injection Hrun as <-. apply rtc_refl.
  - destruct (step_of net r t s) as [s1|] eqn:Hstep; [|discriminate].
    eapply rtc_l; [exists t; exact Hstep | apply IH, Hrun].
Qed.

Lemma after_reachable sched fs0 : reachable net r fs0 (after net r sched fs0).
Proof.
  unfold after, reachable.
  destruct (run_schedule net r sched (init fs0)) as [s|] eqn:Hrun; simpl.
  - eapply run_schedule_reachable, Hrun.
  - apply rtc_refl.
Qed.

End Schedules.

(** ** Messages and files *)

Lemma Split_nonempty s sep : Split s sep <> [].
Proof.
  induction s as [|c s IH]; simpl; [discriminate|].
  destruct (Ascii.eqb c sep); [discriminate|].
  destruct (Split s sep); [contradiction | discriminate].
Qed.

(** A string with a separator in it splits into at least two pieces. *)
Lemma Split_two a b sep :
  exists p q rest, Split (a +:+ String sep b) sep = p :: q :: rest.
Proof.
  induction a as [|c a IH]; simpl.
  - rewrite Ascii.eqb_refl. destruct (Split b sep) as [|q rest] eqn:Hb.
    + exfalso. exact (Split_nonempty _ _ Hb).
    + eauto.
  - destruct IH as (p & q & rest & ->).
    destruct (Ascii.eqb c sep); eauto.
Qed.

Lemma handleValidProxy_message fs protocol m :
  is_message m -> exists fs', handleValidProxy fs protocol m = Some fs'.
Proof.
  intros (a & b & ->). unfold handleValidProxy.
  destruct (Split_two a b bar_byte) as (p & q & rest & ->). eauto.
Qed.

Lemma checkProxy_verdict_message net i proxy protocol target valid timeout m :
  checkProxy_verdict net i proxy protocol target valid timeout = Some m ->
  is_message m.
Proof.
  unfold checkProxy_verdict.
  destruct (url_Parse net _) as [u|]; [|discriminate].
  destruct (client_Get net i u target timeout) as [e|resp]; [discriminate|].
  destruct (Contains _ _); [|discriminate].
  intros [= <-]. exists proxy. eexists. reflexivity.
Qed.

(** [saveValidProxy] touches one path only. *)
Lemma saveValidProxy_frame fs protocol proxy path :
  path <> valid_path protocol ->
  fst (saveValidProxy fs protocol proxy) !! path = fs !! path.
Proof.
  intros Hne. unfold saveValidProxy.
  destruct (fs !! valid_path protocol) as [f|]; simpl.
  - destruct (writable f); simpl; [|reflexivity].
    apply lookup_insert_ne. congruence.
  - apply lookup_insert_ne. congruence.
Qed.

Lemma handleValidProxy_frame fs fs' protocol m path :
  handleValidProxy fs protocol m = Some fs' ->
  path <> valid_path protocol ->
  fs' !! path = fs !! path.
Proof.
  unfold handleValidProxy.
  destruct (Split m bar_byte) as [|p [|q rest]]; try discriminate.
  intros [= <-]. apply saveValidProxy_frame.
Qed.

(** ** Invariants of the run *)

Section Invariants.

Variable net : Network.
Variable r : Run.
Variable fs0 : gmap string file.

(** The invariant holds at line 233. *)
Lemma Inv_init : Inv net r fs0 (init fs0).
Proof.
  constructor; simpl; try reflexivity; try lia; try discriminate; try congruence.
  intros m Hm. apply elem_of_nil in Hm. contradiction.
Qed.

Lemma holds_slot_nonneg w : 0 <= holds_slot w.
Proof. unfold holds_slot. destruct (w_pc w); lia. Qed.

Lemma not_done_nonneg w : 0 <= not_done w.
Proof. unfold not_done. destruct (w_pc w); lia. Qed.

Lemma has_sent_nonneg w : 0 <= has_sent net r w.
Proof. unfold has_sent. destruct (w_pc w); try lia; destruct (verdict_of net r w); lia. Qed.

Lemma at_send_nonneg w : 0 <= at_send w.
Proof. unfold at_send. destruct (w_pc w); lia. Qed.

Lemma has_sent_at_send w : has_sent net r w + at_send w <= 1.
Proof.
  unfold has_sent, at_send. destruct (w_pc w); try lia; destruct (verdict_of net r w); lia.
Qed.

(** The fields of the invariant that a step leaves as they are. *)
Ltac inv_easy Hm :=
  simpl; rewrite ?Hm; simpl; auto; try discriminate; try congruence; try lia;
  try match goal with
    | Hagg : ?a = ANotStarted -> _ = MSetup |- ?a = ANotStarted -> _ =>
        let H := fresh in intros H; specialize (Hagg H); discriminate
    | Hcl : ?c = true -> false = true |- ?c = true -> _ =>
        let H := fresh in intros H; specialize (Hcl H); discriminate
    | Htot : forall v, ?t = Some v -> _ /\ _ |- forall v, ?t = Some v -> _ =>
        let v := fresh in let H := fresh in
        intros v H; destruct (Htot v H) as [? ?]; first [discriminate | split; assumption]
    end.

(** It is kept by every step of [main]. *)
Lemma Inv_step_main s s' : Inv net r fs0 s -> step_main r s = Some s' -> Inv net r fs0 s'.
Proof.
  intros HI. unfold step_main. destruct (alive s) eqn:Hal; simpl; [|discriminate].
  destruct (st_main s) as [|rest|p rest|p rest| | | |] eqn:Hm;
    destruct HI as [Hsem Hle Hwg Hbar Hdis Hids Hcap Hwf Hlen Hby Hin Hbuf Hhan Hagg
                    Hcl Hwt Hnp Hfs Hq Htot];
    unfold live_workers in *; rewrite ?Hm in *; simpl in *.
  - (* MSetup *)
    destruct (run_threads r <? 0) eqn:Hneg; intros [= <-];
      constructor; unfold live_workers; inv_easy Hm.
  - (* MLoop *)
    destruct rest as [|p rest]; intros [= <-];
      constructor; unfold live_workers; inv_easy Hm.
  - (* MAcquire *)
    destruct (sem s <? run_threads r) eqn:Hlt; intros [= <-];
      constructor; unfold live_workers; inv_easy Hm.
  - (* MGo *)
    intros [= <-]; constructor; unfold live_workers; inv_easy Hm.
    all: rewrite ?sumZ_app; unfold holds_slot, not_done, accounted, has_sent in *; simpl; try lia.
    + rewrite List.map_app, <- app_assoc. exact Hdis.
    + intros i w Hi. apply lookup_app_Some in Hi as [Hi | [Hge Hi]]; [eauto|].
      apply list_lookup_singleton_Some in Hi as [Hi <-]. simpl. lia.
    + intros i w Hi. apply lookup_app_Some in Hi as [Hi | [Hge Hi]]; [eauto|].
      apply list_lookup_singleton_Some in Hi as [Hi <-]. exact I.
    + intros m Hm'. destruct (Hby m Hm') as (i & w & Hi & Hv & Hs).
      exists i, w. split; [|auto]. apply lookup_app_l_Some. exact Hi.
    + intros i w m Hi. apply lookup_app_Some in Hi as [Hi | [Hge Hi]]; [eauto|].
      apply list_lookup_singleton_Some in Hi as [Hi <-]. simpl. lia.
    + intros Hnil. apply app_eq_nil in Hnil as [_ Hnil]. discriminate.
  - (* MWait *)
    destruct (wg s =? 0) eqn:Hz; intros [= <-];
      constructor; unfold live_workers; inv_easy Hm.
  - (* MClose *)
    destruct (results_closed s) eqn:Hc; intros [= <-];
      constructor; unfold live_workers; inv_easy Hm.
  - (* MFinish *)
    intros [= <-]; constructor; unfold live_workers; inv_easy Hm.
    intros v [= <-]. split; [reflexivity | exact Hq].
  - (* MExit *)
    discriminate.
Qed.

Lemma verdict_message w m : verdict_of net r w = Some m -> is_message m.
Proof. apply checkProxy_verdict_message. Qed.

(** It is kept by every step of the aggregator; a message taken from the
    channel always splits at its ['|']. *)
Lemma Inv_step_aggr s s' : Inv net r fs0 s -> step_aggr s = Some s' -> Inv net r fs0 s'.
Proof.
  intros HI. unfold step_aggr. destruct (alive s) eqn:Hal; simpl; [|discriminate].
  destruct (st_aggr s) as [| |msg| |] eqn:Ha;
    destruct HI as [Hsem Hle Hwg Hbar Hdis Hids Hcap Hwf Hlen Hby Hin Hbuf Hhan Hagg
                    Hcl Hwt Hnp Hfs Hq Htot];
    unfold live_workers in *; simpl in *; try discriminate.
  - (* ARecv *)
    destruct (results s) as [|msg rest] eqn:Hres.
    + destruct (results_closed s) eqn:Hc; intros [= <-];
        constructor; unfold live_workers; inv_easy Ha.
    + intros [= <-]; constructor; unfold live_workers; inv_easy Ha.
      * eapply suffix_cons_l. exact Hbuf.
      * intros m [= <-].
        destruct Hbuf as [k ->]. apply elem_of_app. right. apply elem_of_cons. left. reflexivity.
  - (* AHandle *)
    destruct (handleValidProxy (fs s) "socks5" msg) as [fs'|] eqn:Hh.
    + intros [= <-]; constructor; unfold live_workers; inv_easy Ha.
      intros path Hp. rewrite (handleValidProxy_frame _ _ _ _ _ Hh Hp). auto.
    + exfalso. destruct (Hby msg (Hhan msg Ha)) as (i & w & _ & Hv & _).
      destruct (handleValidProxy_message (fs s) "socks5" msg (verdict_message _ _ Hv))
        as [fs' Hfs'].
      congruence.
  - (* ASummary *)
    intros [= <-]; constructor; unfold live_workers; inv_easy Ha.
Qed.

(** *** A worker's move *)

Lemma verdict_at_pc w pc : verdict_of net r (at_pc w pc) = verdict_of net r w.
Proof. reflexivity. Qed.

Lemma workers_insert_proxy (ws : list Worker) i w pc :
  ws !! i = Some w ->
  map w_proxy (<[i := at_pc w pc]> ws) = map w_proxy ws.
Proof.
  revert i. induction ws as [|w0 ws IH]; intros [|i] Hi; simpl in *; try discriminate.
  - injection Hi as ->. reflexivity.
  - f_equal. apply IH, Hi.
Qed.

Lemma workers_insert_ids (ws : list Worker) i w pc :
  (forall j w0, ws !! j = Some w0 -> w_id w0 = j) ->
  ws !! i = Some w ->
  forall j w0, <[i := at_pc w pc]> ws !! j = Some w0 -> w_id w0 = j.
Proof.
  intros Hids Hi j w0 Hj.
  apply list_lookup_insert_Some in Hj as [(-> & <- & _) | (_ & Hj)]; [|eauto].
  simpl. eauto.
Qed.

Lemma workers_insert_nonempty (ws : list Worker) i w w' :
  ws !! i = Some w -> <[i := w']> ws <> [].
Proof. destruct ws, i; simpl; intros; discriminate. Qed.

Lemma workers_insert_wf (ws : list Worker) i w pc :
  (forall j w0, ws !! j = Some w0 -> wf_worker net r w0) ->
  ws !! i = Some w ->
  wf_worker net r (at_pc w pc) ->
  forall j w0, <[i := at_pc w pc]> ws !! j = Some w0 -> wf_worker net r w0.
Proof.
  intros Hwf Hi Hpc j w0 Hj.
  apply list_lookup_insert_Some in Hj as [(-> & <- & _) | (_ & Hj)]; eauto.
Qed.

Lemma workers_insert_sent_in (ws : list Worker) i w pc (log : list string) :
  ws !! i = Some w ->
  (has_sent net r (at_pc w pc) = 1 -> has_sent net r w = 1) ->
  (forall j w0 m, ws !! j = Some w0 -> has_sent net r w0 = 1 ->
                  verdict_of net r w0 = Some m -> m ∈ log) ->
  forall j w0 m, <[i := at_pc w pc]> ws !! j = Some w0 -> has_sent net r w0 = 1 ->
                 verdict_of net r w0 = Some m -> m ∈ log.
Proof.
  intros Hi Hanti Hin j w0 m Hj Hs Hv.
  apply list_lookup_insert_Some in Hj as [(-> & <- & _) | (_ & Hj)]; eauto.
Qed.

Lemma workers_insert_sent_by (ws : list Worker) i w pc (log : list string) :
  ws !! i = Some w ->
  (has_sent net r w = 1 -> has_sent net r (at_pc w pc) = 1) ->
  (forall m, m ∈ log ->
     exists j w0, ws !! j = Some w0 /\ verdict_of net r w0 = Some m /\ has_sent net r w0 = 1) ->
  forall m, m ∈ log ->
    exists j w0, <[i := at_pc w pc]> ws !! j = Some w0 /\ verdict_of net r w0 = Some m
                 /\ has_sent net r w0 = 1.
Proof.
  intros Hi Hmono Hby m Hin. destruct (Hby m Hin) as (j & w0 & Hj & Hv & Hs).
  destruct (decide (j = i)) as [->|Hne].
  - assert (w0 = w) as -> by congruence.
    exists i, (at_pc w pc). rewrite verdict_at_pc. split; [|auto].
    apply list_lookup_insert_eq. eapply lookup_lt_Some, Hi.
  - exists j, w0. split; [|auto]. rewrite list_lookup_insert_ne; auto.
Qed.

Lemma has_sent_mono w pc :
  match w_pc w with WProbe | WSend _ => true | _ => false end = true \/
  match pc with WProbe | WSend _ => false | _ => true end = true ->
  has_sent net r w = 1 -> has_sent net r (at_pc w pc) = 1.
Proof.
  unfold has_sent. rewrite verdict_at_pc. simpl.
  intros [H|H]; destruct (w_pc w); try discriminate; try lia;
    destruct pc; try discriminate; auto.
Qed.

Lemma has_sent_at_pc w pc :
  has_sent net r (at_pc w pc) =
  match pc with
  | WProbe | WSend _ => 0
  | _ => match verdict_of net r w with Some _ => 1 | None => 0 end
  end.
Proof. reflexivity. Qed.

Lemma pending_wg_nonneg pc : 0 <= pending_wg pc.
Proof. destruct pc; simpl; lia. Qed.

(** The fields of the invariant after worker [i] moved from [w] to another
    control point. *)
Ltac worker_goals w Hi Hpc Hids Hdis Hwf Hby Hin Htot :=
  try (apply (workers_insert_ids _ _ _ _ Hids Hi));
  try (let Hnil := fresh in
       intros Hnil; exfalso; exact (workers_insert_nonempty _ _ _ _ Hi Hnil));
  try (let v := fresh in let Hv := fresh in let Hnil := fresh in
       intros v Hv; split; [apply (Htot v Hv)|];
       intros Hnil; exfalso; exact (workers_insert_nonempty _ _ _ _ Hi Hnil));
  try (rewrite (workers_insert_proxy _ _ _ _ Hi); exact Hdis);
  try (apply (workers_insert_wf _ _ _ _ Hwf Hi);
       let H := fresh in
       pose proof (Hwf _ _ Hi) as H; unfold wf_worker in *;
       rewrite ?verdict_at_pc; simpl;
       rewrite ?Hpc in H; first [exact I | congruence]);
  try (apply (workers_insert_sent_by _ _ _ _ _ Hi);
         [apply has_sent_mono; rewrite Hpc; simpl; auto | exact Hby]);
  try (apply (workers_insert_sent_in _ _ _ _ _ Hi);
         [rewrite has_sent_at_pc; unfold has_sent; rewrite Hpc;
          try match goal with H : verdict_of net r w = _ |- _ => rewrite ?H end;
          intros; first [assumption | lia]
         | exact Hin]);
  try (rewrite ?(sumZ_insert _ _ _ _ _ Hi), ?has_sent_at_pc;
       unfold holds_slot, not_done, accounted, has_sent in *; simpl;
       rewrite ?Hpc in *;
       try match goal with H : verdict_of net r w = _ |- _ => rewrite ?H end;
       first [lia | destruct (verdict_of net r w); lia]).

(** It is kept by every step of a worker; a send never meets a closed
    channel and [wg.Done()] never a counter of zero. *)
Lemma Inv_step_worker i s s' :
  Inv net r fs0 s -> step_worker net r i s = Some s' -> Inv net r fs0 s'.
Proof.
  intros HI. unfold step_worker. destruct (alive s) eqn:Hal; simpl; [|discriminate].
  destruct (st_workers s !! i) as [w|] eqn:Hi; [|discriminate].
  pose proof (sumZ_lookup_le not_done _ _ _ not_done_nonneg Hi) as Hnd.
  pose proof (pending_wg_nonneg (st_main s)) as Hpw.
  destruct HI as [Hsem Hle Hwg Hbar Hdis Hids Hcap Hwf Hlen Hby Hin Hbuf Hhan Hagg
                  Hcl Hwt Hnp Hfs Hq Htot].
  unfold step_worker_at, live_workers in *.
  destruct (w_pc w) as [|msg| |tmp| | | |] eqn:Hpc.
  - (* WProbe *)
    fold (verdict_of net r w). destruct (verdict_of net r w) as [msg|] eqn:Hv; intros [= <-];
      constructor; unfold live_workers; simpl; auto;
      worker_goals w Hi Hpc Hids Hdis Hwf Hby Hin Htot.
  - (* WSend *)
    pose proof (Hwf _ _ Hi) as Hv. unfold wf_worker in Hv. rewrite Hpc in Hv.
    destruct (results_closed s) eqn:Hc.
    { exfalso. specialize (Hcl eq_refl).
      assert (past_wait (st_main s) = true) as Hp
        by (destruct (st_main s); simpl in *; congruence).
      specialize (Hwt Hp).
      assert (not_done w = 1) by (unfold not_done; rewrite Hpc; reflexivity). lia. }
    destruct (length (results s) <? results_cap s)%nat eqn:Hlt;
      intros [= <-]; constructor; unfold live_workers; simpl; auto;
      worker_goals w Hi Hpc Hids Hdis Hwf Hby Hin Htot.
    + rewrite length_app, (sumZ_insert _ _ _ _ _ Hi), has_sent_at_pc, Hv.
      unfold has_sent at 2. rewrite Hpc. simpl. lia.
    + intros m Hm'. apply elem_of_app in Hm' as [Hm'|Hm'].
      * revert m Hm'. apply (workers_insert_sent_by _ _ _ _ _ Hi); [|exact Hby].
        apply has_sent_mono. right. reflexivity.
      * apply list_elem_of_singleton in Hm' as ->.
        exists i, (at_pc w WLoad). rewrite has_sent_at_pc, verdict_at_pc, Hv.
        split; [|auto]. apply list_lookup_insert_eq. eapply lookup_lt_Some, Hi.
    + intros j w0 m Hj Hs Hm'.
      apply list_lookup_insert_Some in Hj as [(-> & <- & _) | (_ & Hj)].
      * rewrite verdict_at_pc in Hm'. apply elem_of_app. right.
        apply list_elem_of_singleton. congruence.
      * apply elem_of_app. left. eauto.
    + apply suffix_app. exact Hbuf.
    + intros m Hm. apply elem_of_app. left. auto.
    + intros Hx. congruence.
  - (* WLoad *)
    intros [= <-]; constructor; unfold live_workers; simpl; auto;
      worker_goals w Hi Hpc Hids Hdis Hwf Hby Hin Htot.
  - (* WStore *)
    intros [= <-]; constructor; unfold live_workers; simpl; auto;
      worker_goals w Hi Hpc Hids Hdis Hwf Hby Hin Htot.
  - (* WWgDone *)
    destruct (wg s - 1 <? 0) eqn:Hneg.
    { exfalso.
      assert (not_done w = 1) by (unfold not_done; rewrite Hpc; reflexivity). lia. }
    intros [= <-]; constructor; unfold live_workers; simpl; auto;
      worker_goals w Hi Hpc Hids Hdis Hwf Hby Hin Htot.
    intros Hp. specialize (Hwt Hp).
    assert (not_done w = 1) by (unfold not_done; rewrite Hpc; reflexivity). lia.
  - (* WBarAdd *)
    intros [= <-]; constructor; unfold live_workers; simpl; auto;
      worker_goals w Hi Hpc Hids Hdis Hwf Hby Hin Htot.
  - (* WRelease *)
    destruct (0 <? sem s) eqn:Hpos; intros [= <-]; constructor; unfold live_workers; simpl; auto;
      worker_goals w Hi Hpc Hids Hdis Hwf Hby Hin Htot.
  - discriminate.
Qed.

End Invariants.

Section Reachable.

Variable net : Network.
Variable r : Run.
Variable fs0 : gmap string file.

Lemma Inv_step s s' : Inv net r fs0 s -> step net r s s' -> Inv net r fs0 s'.
Proof.
  intros HI [[|i|] Hstep]; simpl in Hstep.
  - eapply Inv_step_main; eauto.
  - eapply Inv_step_worker; eauto.
  - eapply Inv_step_aggr; eauto.
Qed.

Lemma Inv_reachable_from s0 s :
  Inv net r fs0 s0 -> reachable_from net r s0 s -> Inv net r fs0 s.
Proof.
  intros HI Hreach. induction Hreach as [|s1 s2 s3 Hstep _ IH]; [exact HI|].
  apply IH. eapply Inv_step; eauto.
Qed.

(** The invariant holds in every state of every run. *)
Lemma Inv_reachable s : reachable net r fs0 s -> Inv net r fs0 s.
Proof. apply Inv_reachable_from, Inv_init. Qed.

End Reachable.

(** ** [checkProxy] on its own *)

Section Sequential.

Variable net : Network.
Variable r : Run.

Lemma step_worker_unfold i s w pc s1 :
  alive s = true -> st_workers s !! i = Some w ->
  step_worker_at net r w s = Some (pc, s1) ->
  step_worker net r i s = Some (set_workers (<[i := at_pc w pc]> (st_workers s1)) s1).
Proof.
  intros Halive Hi Hat. unfold step_worker. rewrite Halive, Hi, Hat. reflexivity.
Qed.

(** One round of [checkProxy_from] for a worker that moves. *)
Lemma checkProxy_from_step fuel i s w pc s1 :
  alive s = true -> st_workers s !! i = Some w ->
  not_done w = 1 ->
  step_worker_at net r w s = Some (pc, s1) ->
  checkProxy_from net r (S fuel) i s
  = checkProxy_from net r fuel i (set_workers (<[i := at_pc w pc]> (st_workers s1)) s1).
Proof.
  intros Halive Hi Hnd Hat. simpl. rewrite Hi.
  rewrite (step_worker_unfold i s w pc s1 Halive Hi Hat).
  unfold not_done in Hnd. destruct (w_pc w); try reflexivity; discriminate.
Qed.

Lemma checkProxy_from_done fuel i s w :
  st_workers s !! i = Some w -> not_done w = 0 ->
  checkProxy_from net r fuel i s = Some s.
Proof.
  intros Hi Hnd. destruct fuel; simpl; [reflexivity|]. rewrite Hi.
  unfold not_done in Hnd. destruct (w_pc w); try reflexivity; discriminate.
Qed.

(** A probe without a verdict: [checkProxy] returns after [wg.Done()] alone;
    the channel and the counter are as they were. *)
Lemma checkProxy_no_verdict i s w :
  alive s = true -> st_workers s !! i = Some w -> w_pc w = WProbe ->
  verdict_of net r w = None -> 0 < wg s ->
  exists s',
    checkProxy net r i s = Some s' /\
    results s' = results s /\ sent_log s' = sent_log s /\
    validCount s' = validCount s /\ wg s' = wg s - 1 /\
    panicked s' = panicked s /\
    st_workers s' !! i = Some (at_pc w WBarAdd).
Proof.
  intros Halive Hi Hpc Hv Hwg.
  assert (i < length (st_workers s))%nat as Hlen by (eapply lookup_lt_Some, Hi).
  unfold checkProxy.
  erewrite (checkProxy_from_step 4 i s w WWgDone s Halive Hi);
    [|unfold not_done; rewrite Hpc; reflexivity
     |unfold step_worker_at; rewrite Hpc, Hv; reflexivity].
  set (s1 := set_workers (<[i := at_pc w WWgDone]> (st_workers s)) s).
  assert (st_workers s1 !! i = Some (at_pc w WWgDone)) as Hi1
    by (apply list_lookup_insert_eq; exact Hlen).
  assert ((wg s1 - 1 <? 0) = false) as Hneg by (simpl; lia).
  erewrite (checkProxy_from_step 3 i s1 (at_pc w WWgDone) WBarAdd
              (set_wg (wg s1 - 1) s1) Halive Hi1 eq_refl);
    [|unfold step_worker_at; simpl w_pc; rewrite Hneg; reflexivity].
  eexists. split.
  - apply (checkProxy_from_done 3 i _ (at_pc w WBarAdd)); [|reflexivity].
    simpl. rewrite list_insert_insert_eq. apply list_lookup_insert_eq. exact Hlen.
  - simpl. repeat split; try reflexivity.
    rewrite list_insert_insert_eq. apply list_lookup_insert_eq. exact Hlen.
Qed.

(** A valid probe: [checkProxy] sends its message once, adds one to
    [validCount] and calls [wg.Done()]. *)
Lemma checkProxy_valid i s w msg :
  alive s = true -> st_workers s !! i = Some w -> w_pc w = WProbe ->
  verdict_of net r w = Some msg ->
  results_closed s = false -> (length (results s) < results_cap s)%nat ->
  0 < wg s ->
  exists s',
    checkProxy net r i s = Some s' /\
    results s' = results s ++ [msg] /\ sent_log s' = sent_log s ++ [msg] /\
    validCount s' = wrap_int (validCount s + 1) /\ wg s' = wg s - 1 /\
    panicked s' = panicked s /\
    st_workers s' !! i = Some (at_pc w WBarAdd).
Proof.
  intros Halive Hi Hpc Hv Hopen Hroom Hwg.
  assert (i < length (st_workers s))%nat as Hlen by (eapply lookup_lt_Some, Hi).
  apply Nat.ltb_lt in Hroom.
  unfold checkProxy.
  erewrite (checkProxy_from_step 4 i s w (WSend msg) s Halive Hi);
    [|unfold not_done; rewrite Hpc; reflexivity
     |unfold step_worker_at; rewrite Hpc, Hv; reflexivity].
  set (s1 := set_workers (<[i := at_pc w (WSend msg)]> (st_workers s)) s).
  assert (st_workers s1 !! i = Some (at_pc w (WSend msg))) as Hi1
    by (apply list_lookup_insert_eq; exact Hlen).
  erewrite (checkProxy_from_step 3 i s1 (at_pc w (WSend msg)) WLoad
              (set_sent_log (sent_log s1 ++ [msg]) (set_results (results s1 ++ [msg]) s1))
              Halive Hi1 eq_refl);
    [|unfold step_worker_at; simpl; rewrite Hopen, Hroom; reflexivity].
  simpl st_workers. rewrite list_insert_insert_eq.
  set (s2 := set_workers (<[i := at_pc (at_pc w (WSend msg)) WLoad]> (st_workers s)) _).
  assert (st_workers s2 !! i = Some (at_pc w WLoad)) as Hi2
    by (apply list_lookup_insert_eq; exact Hlen).
  erewrite (checkProxy_from_step 2 i s2 (at_pc w WLoad) (WStore (validCount s)) s2
              Halive Hi2 eq_refl); [|reflexivity].
  simpl st_workers. rewrite list_insert_insert_eq.
  set (s3 := set_workers (<[i := at_pc (at_pc w WLoad) (WStore (validCount s))]> _) s2).
  assert (st_workers s3 !! i = Some (at_pc w (WStore (validCount s)))) as Hi3
    by (apply list_lookup_insert_eq; exact Hlen).
  erewrite (checkProxy_from_step 1 i s3 (at_pc w (WStore (validCount s))) WWgDone
              (set_validCount (wrap_int (validCount s + 1)) s3) Halive Hi3 eq_refl);
    [|reflexivity].
  simpl st_workers. rewrite list_insert_insert_eq.
  set (s4 := set_workers _ (set_validCount _ s3)).
  assert (st_workers s4 !! i = Some (at_pc w WWgDone)) as Hi4
    by (apply list_lookup_insert_eq; exact Hlen).
  assert ((wg s4 - 1 <? 0) = false) as Hneg by (simpl; lia).
  erewrite (checkProxy_from_step 0 i s4 (at_pc w WWgDone) WBarAdd
              (set_wg (wg s4 - 1) s4) Halive Hi4 eq_refl);
    [|unfold step_worker_at; simpl w_pc; rewrite Hneg; reflexivity].
  eexists. split; [reflexivity|].
  simpl. repeat split; try reflexivity.
  rewrite list_insert_insert_eq. apply list_lookup_insert_eq. exact Hlen.
Qed.

End Sequential.

(** ** The admission gate and the result channel *)

Lemma sumZ_le f g ws : (forall w, f w <= g w) -> sumZ f ws <= sumZ g ws.
Proof.
  intros Hfg. induction ws as [|w ws IH]; simpl; [lia | specialize (Hfg w); lia].
Qed.

Lemma sumZ_le_length f ws : (forall w, f w <= 1) -> sumZ f ws <= Z.of_nat (length ws).
Proof.
  intros Hf. induction ws as [|w ws IH]; simpl length; simpl sumZ; [lia|].
  specialize (Hf w). lia.
Qed.

Lemma pending_sem_nonneg pc : 0 <= pending_sem pc.
Proof. destruct pc; simpl; lia. Qed.

Lemma released_accounted w : released w <= accounted w.
Proof. unfold released, accounted. destruct (w_pc w); lia. Qed.

Section Gate.

Variable net : Network.
Variable r : Run.
Variable fs0 : gmap string file.

(** The workers handed out so far are a prefix of the list. *)
Lemma dispatched_le s :
  Inv net r fs0 s -> (length (st_workers s) <= length (run_proxies r))%nat.
Proof.
  intros HI. rewrite <- (inv_dispatch _ _ _ _ HI), length_app, length_map. lia.
Qed.

(** C2.  With a concurrency limit of at least 1, in every state of every run
    at most [run_threads] workers are between the acquisition of their slot
    and its release; [sem] never holds more than [run_threads] tokens, and
    they are exactly the slots of these workers and of the goroutine [main]
    is about to start; and a worker has released its slot only after its
    progress was counted and, for a valid proxy, after its message was put
    on the channel. *)
Theorem admission_gate s :
  1 <= run_threads r ->
  reachable net r fs0 s ->
  live_workers s <= run_threads r /\
  sem s <= run_threads r /\
  sem s = live_workers s + pending_sem (st_main s) /\
  sumZ released (st_workers s) <= bar s /\
  (forall i w m, st_workers s !! i = Some w -> w_pc w = WExit ->
                 verdict_of net r w = Some m -> m ∈ sent_log s).
Proof.
  intros Hthreads Hreach. pose proof (Inv_reachable _ _ _ _ Hreach) as HI.
  pose proof (inv_sem _ _ _ _ HI) as Hsem.
  pose proof (inv_sem_le _ _ _ _ HI) as Hle.
  pose proof (pending_sem_nonneg (st_main s)) as Hp.
  repeat split.
  - lia.
  - lia.
  - exact Hsem.
  - rewrite (inv_bar _ _ _ _ HI). apply sumZ_le, released_accounted.
  - intros i w m Hi Hpc Hv. apply (inv_sent_in _ _ _ _ HI i w m Hi); [|exact Hv].
    unfold has_sent. rewrite Hpc, Hv. reflexivity.
Qed.

(** C8.  The result channel has the capacity of the whole list, at most one
    message per address is ever sent, and a worker about to send always finds
    room: its send step is enabled. *)
Theorem results_never_full s :
  reachable net r fs0 s ->
  (st_main s <> MSetup -> results_cap s = length (run_proxies r)) /\
  (length (sent_log s) <= length (run_proxies r))%nat /\
  (forall i w m, st_workers s !! i = Some w -> w_pc w = WSend m ->
     (length (results s) < results_cap s)%nat /\
     (alive s = true -> exists s', step_worker net r i s = Some s')).
Proof.
  intros Hreach. pose proof (Inv_reachable _ _ _ _ Hreach) as HI.
  pose proof (dispatched_le s HI) as Hdisp.
  pose proof (inv_sent_len _ _ _ _ HI) as Hlen.
  pose proof (sumZ_pair_le_length (has_sent net r) at_send (st_workers s)
                (has_sent_at_send net r)) as Hpair.
  split; [exact (inv_cap _ _ _ _ HI)|]. split.
  - pose proof (sumZ_nonneg at_send (st_workers s) at_send_nonneg). lia.
  - intros i w m Hi Hpc.
    assert (st_main s <> MSetup) as Hmain.
    { intros Hm. pose proof (inv_dispatch _ _ _ _ HI) as Hd. rewrite Hm in Hd. simpl in Hd.
      apply (f_equal length) in Hd. rewrite length_app, length_map in Hd.
      apply lookup_lt_Some in Hi. lia. }
    pose proof (inv_cap _ _ _ _ HI Hmain) as Hcap.
    pose proof (suffix_length _ _ (inv_buf _ _ _ _ HI)) as Hbuf.
    pose proof (sumZ_lookup_le at_send _ _ _ at_send_nonneg Hi) as Hat.
    assert (at_send w = 1) as Hw by (unfold at_send; rewrite Hpc; reflexivity).
    assert (length (results s) < results_cap s)%nat as Hroom by lia.
    split; [exact Hroom|].
    intros Halive. unfold step_worker. rewrite Halive, Hi. simpl.
    unfold step_worker_at. rewrite Hpc.
    destruct (results_closed s); [eauto|].
    apply Nat.ltb_lt in Hroom. rewrite Hroom. eauto.
Qed.

End Gate.

(** ** Progress *)

Lemma sumZ_pos_lookup f ws :
  (forall w, 0 <= f w) -> 0 < sumZ f ws -> exists i w, ws !! i = Some w /\ 0 < f w.
Proof.
  intros Hf. induction ws as [|w ws IH]; simpl; [lia|]. intros Hpos.
  destruct (Z.ltb_spec 0 (f w)) as [Hw|Hw].
  - exists 0%nat, w. split; [reflexivity | exact Hw].
  - specialize (Hf w). destruct IH as (i & w' & Hi & Hw'); [lia|].
    exists (S i), w'. split; [exact Hi | exact Hw'].
Qed.

Section Progress.

Variable net : Network.
Variable r : Run.
Variable fs0 : gmap string file.

(** A worker that has not ended can always take its next step: its send
    finds room, its [wg.Done()] and its release find what they take. *)
Lemma worker_never_blocked s i w :
  Inv net r fs0 s -> alive s = true ->
  st_workers s !! i = Some w -> w_pc w <> WExit ->
  exists s', step_worker net r i s = Some s'.
Proof.
  intros HI Halive Hi Hpc. unfold step_worker, step_worker_at.
  rewrite Halive, Hi. simpl.
  destruct (w_pc w) as [|msg| |tmp| | | |] eqn:Hw; try contradiction.
  - destruct (verdict_of net r w); eauto.
  - destruct (results_closed s); [eauto|].
    assert (length (results s) < results_cap s)%nat as Hroom.
    { assert (st_main s <> MSetup) as Hmain.
      { intros Hm. pose proof (inv_dispatch _ _ _ _ HI) as Hd. rewrite Hm in Hd.
        simpl in Hd. apply (f_equal length) in Hd.
        rewrite length_app, length_map in Hd. apply lookup_lt_Some in Hi. lia. }
      pose proof (inv_cap _ _ _ _ HI Hmain) as Hcap.
      pose proof (suffix_length _ _ (inv_buf _ _ _ _ HI)) as Hbuf.
      pose proof (inv_sent_len _ _ _ _ HI) as Hlen.
      pose proof (sumZ_pair_le_length (has_sent net r) at_send (st_workers s)
                    (has_sent_at_send net r)) as Hpair.
      pose proof (sumZ_lookup_le at_send _ _ _ at_send_nonneg Hi) as Hat.
      assert (at_send w = 1) as Hone by (unfold at_send; rewrite Hw; reflexivity).
      pose proof (inv_dispatch _ _ _ _ HI) as Hd. apply (f_equal length) in Hd.
      rewrite length_app, length_map in Hd. lia. }
    apply Nat.ltb_lt in Hroom. rewrite Hroom. eauto.
  - eauto.
  - eauto.
  - destruct (wg s - 1 <? 0); eauto.
  - eauto.
  - pose proof (inv_sem _ _ _ _ HI) as Hsem. unfold live_workers in Hsem.
    pose proof (sumZ_lookup_le holds_slot _ _ _ holds_slot_nonneg Hi) as Hslot.
    pose proof (pending_sem_nonneg (st_main s)).
    assert (holds_slot w = 1) as Hone by (unfold holds_slot; rewrite Hw; reflexivity).
    assert ((0 <? sem s) = true) as -> by lia. eauto.
Qed.

(** Under a limit of at least 1 the run is never stuck: as long as [main]
    has not returned, some goroutine can move. *)
Lemma run_never_stuck s :
  1 <= run_threads r ->
  reachable net r fs0 s -> alive s = true ->
  exists t s', step_of net r t s = Some s'.
Proof.
  intros Hthreads Hreach Halive. pose proof (Inv_reachable _ _ _ _ Hreach) as HI.
  assert (forall i w, st_workers s !! i = Some w -> w_pc w <> WExit ->
            exists t s', step_of net r t s = Some s') as Hworker.
  { intros i w Hi Hpc.
    destruct (worker_never_blocked s i w HI Halive Hi Hpc) as [s' Hs'].
    exists (TWorker i), s'. exact Hs'. }
  destruct (st_main s) as [|rest|p rest|p rest| | | |] eqn:Hm.
  - exists TMain. simpl. unfold step_main. rewrite Halive, Hm. simpl.
    destruct (run_threads r <? 0); eauto.
  - exists TMain. simpl. unfold step_main. rewrite Halive, Hm. simpl.
    destruct rest; eauto.
  - destruct (sem s <? run_threads r) eqn:Hlt.
    + exists TMain. simpl. unfold step_main. rewrite Halive, Hm. simpl. rewrite Hlt. eauto.
    + pose proof (inv_sem _ _ _ _ HI) as Hsem. rewrite Hm in Hsem. simpl in Hsem.
      unfold live_workers in Hsem.
      destruct (sumZ_pos_lookup holds_slot (st_workers s) holds_slot_nonneg)
        as (i & w & Hi & Hw); [lia|].
      apply (Hworker i w Hi). intros Hpc. unfold holds_slot in Hw. rewrite Hpc in Hw. lia.
  - exists TMain. simpl. unfold step_main. rewrite Halive, Hm. simpl. eauto.
  - destruct (wg s =? 0) eqn:Hz.
    + exists TMain. simpl. unfold step_main. rewrite Halive, Hm. simpl. rewrite Hz. eauto.
    + pose proof (inv_wg _ _ _ _ HI) as Hwg. rewrite Hm in Hwg. simpl in Hwg.
      pose proof (sumZ_nonneg not_done (st_workers s) not_done_nonneg).
      destruct (sumZ_pos_lookup not_done (st_workers s) not_done_nonneg)
        as (i & w & Hi & Hw); [lia|].
      apply (Hworker i w Hi). intros Hpc. unfold not_done in Hw. rewrite Hpc in Hw. lia.
  - exists TMain. simpl. unfold step_main. rewrite Halive, Hm. simpl.
    destruct (results_closed s); eauto.
  - exists TMain. simpl. unfold step_main. rewrite Halive, Hm. simpl. eauto.
  - unfold alive in Halive. rewrite Hm in Halive. destruct (panicked s); discriminate.
Qed.

End Progress.

(** ** The counter and the channel *)

Section Counter.

Variable net : Network.
Variable r : Run.
Variable fs0 : gmap string file.

(** The channel is closed only after every address was handed to a worker
    and every worker has called [wg.Done()], which it does after its send
    and its update of [validCount]. *)
Lemma closed_after_all_done s :
  reachable net r fs0 s ->
  results_closed s = true ->
  map w_proxy (st_workers s) = run_proxies r /\
  (forall i w, st_workers s !! i = Some w -> not_done w = 0).
Proof.
  intros Hreach Hclosed. pose proof (Inv_reachable _ _ _ _ Hreach) as HI.
  pose proof (inv_closed _ _ _ _ HI Hclosed) as Hpc.
  assert (past_wait (st_main s) = true) as Hpw by (destruct (st_main s); simpl in *; congruence).
  pose proof (inv_waited _ _ _ _ HI Hpw) as Hwg.
  pose proof (inv_wg _ _ _ _ HI) as Hsum.
  pose proof (inv_dispatch _ _ _ _ HI) as Hdis.
  split.
  - destruct (st_main s); simpl in *; try discriminate; rewrite app_nil_r in Hdis; exact Hdis.
  - intros i w Hi.
    apply (sumZ_zero_lookup not_done (st_workers s) i w not_done_nonneg); [|exact Hi].
    pose proof (sumZ_nonneg not_done (st_workers s) not_done_nonneg).
    pose proof (pending_wg_nonneg (st_main s)). lia.
Qed.

(** What the aggregator has taken and what is still buffered is what was
    sent, in the order of the sends: nothing is dropped or taken twice. *)
Lemma channel_is_a_queue s :
  reachable net r fs0 s -> exists taken, sent_log s = taken ++ results s.
Proof.
  intros Hreach. pose proof (Inv_reachable _ _ _ _ Hreach) as HI.
  destruct (inv_buf _ _ _ _ HI) as [taken Htaken]. eauto.
Qed.

End Counter.

(** C1 (the code at a failing input).  Two valid proxies, both probes in
    flight: each worker reads [validCount] as 0 before the other writes it
    back, [main] then reports 1 although 2 verdicts were sent. *)
Theorem lost_update :
  reachable net_all_valid run_two ∅ state_lost_update /\
  st_main state_lost_update = MExit /\
  panicked state_lost_update = None /\
  sent_log state_lost_update = ["a:1|3ms"; "b:2|3ms"] /\
  validCount state_lost_update = 1 /\
  reported_total state_lost_update = Some 1.
Proof.
  split; [apply after_reachable|].
  vm_compute. repeat split; reflexivity.
Qed.

(** [admission_gate] at the state above, under a limit of 2. *)
Lemma admission_gate_witness :
  1 <= run_threads run_two /\
  live_workers state_lost_update <= run_threads run_two /\
  sem state_lost_update <= run_threads run_two /\
  sem state_lost_update
    = live_workers state_lost_update + pending_sem (st_main state_lost_update) /\
  sumZ released (st_workers state_lost_update) <= bar state_lost_update /\
  (forall i w m, st_workers state_lost_update !! i = Some w -> w_pc w = WExit ->
                 verdict_of net_all_valid run_two w = Some m ->
                 m ∈ sent_log state_lost_update).
Proof.
  assert (1 <= run_threads run_two) as Hthreads by (simpl; lia).
  split; [exact Hthreads|].
  apply (admission_gate net_all_valid run_two ∅ state_lost_update Hthreads).
  apply after_reachable.
Defined.

(** [results_never_full] at a state in which both workers are about to
    send. *)
Lemma results_never_full_witness :
  (st_main state_both_sending <> MSetup ->
   results_cap state_both_sending = length (run_proxies run_two)) /\
  (length (sent_log state_both_sending) <= length (run_proxies run_two))%nat /\
  (forall i w m, st_workers state_both_sending !! i = Some w -> w_pc w = WSend m ->
     (length (results state_both_sending) < results_cap state_both_sending)%nat /\
     (alive state_both_sending = true ->
      exists s', step_worker net_all_valid run_two i state_both_sending = Some s')).
Proof.
  apply (results_never_full net_all_valid run_two ∅ state_both_sending).
  apply after_reachable.
Defined.

Example state_both_sending_pcs :
  map w_pc (st_workers state_both_sending) = [WSend "a:1|3ms"; WSend "b:2|3ms"].
Proof. vm_compute. reflexivity. Qed.

(** ** The marker test *)

Lemma prefix_app_l (p s : string) : String.prefix p (p +:+ s) = true.
Proof.
  induction p as [|c p IH]; simpl; [destruct s; reflexivity|].
  destruct (ascii_dec c c); [exact IH | contradiction].
Qed.

Lemma prefix_inv (p s : string) : String.prefix p s = true -> exists t, s = p +:+ t.
Proof.
  revert s. induction p as [|c p IH]; intros s H; [exists s; reflexivity|].
  destruct s as [|d s]; simpl in H; [discriminate|].
  destruct (ascii_dec c d) as [->|]; [|discriminate].
  destruct (IH _ H) as [t ->]. exists t. reflexivity.
Qed.

Lemma Contains_nil sub : Contains "" sub = String.prefix sub "".
Proof. simpl. apply orb_false_r. Qed.

Lemma Contains_cons c s sub :
  Contains (String c s) sub = String.prefix sub (String c s) || Contains s sub.
Proof. reflexivity. Qed.

(** [Contains s sub] holds exactly when [sub] occurs in [s]. *)
Lemma Contains_spec s sub :
  Contains s sub = true <-> exists a b, s = a +:+ sub +:+ b.
Proof.
  split.
  - induction s as [|c s IH]; intros H.
    + rewrite Contains_nil in H. apply prefix_inv in H as [t ->]. exists "", t. reflexivity.
    + rewrite Contains_cons in H. apply orb_true_iff in H as [H|H].
      * apply prefix_inv in H as [t ->]. exists "", t. reflexivity.
      * destruct (IH H) as (a & b & ->). exists (String c a), b. reflexivity.
  - intros (a & b & ->). induction a as [|c a IH].
    + change ("" +:+ sub +:+ b) with (sub +:+ b).
      destruct (sub +:+ b) as [|c s] eqn:E.
      * rewrite Contains_nil. destruct sub; [reflexivity | discriminate].
      * rewrite Contains_cons, <- E, prefix_app_l. reflexivity.
    + change (String c a +:+ sub +:+ b) with (String c (a +:+ sub +:+ b)).
      rewrite Contains_cons, IH. apply orb_true_r.
Qed.

(** The verdict of a probe that got a response: valid exactly when the marker
    occurs in the bytes its one [Read] delivered, a prefix of the body of at
    most 1024 bytes. *)
Lemma verdict_of_response net i proxy protocol target valid timeout u resp :
  url_Parse net (protocol +:+ "://" +:+ proxy) = Some u ->
  client_Get net i u target timeout = GetOk resp ->
  (exists m, checkProxy_verdict net i proxy protocol target valid timeout = Some m) <->
  Contains (slice_to (Read_1024 resp) (resp_body resp)) valid = true.
Proof.
  intros Hu Hget. unfold checkProxy_verdict. rewrite Hu, Hget.
  destruct (Contains _ _); split; intros H; eauto; try discriminate.
  destruct H as [m H]. discriminate.
Qed.

Lemma Read_1024_le resp : (Read_1024 resp <= 1024)%nat.
Proof. unfold Read_1024. lia. Qed.

(** The latency recorded with a valid verdict is not negative when the
    monotonic clock did not run backwards. *)
Lemma latency_nonneg d : 0 <= d -> 0 <= Milliseconds d.
Proof. intros Hd. unfold Milliseconds, Millisecond. apply Z.quot_pos; lia. Qed.

(** C3 (the code at a failing input).  The marker is in the first 1024 bytes
    of the body, but the single [Read] delivered only the 10 bytes before it:
    the probe sends nothing, in either variant. *)
Theorem short_read_misses_marker :
  Contains (slice_to 1024 (resp_body short_read_response)) "Success" = true /\
  Read_1024 short_read_response = 10%nat /\
  checkProxy_verdict net_short_read 0 "1.2.3.4:80" "https" "https://example.com"
    "Success" (5000 * Millisecond) = None /\
  SecondVariantProbe.checkProxy_verdict net_short_read 0 "1.2.3.4:80" "https"
    "https://example.com" "Success" (5000 * Millisecond) = None.
Proof. vm_compute. repeat split; reflexivity. Qed.

(** ** The result file *)

Lemma string_app_length (s t : string) :
  String.length (s +:+ t) = (String.length s + String.length t)%nat.
Proof. induction s as [|c s IH]; simpl; [reflexivity | rewrite IH; reflexivity]. Qed.

Lemma string_app_inj_r (t p q : string) : p +:+ t = q +:+ t -> p = q.
Proof.
  revert q. induction p as [|c p IH]; intros [|d q] H; simpl in H.
  - reflexivity.
  - apply (f_equal String.length) in H. rewrite !string_app_length in H. simpl in H. lia.
  - apply (f_equal String.length) in H. rewrite !string_app_length in H. simpl in H. lia.
  - injection H as -> H. f_equal. apply IH, H.
Qed.

Lemma valid_path_inj p q : valid_path p = valid_path q -> p = q.
Proof.
  unfold valid_path. intros H. apply String.app_inj in H.
  apply string_app_inj_r in H. exact H.
Qed.

(** [saveValidProxy] appends one line to a file that is there (nothing of it
    is overwritten or cut) and creates one that is not. *)
Lemma saveValidProxy_appends fs protocol proxy f :
  fs !! valid_path protocol = Some f ->
  writable f = true ->
  saveValidProxy fs protocol proxy
  = (<[valid_path protocol := mkFile true (data f +:+ proxy +:+ String newline "")]> fs, None).
Proof. intros Hf Hw. unfold saveValidProxy. rewrite Hf, Hw. reflexivity. Qed.

Lemma saveValidProxy_creates fs protocol proxy :
  fs !! valid_path protocol = None ->
  saveValidProxy fs protocol proxy
  = (<[valid_path protocol := mkFile true (proxy +:+ String newline "")]> fs, None).
Proof. intros Hf. unfold saveValidProxy. rewrite Hf. reflexivity. Qed.

(** In a run under any other protocol than [socks5], the file named after the
    configured protocol is never written. *)
Lemma protocol_file_untouched net r fs0 s :
  run_protocol r <> "socks5" ->
  reachable net r fs0 s ->
  fs s !! valid_path (run_protocol r) = fs0 !! valid_path (run_protocol r).
Proof.
  intros Hne Hreach. apply (inv_fs _ _ _ _ (Inv_reachable _ _ _ _ Hreach)).
  intros Heq. apply Hne, valid_path_inj, Heq.
Qed.

(** C7 (the code at a failing input).  A run under [https] with one valid
    proxy: the address is appended to [results/socks5.valid.txt] and
    [results/https.valid.txt] is never created; on another schedule [main]
    returns while the message is still in the channel and nothing is saved. *)
Theorem saved_under_socks5 :
  reachable net_all_valid run_https ∅ state_https_saved /\
  st_main state_https_saved = MExit /\
  sent_log state_https_saved = ["1.2.3.4:80|3ms"] /\
  fs state_https_saved !! valid_path "https" = None /\
  fs state_https_saved !! valid_path "socks5"
    = Some (mkFile true ("1.2.3.4:80" +:+ String newline "")) /\
  reachable net_all_valid run_https ∅ state_https_lost /\
  st_main state_https_lost = MExit /\
  results state_https_lost = ["1.2.3.4:80|3ms"] /\
  fs state_https_lost = ∅.
Proof.
  split; [apply after_reachable|].
  do 4 (split; [vm_compute; reflexivity|]).
  split; [apply after_reachable|].
  repeat split; vm_compute; reflexivity.
Qed.

(** ** The loaded set *)

Lemma extractProxies_loop_elem (lines : list string) (acc : gset string) x :
  x ∈ foldl (fun (proxySet : gset string) line =>
               let line := TrimSpace line in
               if decide (line = "") then proxySet else {[ line ]} ∪ proxySet)
            acc lines
  <-> x ∈ acc \/ (x <> "" /\ x ∈ TrimSpace <$> lines).
Proof.
  revert acc. induction lines as [|l lines IH]; intros acc; simpl.
  - rewrite elem_of_nil. tauto.
  - rewrite IH, elem_of_cons. destruct (decide (TrimSpace l = "")) as [He|Hne].
    + split; [tauto|]. intros [H|[Hx [->|H]]]; tauto.
    + rewrite elem_of_union, elem_of_singleton.
      split; [|tauto]. intros [[->|H]|H]; tauto.
Qed.

(** [extractProxies] yields the set of the specification, each address
    once. *)
Lemma extractProxies_spec content :
  list_to_set (extractProxies content) = load_spec content /\
  NoDup (extractProxies content).
Proof.
  split; [|unfold extractProxies; apply NoDup_elements].
  apply set_eq. intros x. unfold extractProxies, load_spec, extractProxies_loop.
  rewrite !elem_of_list_to_set, elem_of_elements, extractProxies_loop_elem.
  rewrite list_elem_of_filter.
  split; [intros [H|H]; [exfalso; exact (not_elem_of_empty x H) | exact H] | tauto].
Qed.

(** C6 (the code at a failing input).  The same address on two lines: the
    loader of the other variant returns it twice, [readProxies] of
    [proxy_checker.go] once. *)
Theorem variant_loader_keeps_duplicates :
  SecondVariant.readProxies sources_two_lines "proxies.txt"
    = Ok ["1.2.3.4:8080"; "1.2.3.4:8080"] /\
  readProxies sources_two_lines "proxies.txt" = Ok ["1.2.3.4:8080"].
Proof. split; vm_compute; reflexivity. Qed.

(** ** Runs that dispatch nothing *)

Section Idle.

Variable net : Network.
Variable r : Run.
Variable fs0 : gmap string file.

(** Without a slot to acquire, or without an address, no worker is ever
    started. *)
Lemma no_worker s :
  run_threads r <= 0 \/ run_proxies r = [] ->
  reachable net r fs0 s ->
  st_workers s = [] /\ (forall p rest, st_main s <> MGo p rest).
Proof.
  intros Hidle. revert s.
  apply (rtc_ind_r (fun s => st_workers s = [] /\ (forall p rest, st_main s <> MGo p rest)));
    [split; [reflexivity | discriminate]|].
  intros s s' Hpre Hstep [Hws Hgo].
  pose proof (Inv_reachable net r fs0 s Hpre) as HI.
  destruct Hstep as [[|i|] Hstep]; simpl in Hstep.
  - unfold step_main in Hstep. destruct (alive s); simpl in Hstep; [|discriminate].
    pose proof (inv_sem _ _ _ _ HI) as Hsem. unfold live_workers in Hsem.
    pose proof (inv_dispatch _ _ _ _ HI) as Hdis. rewrite Hws in Hsem, Hdis.
    simpl in Hsem, Hdis.
    destruct (st_main s) as [|rest|p rest|p rest| | | |] eqn:Hm; simpl in *.
    + destruct (run_threads r <? 0); injection Hstep as <-; simpl;
        (split; [exact Hws | intros ? ?; rewrite ?Hm; discriminate]).
    + destruct rest; injection Hstep as <-; simpl;
        (split; [exact Hws | intros ? ?; discriminate]).
    + destruct (sem s <? run_threads r) eqn:Hlt; [|discriminate].
      exfalso. destruct Hidle as [Hle|Hnil]; [lia | congruence].
    + exfalso. exact (Hgo p rest eq_refl).
    + destruct (wg s =? 0); [|discriminate]. injection Hstep as <-. simpl.
      split; [exact Hws | intros ? ?; discriminate].
    + destruct (results_closed s); injection Hstep as <-; simpl;
        (split; [exact Hws | intros ? ?; rewrite ?Hm; discriminate]).
    + injection Hstep as <-. simpl. split; [exact Hws | intros ? ?; discriminate].
    + discriminate.
  - unfold step_worker in Hstep. destruct (alive s); simpl in Hstep; [|discriminate].
    rewrite Hws in Hstep. discriminate.
  - unfold step_aggr in Hstep. destruct (alive s); simpl in Hstep; [|discriminate].
    destruct (st_aggr s) as [| |msg| |]; try discriminate.
    + destruct (results s); [destruct (results_closed s); [|discriminate]|];
        injection Hstep as <-; simpl; auto.
    + destruct (handleValidProxy (fs s) "socks5" msg); injection Hstep as <-; simpl; auto.
    + injection Hstep as <-. simpl. auto.
Qed.

(** Under a negative limit the run never leaves its setup: it is at its
    first state, or the creation of [sem] has panicked. *)
Lemma negative_limit_stays_in_setup s :
  run_threads r < 0 ->
  reachable net r fs0 s ->
  st_main s = MSetup /\
  (st_aggr s = ANotStarted \/ panicked s = Some "makechan: size out of range").
Proof.
  intros Hneg. revert s.
  apply (rtc_ind_r (fun s => st_main s = MSetup /\
           (st_aggr s = ANotStarted \/ panicked s = Some "makechan: size out of range")));
    [simpl; auto|].
  intros s s' Hpre Hstep [Hm Hstate].
  destruct (no_worker s (or_introl (Z.lt_le_incl _ _ Hneg)) Hpre) as [Hws _].
  assert (alive s = true -> st_aggr s = ANotStarted) as Hagg.
  { unfold alive. destruct Hstate as [Ha|Hp]; [auto | rewrite Hp; discriminate]. }
  destruct Hstep as [[|i|] Hstep]; simpl in Hstep.
  - unfold step_main in Hstep. destruct (alive s); simpl in Hstep; [|discriminate].
    rewrite Hm in Hstep. apply Z.ltb_lt in Hneg. rewrite Hneg in Hstep.
    injection Hstep as <-. simpl. auto.
  - unfold step_worker in Hstep. destruct (alive s); simpl in Hstep; [|discriminate].
    rewrite Hws in Hstep. discriminate.
  - unfold step_aggr in Hstep. destruct (alive s); simpl in Hstep; [|discriminate].
    rewrite (Hagg eq_refl) in Hstep. discriminate.
Qed.

End Idle.

(** An empty list under a limit that is not negative: [main] runs straight
    to its end. *)
Lemma empty_list_completes net r fs0 :
  run_proxies r = [] -> 0 <= run_threads r ->
  exists s, reachable net r fs0 s /\ st_main s = MExit /\ reported_total s = Some 0.
Proof.
  intros Hnil Hge.
  assert ((run_threads r <? 0) = false) as Hlt by lia.
  assert (run_schedule net r sched_main_only (init fs0)
          = Some (set_main MExit (set_reported_total (Some 0)
                   (set_results_closed true (set_aggr ARecv (init fs0)))))) as Hrun.
  { destruct r as [config protocol threads proxies]. simpl in Hnil, Hlt. subst proxies.
    cbv [sched_main_only run_schedule step_of step_main alive init panicked st_main negb
         run_threads run_proxies set_results_cap set_aggr set_main panic set_panicked
         set_wg set_sem set_workers set_results_closed set_reported_total
         st_workers st_aggr results results_cap results_closed sem wg validCount bar fs
         reported_total reported_saved sent_log length].
    rewrite Hlt. cbv. reflexivity. }
  eexists. split; [exact (run_schedule_reachable net r _ _ _ Hrun)|].
  split; reflexivity.
Qed.




(** ** An empty source *)

Lemma readProxies_source w path :
  readProxies w path =
  match source_content w path with
  | Err e => Err e
  | Ok content => Ok (extractProxies content)
  end.
Proof.
  unfold readProxies, source_content, fetchProxiesFromURL.
  destruct (HasPrefix path "http://" || HasPrefix path "https://"); reflexivity.
Qed.

Lemma extractProxies_blank content :
  Forall (fun line => TrimSpace line = "") (Split content newline) ->
  extractProxies content = [].
Proof.
  intros Hblank. unfold extractProxies. apply elements_empty_iff.
  intros x. unfold extractProxies_loop. rewrite extractProxies_loop_elem.
  split; [|intros H; exfalso; exact (not_elem_of_empty x H)].
  intros [H|[Hne Hin]]; [exact H|]. exfalso.
  apply list_elem_of_fmap in Hin as (line & -> & Hline).
  rewrite Forall_forall in Hblank. exact (Hne (Hblank line Hline)).
Qed.

(** Over an empty list [main] never waits: it can always take its next
    step. *)
Lemma empty_list_main_moves net r fs0 s :
  run_proxies r = [] ->
  reachable net r fs0 s -> alive s = true ->
  exists s', step_main r s = Some s'.
Proof.
  intros Hnil Hreach Halive. pose proof (Inv_reachable _ _ _ _ Hreach) as HI.
  destruct (no_worker net r fs0 s (or_intror Hnil) Hreach) as [Hws Hgo].
  pose proof (inv_dispatch _ _ _ _ HI) as Hdis. rewrite Hws, Hnil in Hdis. simpl in Hdis.
  pose proof (inv_wg _ _ _ _ HI) as Hwg. rewrite Hws in Hwg. simpl in Hwg.
  unfold step_main. rewrite Halive. simpl.
  destruct (st_main s) as [|rest|p rest|p rest| | | |] eqn:Hm; simpl in *;
    try discriminate.
  - destruct (run_threads r <? 0); eauto.
  - destruct rest; eauto.
  - assert ((wg s =? 0) = true) as -> by lia. eauto.
  - destruct (results_closed s); eauto.
  - eauto.
  - unfold alive in Halive. rewrite Hm in Halive. destruct (panicked s); discriminate.
Qed.

(** C9.  A source without a non-empty line loads without error as the empty
    list; the run over it starts no worker, keeps [validCount] at zero, does
    not panic, reports nothing but zero, never makes [main] wait, and does
    come to its end with a report of zero valid proxies. *)
Theorem empty_source_reports_zero content :
  Forall (fun line => TrimSpace line = "") (Split content newline) ->
  extractProxies content = [] /\
  (forall w path, source_content w path = Ok content -> readProxies w path = Ok []) /\
  (forall net r fs0,
     run_proxies r = extractProxies content -> 0 <= run_threads r ->
     (forall s, reachable net r fs0 s ->
        st_workers s = [] /\ validCount s = 0 /\ panicked s = None /\
        (forall v, reported_total s = Some v -> v = 0) /\
        (alive s = true -> exists s', step_main r s = Some s')) /\
     (exists s, reachable net r fs0 s /\ st_main s = MExit /\ reported_total s = Some 0)).
Proof.
  intros Hblank. pose proof (extractProxies_blank content Hblank) as Hempty.
  split; [exact Hempty|]. split.
  - intros w path Hsrc. rewrite readProxies_source, Hsrc, Hempty. reflexivity.
  - intros net r fs0 Hr Hge. rewrite Hempty in Hr. split.
    + intros s Hreach. pose proof (Inv_reachable _ _ _ _ Hreach) as HI.
      destruct (no_worker net r fs0 s (or_intror Hr) Hreach) as [Hws _].
      split; [exact Hws|]. split; [exact (inv_quiet _ _ _ _ HI Hws)|].
      split; [exact (inv_nopanic _ _ _ _ HI Hge)|].
      split; [intros v Hv; apply (inv_total _ _ _ _ HI v Hv); exact Hws|].
      apply (empty_list_main_moves net r fs0 s Hr Hreach).
    + apply empty_list_completes; assumption.
Qed.

(** [empty_source_reports_zero] at a source of three lines of white
    space. *)
Lemma empty_source_reports_zero_witness :
  Forall (fun line => TrimSpace line = "") (Split blank_source newline) /\
  extractProxies blank_source = [].
Proof.
  assert (Split blank_source newline = [""; " "; String (byte_of 9) ""; ""]) as Hlines
    by (vm_compute; reflexivity).
  assert (Forall (fun line => TrimSpace line = "") (Split blank_source newline)) as Hblank
    by (rewrite Hlines; repeat constructor).
  split; [exact Hblank|].
  exact (proj1 (empty_source_reports_zero blank_source Hblank)).
Defined.

(** ** The thread count *)

(** The digits [Sprintf_d] writes. *)
Lemma scanNumber_digits d :
  scanNumber (NilEmpty.string_of_uint d) = (NilEmpty.string_of_uint d, "").
Proof. induction d; simpl; [reflexivity | rewrite IHd; reflexivity ..]. Qed.

Lemma digits_value_revapp d d' :
  digits_value (DecimalPos.Unsigned.of_lu d') (NilEmpty.string_of_uint d)
  = DecimalPos.Unsigned.of_lu (Decimal.revapp d d').
Proof.
  revert d'. induction d; intros d'; simpl; [reflexivity | ..];
    rewrite <- IHd; f_equal; simpl DecimalPos.Unsigned.of_lu; unfold code; simpl; lia.
Qed.

Lemma digits_value_of_uint d :
  digits_value 0 (NilEmpty.string_of_uint d) = Pos.of_uint d.
Proof.
  rewrite DecimalPos.Unsigned.of_uint_alt. exact (digits_value_revapp d Decimal.Nil).
Qed.

(** [SkipSpace] leaves a text that starts with an ASCII byte other than
    white space as it is. *)
Lemma SkipSpace_ascii c s :
  N.ltb (code c) 128 = true -> isSpace1 c = false ->
  SkipSpace (String c s) = Some (String c s).
Proof.
  intros Hlt Hsp. simpl. rewrite Hsp.
  assert (byte_eqb c 10 = false) as ->.
  { unfold isSpace1, byte_eqb in *.
    destruct (N.eqb_spec (code c) 10) as [E|]; [|reflexivity].
    rewrite E in Hsp. discriminate. }
  assert (forall n, (128 <= n)%N -> byte_eqb c n = false) as Hhigh.
  { intros n Hn. unfold byte_eqb. apply N.ltb_lt in Hlt. apply N.eqb_neq. lia. }
  destruct s as [|c2 [|c3 s]]; try reflexivity.
  - unfold isSpace2. rewrite (Hhigh 194%N) by lia. reflexivity.
  - unfold isSpace2, isSpace3. rewrite (Hhigh 194%N), (Hhigh 225%N), (Hhigh 226%N),
      (Hhigh 227%N) by lia. reflexivity.
Qed.






Example thread_count_examples :
  parseThreads default_config "25" = 25 /\
  parseThreads default_config " 7 " = 7 /\
  parseThreads default_config "" = 10 /\
  parseThreads default_config "many" = 10 /\
  parseThreads default_config "0" = 0 /\
  parseThreads default_config "-3" = -3.
Proof. repeat split; vm_compute; reflexivity. Qed.

(** ** A probe that fails *)

Lemma probe_fails_verdict net r w : probe_fails net r w -> verdict_of net r w = None.
Proof.
  unfold probe_fails, verdict_of, checkProxy_verdict.
  intros [-> | (u & e & -> & ->)]; reflexivity.
Qed.

Section FailedProbe.

Variable net : Network.
Variable r : Run.
Variable fs0 : gmap string file.

(** A worker whose probe yields no verdict is never at the send or at the
    update of the counter. *)
Lemma silent_worker_pc s i w :
  Inv net r fs0 s -> st_workers s !! i = Some w -> verdict_of net r w = None ->
  w_pc w = WProbe \/ w_pc w = WWgDone \/ w_pc w = WBarAdd \/ w_pc w = WRelease
  \/ w_pc w = WExit.
Proof.
  intros HI Hi Hv. pose proof (inv_wf _ _ _ _ HI i w Hi) as Hwf.
  unfold wf_worker in Hwf. destruct (w_pc w); auto; congruence.
Qed.

Lemma silent_worker_step s s' i w :
  Inv net r fs0 s -> st_workers s !! i = Some w -> verdict_of net r w = None ->
  step_worker net r i s = Some s' ->
  results s' = results s /\ sent_log s' = sent_log s /\
  validCount s' = validCount s /\ st_main s' = st_main s.
Proof.
  intros HI Hi Hv. unfold step_worker, step_worker_at.
  destruct (alive s); simpl; [|discriminate]. rewrite Hi.
  destruct (silent_worker_pc s i w HI Hi Hv) as [H|[H|[H|[H|H]]]]; rewrite H.
  - rewrite Hv. intros [= <-]. auto.
  - destruct (wg s - 1 <? 0); intros [= <-]; auto.
  - intros [= <-]. auto.
  - destruct (0 <? sem s); intros [= <-]; auto.
  - discriminate.
Qed.

End FailedProbe.

(** In the scenario the malformed address never passes [url.Parse]. *)
Lemma scenario_bad_addr get i target valid timeout :
  checkProxy_verdict (scenario_net get) i "bad::addr" "https" target valid timeout = None.
Proof. reflexivity. Qed.

Lemma scenario_proxies : run_proxies scenario_run = ["10.0.0.1:80"; "bad::addr"].
Proof. vm_compute. reflexivity. Qed.

Lemma scenario_worker get fs0 s i w :
  Inv (scenario_net get) scenario_run fs0 s ->
  st_workers s !! i = Some w ->
  w_proxy w = "10.0.0.1:80" \/ w_proxy w = "bad::addr".
Proof.
  intros HI Hi. pose proof (inv_dispatch _ _ _ _ HI) as Hdis.
  rewrite scenario_proxies in Hdis.
  assert (w_proxy w ∈ map w_proxy (st_workers s)) as Hin.
  { apply list_elem_of_fmap. exists w. split; [reflexivity|].
    eapply list_elem_of_lookup_2, Hi. }
  assert (w_proxy w ∈ ["10.0.0.1:80"; "bad::addr"]) as Hin'.
  { rewrite <- Hdis. apply elem_of_app. left. exact Hin. }
  apply elem_of_cons in Hin' as [->|Hin']; [auto|].
  apply elem_of_cons in Hin' as [->|Hin']; [auto|].
  apply elem_of_nil in Hin'. contradiction.
Qed.

(** C4.  A probe that fails before it has a response (the proxy URL does not
    parse, or the request returns any transport error) yields no verdict;
    the run does not panic; nothing on the channel comes from that probe;
    no step of its goroutine changes the channel, [validCount] or where
    [main] is; and its goroutine is never stuck before its end.  In the
    scenario of the two addresses, whatever the network does, the run does
    not panic, [bad::addr] yields no verdict, every message on the channel
    is the verdict of [10.0.0.1:80] alone, and when [main] returns the
    channel has carried exactly that verdict if there is one. *)
Theorem failed_probe_is_contained :
  (forall net r fs0 s i w,
     0 <= run_threads r ->
     reachable net r fs0 s ->
     st_workers s !! i = Some w ->
     probe_fails net r w ->
     verdict_of net r w = None /\
     panicked s = None /\
     (forall m, m ∈ sent_log s ->
        exists j w', j <> i /\ st_workers s !! j = Some w' /\ verdict_of net r w' = Some m) /\
     (forall s', step_worker net r i s = Some s' ->
        results s' = results s /\ sent_log s' = sent_log s /\
        validCount s' = validCount s /\ st_main s' = st_main s /\ panicked s' = None) /\
     (alive s = true -> w_pc w <> WExit -> exists s', step_worker net r i s = Some s')) /\
  (forall get fs0 s,
     reachable (scenario_net get) scenario_run fs0 s ->
     panicked s = None /\
     (forall i w, st_workers s !! i = Some w -> w_proxy w = "bad::addr" ->
        verdict_of (scenario_net get) scenario_run w = None) /\
     (forall m, m ∈ sent_log s ->
        exists i, checkProxy_verdict (scenario_net get) i "10.0.0.1:80" "https"
                    "https://example.com" "OK" (5000 * Millisecond) = Some m) /\
     (st_main s = MExit ->
        forall i w m, st_workers s !! i = Some w -> w_proxy w = "10.0.0.1:80" ->
          verdict_of (scenario_net get) scenario_run w = Some m ->
          sent_log s = [m])).
Proof.
  split.
  - intros net r fs0 s i w Hge Hreach Hi Hfail.
    pose proof (Inv_reachable _ _ _ _ Hreach) as HI.
    pose proof (probe_fails_verdict net r w Hfail) as Hv.
    split; [exact Hv|]. split; [exact (inv_nopanic _ _ _ _ HI Hge)|].
    split; [|split].
    + intros m Hm. destruct (inv_sent_by _ _ _ _ HI m Hm) as (j & w' & Hj & Hv' & _).
      exists j, w'. split; [|auto]. intros ->. congruence.
    + intros s' Hstep.
      destruct (silent_worker_step net r fs0 s s' i w HI Hi Hv Hstep) as (H1 & H2 & H3 & H4).
      repeat (split; [assumption|]).
      assert (Inv net r fs0 s') as HI' by (eapply Inv_step_worker; eauto).
      exact (inv_nopanic _ _ _ _ HI' Hge).
    + intros Halive Hpc. exact (worker_never_blocked net r fs0 s i w HI Halive Hi Hpc).
  - intros get fs0 s Hreach. pose proof (Inv_reachable _ _ _ _ Hreach) as HI.
    assert (forall i w, st_workers s !! i = Some w -> w_proxy w = "bad::addr" ->
              verdict_of (scenario_net get) scenario_run w = None) as Hbad.
    { intros i w Hi Hp. unfold verdict_of. rewrite Hp. apply scenario_bad_addr. }
    split; [apply (inv_nopanic _ _ _ _ HI); simpl; lia|].
    split; [exact Hbad|]. split.
    + intros m Hm. destruct (inv_sent_by _ _ _ _ HI m Hm) as (j & w & Hj & Hv & _).
      destruct (scenario_worker get fs0 s j w HI Hj) as [Hp|Hp].
      * exists (w_id w). unfold verdict_of in Hv. rewrite Hp in Hv. exact Hv.
      * rewrite (Hbad j w Hj Hp) in Hv. discriminate.
    + intros Hexit i w m Hi Hp Hv.
      pose proof (inv_dispatch _ _ _ _ HI) as Hdis. rewrite Hexit, scenario_proxies in Hdis.
      simpl in Hdis. rewrite app_nil_r in Hdis.
      pose proof (inv_waited _ _ _ _ HI) as Hwait. rewrite Hexit in Hwait.
      specialize (Hwait eq_refl).
      pose proof (inv_wg _ _ _ _ HI) as Hwg. rewrite Hexit in Hwg. simpl in Hwg.
      pose proof (inv_sent_len _ _ _ _ HI) as Hlen.
      destruct (st_workers s) as [|wa [|wb [|wc ws]]] eqn:Hws; try discriminate.
      injection Hdis as Hpa Hpb.
      assert (not_done wa = 0 /\ not_done wb = 0) as [Hda Hdb].
      { pose proof (not_done_nonneg wa). pose proof (not_done_nonneg wb).
        simpl in Hwg. lia. }
      assert (verdict_of (scenario_net get) scenario_run wb = None) as Hvb.
      { apply (Hbad 1%nat wb); [reflexivity | exact Hpb]. }
      assert (w = wa) as ->.
      { destruct i as [|[|i]]; simpl in Hi; [congruence| |discriminate].
        injection Hi as <-. congruence. }
      assert (has_sent (scenario_net get) scenario_run wa = 1) as Hsa.
      { unfold has_sent, not_done in *. rewrite Hv. destruct (w_pc wa); lia. }
      assert (has_sent (scenario_net get) scenario_run wb = 0) as Hsb.
      { unfold has_sent. rewrite Hvb. destruct (w_pc wb); reflexivity. }
      assert (m ∈ sent_log s) as Hin.
      { apply (inv_sent_in _ _ _ _ HI 0%nat wa m);
          [rewrite Hws; reflexivity | exact Hsa | exact Hv]. }
      simpl in Hlen. rewrite Hsa, Hsb in Hlen.
      destruct (sent_log s) as [|m0 [|m1 log]]; simpl in Hlen; try lia.
      apply list_elem_of_singleton in Hin as ->. reflexivity.
Qed.

(** [failed_probe_is_contained] at the goroutine of [bad::addr] in the
    scenario, before its probe. *)
Lemma failed_probe_is_contained_witness :
  0 <= run_threads scenario_run /\
  st_workers state_scenario_dispatched !! 1%nat = Some worker_bad_addr /\
  probe_fails net_refusing scenario_run worker_bad_addr /\
  verdict_of net_refusing scenario_run worker_bad_addr = None /\
  panicked state_scenario_dispatched = None.
Proof.
  assert (0 <= run_threads scenario_run) as Hge by (simpl; lia).
  assert (st_workers state_scenario_dispatched !! 1%nat = Some worker_bad_addr) as Hi
    by (vm_compute; reflexivity).
  assert (probe_fails net_refusing scenario_run worker_bad_addr) as Hfail
    by (left; vm_compute; reflexivity).
  destruct (proj1 failed_probe_is_contained net_refusing scenario_run ∅
              state_scenario_dispatched 1%nat worker_bad_addr Hge
              (after_reachable _ _ _ _) Hi Hfail) as (Hv & Hp & _).
  exact (conj Hge (conj Hi (conj Hfail (conj Hv Hp)))).
Defined.
(** * Further properties of the code *)

(** ** White space *)

Lemma trimLeftSpace_runes s : trimLeftSpace s = trimRunes isSpace1 isSpace2 isSpace3 s.
Proof. reflexivity. Qed.

Lemma trimLeftSpace_rev_runes s :
  trimLeftSpace_rev s
  = trimRunes isSpace1 (fun a b => isSpace2 b a) (fun a b c => isSpace3 c b a) s.
Proof. reflexivity. Qed.

Lemma append_cons c (s t : string) : String c s +:+ t = String c (s +:+ t).
Proof. reflexivity. Qed.

Lemma append_nil_r (s : string) : s +:+ "" = s.
Proof. induction s as [|c s IH]; [reflexivity | rewrite append_cons, IH; reflexivity]. Qed.

Lemma append_assoc (s t u : string) : (s +:+ t) +:+ u = s +:+ t +:+ u.
Proof.
  induction s as [|c s IH]; [reflexivity|]. rewrite !append_cons, IH. reflexivity.
Qed.

Section TrimRunesFacts.

Variable p1 : ascii -> bool.
Variable p2 : ascii -> ascii -> bool.
Variable p3 : ascii -> ascii -> ascii -> bool.

(** Induction on the length of a string. *)
Lemma string_length_ind (P : string -> Prop) :
  (forall s, (forall t, (String.length t < String.length s)%nat -> P t) -> P s) ->
  forall s, P s.
Proof.
  intros Hstep s. remember (String.length s) as n eqn:Hn.
  revert s Hn. induction n as [n IH] using lt_wf_ind. intros s ->.
  apply Hstep. intros t Ht. exact (IH _ Ht t eq_refl).
Qed.

(** What the scan returns is the end of its argument. *)
Lemma trimRunes_suffix s : exists p, s = p +:+ trimRunes p1 p2 p3 s.
Proof.
  induction s as [s IH] using string_length_ind.
  destruct s as [|c1 s1]; [exists ""; reflexivity|]. simpl trimRunes.
  destruct (p1 c1).
  { destruct (IH s1) as [p Hp]; [simpl; lia|].
    exists (String c1 p). rewrite append_cons, <- Hp. reflexivity. }
  destruct s1 as [|c2 s2]; [exists ""; reflexivity|].
  destruct (p2 c1 c2).
  { destruct (IH s2) as [p Hp]; [simpl; lia|].
    exists (String c1 (String c2 p)). rewrite !append_cons, <- Hp. reflexivity. }
  destruct s2 as [|c3 s3]; [exists ""; reflexivity|].
  destruct (p3 c1 c2 c3); [|exists ""; reflexivity].
  destruct (IH s3) as [p Hp]; [simpl; lia|].
  exists (String c1 (String c2 (String c3 p))). rewrite !append_cons, <- Hp. reflexivity.
Qed.

(** It does not begin with a rune the scan drops. *)
Lemma trimRunes_starts s : startsRune p1 p2 p3 (trimRunes p1 p2 p3 s) = false.
Proof.
  induction s as [s IH] using string_length_ind.
  destruct s as [|c1 s1]; [reflexivity|]. simpl trimRunes.
  destruct (p1 c1) eqn:H1; [apply IH; simpl; lia|].
  destruct s1 as [|c2 s2]; [simpl; rewrite H1; reflexivity|].
  destruct (p2 c1 c2) eqn:H2; [apply IH; simpl; lia|].
  destruct s2 as [|c3 s3]; [simpl; rewrite H1, H2; reflexivity|].
  destruct (p3 c1 c2 c3) eqn:H3; [apply IH; simpl; lia|].
  simpl. rewrite H1, H2, H3. reflexivity.
Qed.

(** A string that begins with no such rune is returned as it is. *)
Lemma trimRunes_fix s : startsRune p1 p2 p3 s = false -> trimRunes p1 p2 p3 s = s.
Proof.
  destruct s as [|c1 [|c2 [|c3 s3]]]; simpl; intros H; try reflexivity.
  - apply orb_false_elim in H as [-> _]. reflexivity.
  - apply orb_false_elim in H as [-> H]. apply orb_false_elim in H as [-> _]. reflexivity.
  - apply orb_false_elim in H as [-> H]. apply orb_false_elim in H as [-> ->]. reflexivity.
Qed.

Lemma trimRunes_idem s : trimRunes p1 p2 p3 (trimRunes p1 p2 p3 s) = trimRunes p1 p2 p3 s.
Proof. apply trimRunes_fix, trimRunes_starts. Qed.

(** The test looks at the first three bytes only. *)
Lemma startsRune_prefix u v : startsRune p1 p2 p3 u = true -> startsRune p1 p2 p3 (u +:+ v) = true.
Proof.
  destruct u as [|c1 [|c2 [|c3 u3]]]; simpl; intros H; try discriminate.
  - rewrite orb_false_r in H. rewrite H. reflexivity.
  - rewrite orb_false_r in H. apply orb_true_iff in H as [-> | H]; [reflexivity|].
    rewrite H. destruct v; simpl; rewrite ?orb_true_r; reflexivity.
  - exact H.
Qed.

(** A string of one-byte runes only is dropped whole. *)
Lemma trimRunes_all s :
  Forall (fun c => p1 c = true) (bytes s) -> trimRunes p1 p2 p3 s = "".
Proof.
  induction s as [|c s IH]; [reflexivity|]. unfold bytes. simpl.
  intros H. apply Forall_cons in H as [-> H]. apply IH, H.
Qed.

End TrimRunesFacts.

(** *** Reversal *)

Lemma rev_app_append s t : String.rev_app s t = String.rev s +:+ t.
Proof.
  revert t. induction s as [|c s IH]; intros t; [reflexivity|].
  unfold String.rev. simpl. rewrite (IH (String c t)), (IH (String c "")).
  rewrite append_assoc. reflexivity.
Qed.

Lemma string_rev_cons c s : String.rev (String c s) = String.rev s +:+ String c "".
Proof. unfold String.rev at 1. simpl. apply rev_app_append. Qed.

Lemma string_rev_append s t : String.rev (s +:+ t) = String.rev t +:+ String.rev s.
Proof.
  induction s as [|c s IH].
  - change (String.rev "") with "". rewrite append_nil_r. reflexivity.
  - rewrite append_cons, !string_rev_cons, IH, append_assoc. reflexivity.
Qed.

Lemma string_rev_involutive s : String.rev (String.rev s) = s.
Proof.
  induction s as [|c s IH]; [reflexivity|].
  rewrite string_rev_cons, string_rev_append, IH. reflexivity.
Qed.

(** *** [TrimSpace] *)

(** What [trimRightSpace] returns is the beginning of its argument. *)
Lemma trimRightSpace_prefix s : exists q, s = trimRightSpace s +:+ q.
Proof.
  unfold trimRightSpace. rewrite trimLeftSpace_rev_runes.
  destruct (trimRunes_suffix isSpace1 (fun a b => isSpace2 b a)
              (fun a b c => isSpace3 c b a) (String.rev s)) as [p Hp].
  exists (String.rev p). rewrite <- string_rev_append, <- Hp, string_rev_involutive. reflexivity.
Qed.

Lemma trimRightSpace_idem s : trimRightSpace (trimRightSpace s) = trimRightSpace s.
Proof.
  unfold trimRightSpace. rewrite string_rev_involutive, !trimLeftSpace_rev_runes, trimRunes_idem.
  reflexivity.
Qed.

(** [TrimSpace] returns a part of its argument. *)
Lemma TrimSpace_within s : exists p q, s = p +:+ TrimSpace s +:+ q.
Proof.
  unfold TrimSpace.
  destruct (trimRunes_suffix isSpace1 isSpace2 isSpace3 s) as [p Hp].
  destruct (trimRightSpace_prefix (trimLeftSpace s)) as [q Hq].
  exists p, q. rewrite <- Hq. exact Hp.
Qed.

(** A trimmed string is left as it is when trimmed again. *)
Lemma TrimSpace_idem s : TrimSpace (TrimSpace s) = TrimSpace s.
Proof.
  unfold TrimSpace.
  assert (trimLeftSpace (trimRightSpace (trimLeftSpace s)) = trimRightSpace (trimLeftSpace s))
    as ->; [|apply trimRightSpace_idem].
  rewrite (trimLeftSpace_runes (trimRightSpace _)). apply trimRunes_fix.
  destruct (startsRune isSpace1 isSpace2 isSpace3 (trimRightSpace (trimLeftSpace s))) eqn:Hst;
    [|reflexivity].
  destruct (trimRightSpace_prefix (trimLeftSpace s)) as [q Hq].
  pose proof (startsRune_prefix isSpace1 isSpace2 isSpace3 _ q Hst) as Hfull.
  rewrite <- Hq, trimLeftSpace_runes, trimRunes_starts in Hfull. discriminate.
Qed.

(** A line of blanks, tabs, carriage returns and the like trims to the
    empty string. *)
Lemma TrimSpace_blank s :
  Forall (fun c => isSpace1 c = true) (bytes s) -> TrimSpace s = "".
Proof.
  intros H. unfold TrimSpace.
  rewrite trimLeftSpace_runes, (trimRunes_all _ _ _ s H). reflexivity.
Qed.

Lemma bytes_app s t : bytes (s +:+ t) = bytes s ++ bytes t.
Proof. unfold bytes. induction s as [|c s IH]; simpl; [reflexivity | rewrite IH; reflexivity]. Qed.

Lemma TrimSpace_bytes s c : c ∈ bytes (TrimSpace s) -> c ∈ bytes s.
Proof.
  intros Hc. destruct (TrimSpace_within s) as (p & q & Hs).
  rewrite Hs, !bytes_app, !elem_of_app. tauto.
Qed.
(** ** The prompts *)

(** X1.  [promptInput] gives the default for a reply that trims to nothing,
    in particular for a reply of blanks and tabs only; for any other reply it
    gives the reply without the white space around it, which is not empty
    and has no white space left to trim. *)
Theorem promptInput_reply line defaultValue :
  (Forall (fun c => isSpace1 c = true) (bytes line) ->
     promptInput line defaultValue = defaultValue) /\
  ((TrimSpace line = "" /\ promptInput line defaultValue = defaultValue) \/
   (TrimSpace line <> "" /\
    promptInput line defaultValue = TrimSpace line /\
    promptInput line defaultValue <> "" /\
    TrimSpace (promptInput line defaultValue) = promptInput line defaultValue)).
Proof.
  unfold promptInput. split.
  - intros Hblank. rewrite (TrimSpace_blank line Hblank).
    destruct (decide ("" = "")) as [_|Hne]; [reflexivity | contradiction].
  - destruct (decide (TrimSpace line = "")) as [He|Hne]; [left; auto|].
    right. repeat split; auto using TrimSpace_idem.
Qed.



(** ** The early returns of [main] *)


(** ** The loaded list *)

Lemma Split_no_sep s sep piece : piece ∈ Split s sep -> sep ∉ bytes piece.
Proof.
  revert piece. induction s as [|c s IH]; intros piece; simpl.
  - rewrite list_elem_of_singleton. intros ->. apply not_elem_of_nil.
  - destruct (Ascii.eqb_spec c sep) as [->|Hne].
    + rewrite elem_of_cons. intros [->|H]; [apply not_elem_of_nil | apply IH, H].
    + destruct (Split s sep) as [|l ls] eqn:Hs.
      * rewrite list_elem_of_singleton. intros ->. unfold bytes. simpl.
        rewrite list_elem_of_singleton. congruence.
      * rewrite elem_of_cons. intros [->|H].
        -- unfold bytes. simpl. rewrite not_elem_of_cons. split; [congruence|].
           apply IH. left.
        -- apply IH. right. exact H.
Qed.

Lemma extractProxies_elem content p :
  p ∈ extractProxies content <->
  p <> "" /\ exists line, line ∈ Split content newline /\ p = TrimSpace line.
Proof.
  unfold extractProxies, extractProxies_loop.
  rewrite elem_of_elements, extractProxies_loop_elem, list_elem_of_fmap.
  split.
  - intros [H|[Hne (line & -> & Hline)]]; [exfalso; exact (not_elem_of_empty p H)|].
    split; [exact Hne | exists line; auto].
  - intros [Hne (line & Hline & ->)]. right. split; [exact Hne | exists line; auto].
Qed.

(** X4.  [extractProxies] returns the non-empty trimmed lines of its input,
    each of them once however often it occurs, and so never more entries
    than the input has lines. *)
Theorem extractProxies_members content :
  NoDup (extractProxies content) /\
  (forall p, p ∈ extractProxies content <->
     p <> "" /\ exists line, line ∈ Split content newline /\ p = TrimSpace line) /\
  (length (extractProxies content) <= length (Split content newline))%nat.
Proof.
  assert (NoDup (extractProxies content)) as Hnd
    by (unfold extractProxies; apply NoDup_elements).
  split; [exact Hnd|]. split; [apply extractProxies_elem|].
  rewrite <- (length_fmap TrimSpace (Split content newline)).
  apply submseteq_length, NoDup_submseteq; [exact Hnd|].
  intros p Hp. apply extractProxies_elem in Hp as [_ (line & Hline & ->)].
  apply list_elem_of_fmap. exists line. auto.
Qed.

(** X5.  Every address [extractProxies] returns can be used as it stands: it
    is not empty, has no white space around it and holds no line break. *)
Theorem extractProxies_clean content p :
  p ∈ extractProxies content ->
  p <> "" /\ TrimSpace p = p /\ newline ∉ bytes p.
Proof.
  intros Hp. apply extractProxies_elem in Hp as [Hne (line & Hline & ->)].
  split; [exact Hne|]. split; [apply TrimSpace_idem|].
  intros Hin. apply TrimSpace_bytes in Hin.
  exact (Split_no_sep content newline line Hline Hin).
Qed.

(** [extractProxies_clean] at the address of a file of two equal lines. *)
Lemma extractProxies_clean_witness :
  "1.2.3.4:8080" ∈ extractProxies two_lines /\
  TrimSpace "1.2.3.4:8080" = "1.2.3.4:8080".
Proof.
  assert ("1.2.3.4:8080" ∈ extractProxies two_lines) as Hin
    by (vm_compute; apply list_elem_of_here).
  split; [exact Hin|].
  exact (proj1 (proj2 (extractProxies_clean two_lines "1.2.3.4:8080" Hin))).
Defined.

(** *** Lines *)

Lemma Split_app a b sep :
  Split (a +:+ String sep b) sep = Split a sep ++ Split b sep.
Proof.
  induction a as [|c a IH].
  - change ("" +:+ String sep b) with (String sep b). simpl.
    rewrite Ascii.eqb_refl. reflexivity.
  - rewrite append_cons. simpl. rewrite IH.
    destruct (Ascii.eqb c sep); [reflexivity|].
    destruct (Split a sep) as [|l ls] eqn:Ha; [|reflexivity].
    exfalso. exact (Split_nonempty _ _ Ha).
Qed.

Lemma Split_none p sep : sep ∉ bytes p -> Split p sep = [p].
Proof.
  induction p as [|c p IH]; [reflexivity|]. unfold bytes. simpl.
  rewrite not_elem_of_cons. intros [Hne Hp].
  destruct (Ascii.eqb_spec c sep) as [->|_]; [contradiction|].
  rewrite (IH Hp). reflexivity.
Qed.

Lemma Split_lines_of ps :
  Forall (fun p => newline ∉ bytes p) ps ->
  Split (lines_of ps) newline = ps ++ [""].
Proof.
  induction ps as [|p ps IH]; intros H; [reflexivity|].
  apply Forall_cons in H as [Hp Hps]. simpl lines_of.
  rewrite Split_app, (Split_none p newline Hp), (IH Hps). reflexivity.
Qed.

(** X6.  Loading a text made of two texts, one after the other on separate
    lines, gives the addresses of the one and of the other: the lines are
    read independently of each other, and their order and repetitions do not
    matter. *)
Theorem extractProxies_concat a b p :
  p ∈ extractProxies (a +:+ String newline b) <->
  p ∈ extractProxies a \/ p ∈ extractProxies b.
Proof.
  rewrite !extractProxies_elem, Split_app. split.
  - intros [Hne (line & Hline & ->)]. apply elem_of_app in Hline as [H|H];
      [left | right]; (split; [exact Hne | exists line; auto]).
  - intros [[Hne (line & Hline & ->)]|[Hne (line & Hline & ->)]];
      (split; [exact Hne | exists line; split; [|reflexivity]]);
      apply elem_of_app; auto.
Qed.

Lemma extractProxies_lines_of ps p :
  Forall (fun p => p <> "" /\ TrimSpace p = p /\ newline ∉ bytes p) ps ->
  p ∈ extractProxies (lines_of ps) <-> p ∈ ps.
Proof.
  intros Hclean. rewrite extractProxies_elem, Split_lines_of.
  2:{ eapply Forall_impl; [exact Hclean|]. intros q (_ & _ & Hq). exact Hq. }
  rewrite Forall_forall in Hclean. split.
  - intros [Hne (line & Hline & ->)]. apply elem_of_app in Hline as [H|H].
    + destruct (Hclean line H) as (_ & -> & _). exact H.
    + apply list_elem_of_singleton in H as ->. contradiction.
  - intros Hp. destruct (Hclean p Hp) as (Hne & Htrim & _).
    split; [exact Hne|]. exists p. split; [apply elem_of_app; auto | auto].
Qed.

(** X7.  The list [extractProxies] returns, written one address per line as
    [saveValidProxy] writes them, loads again as the same addresses. *)
Theorem extractProxies_round_trip content :
  extractProxies (lines_of (extractProxies content)) ≡ₚ extractProxies content.
Proof.
  apply NoDup_Permutation; try (unfold extractProxies; apply NoDup_elements).
  intros p. apply extractProxies_lines_of.
  apply Forall_forall. intros q Hq.
  apply extractProxies_elem in Hq as [Hne (line & Hline & ->)].
  split; [exact Hne|]. split; [apply TrimSpace_idem|].
  intros Hin. apply TrimSpace_bytes in Hin.
  exact (Split_no_sep content newline line Hline Hin).
Qed.

(** ** The loader of the other variant *)

Lemma byte_eqb_eq c n : byte_eqb c n = true -> c = byte_of n.
Proof.
  unfold byte_eqb, byte_of, code. intros H. apply N.eqb_eq in H.
  rewrite <- H. symmetry. apply ascii_N_embedding.
Qed.

Lemma dropCR_cases line :
  SecondVariant.dropCR line = line \/
  line = SecondVariant.dropCR line +:+ String (byte_of 13) "".
Proof.
  unfold SecondVariant.dropCR.
  destruct (String.rev line) as [|c r] eqn:Hrev; [left; reflexivity|].
  destruct (byte_eqb c 13) eqn:Hc; [right | left; reflexivity].
  apply byte_eqb_eq in Hc as ->.
  rewrite <- (string_rev_involutive line), Hrev, string_rev_cons. reflexivity.
Qed.

Lemma dropCR_length line :
  (String.length (SecondVariant.dropCR line) <= String.length line)%nat.
Proof.
  destruct (dropCR_cases line) as [->|H]; [lia|].
  rewrite H at 2. rewrite string_app_length. lia.
Qed.

Lemma trimRightSpace_cr x :
  trimRightSpace (x +:+ String (byte_of 13) "") = trimRightSpace x.
Proof. unfold trimRightSpace. rewrite string_rev_append. reflexivity. Qed.

(** A carriage return after the text does not change what is trimmed from
    its left end, unless all of it is. *)
Lemma trimLeftSpace_cr r :
  trimLeftSpace (r +:+ String (byte_of 13) "")
  = if decide (trimLeftSpace r = "") then "" else trimLeftSpace r +:+ String (byte_of 13) "".
Proof.
  assert (forall c1, isSpace2 c1 (byte_of 13) = false) as Hcr2
    by (intros c1; unfold isSpace2; apply andb_false_r).
  assert (forall c1 c2, isSpace3 c1 c2 (byte_of 13) = false) as Hcr3.
  { intros c1 c2. unfold isSpace3.
    change (byte_eqb (byte_of 13) 128) with false.
    change (byte_eqb (byte_of 13) 159) with false.
    change (code (byte_of 13)) with 13%N. simpl.
    rewrite !andb_false_r. reflexivity. }
  induction r as [r IH] using string_length_ind.
  destruct r as [|c1 [|c2 [|c3 s3]]].
  - reflexivity.
  - change (String c1 "" +:+ String (byte_of 13) "") with (String c1 (String (byte_of 13) "")).
    simpl trimLeftSpace. rewrite Hcr2.
    destruct (isSpace1 c1); reflexivity.
  - change (String c1 (String c2 "") +:+ String (byte_of 13) "")
      with (String c1 (String c2 (String (byte_of 13) ""))).
    simpl trimLeftSpace. rewrite Hcr2, Hcr3.
    destruct (isSpace1 c1), (isSpace1 c2), (isSpace2 c1 c2); reflexivity.
  - rewrite !append_cons.
    change (trimLeftSpace (String c1 (String c2 (String c3 (s3 +:+ String (byte_of 13) "")))))
      with (if isSpace1 c1
            then trimLeftSpace (String c2 (String c3 s3) +:+ String (byte_of 13) "")
            else if isSpace2 c1 c2
                 then trimLeftSpace (String c3 s3 +:+ String (byte_of 13) "")
                 else if isSpace3 c1 c2 c3
                      then trimLeftSpace (s3 +:+ String (byte_of 13) "")
                      else String c1 (String c2 (String c3 (s3 +:+ String (byte_of 13) "")))).
    change (trimLeftSpace (String c1 (String c2 (String c3 s3))))
      with (if isSpace1 c1 then trimLeftSpace (String c2 (String c3 s3))
            else if isSpace2 c1 c2 then trimLeftSpace (String c3 s3)
                 else if isSpace3 c1 c2 c3 then trimLeftSpace s3
                      else String c1 (String c2 (String c3 s3))).
    destruct (isSpace1 c1); [apply IH; simpl; lia|].
    destruct (isSpace2 c1 c2); [apply IH; simpl; lia|].
    destruct (isSpace3 c1 c2 c3); [apply IH; simpl; lia|].
    reflexivity.
Qed.

Lemma TrimSpace_cr r : TrimSpace (r +:+ String (byte_of 13) "") = TrimSpace r.
Proof.
  unfold TrimSpace. rewrite trimLeftSpace_cr.
  destruct (decide (trimLeftSpace r = "")) as [->|_]; [reflexivity|].
  apply trimRightSpace_cr.
Qed.

Lemma TrimSpace_dropCR line : TrimSpace (SecondVariant.dropCR line) = TrimSpace line.
Proof.
  destruct (dropCR_cases line) as [->|H]; [reflexivity|].
  rewrite H at 2. rewrite TrimSpace_cr. reflexivity.
Qed.

Lemma readProxies_loop_ok tokens proxies :
  Forall (fun line => (N.of_nat (String.length line) < SecondVariant.MaxScanTokenSize)%N)
         tokens ->
  SecondVariant.readProxies_loop tokens proxies
  = Ok (proxies ++ filter (fun p => p <> "") (TrimSpace <$> tokens)).
Proof.
  revert proxies. induction tokens as [|line rest IH]; intros proxies H; simpl.
  - rewrite app_nil_r. reflexivity.
  - apply Forall_cons in H as [Hline Hrest].
    destruct (N.leb_spec SecondVariant.MaxScanTokenSize (N.of_nat (String.length line)));
      [lia|].
    destruct (decide (TrimSpace line = "")) as [He|Hne].
    + rewrite filter_cons_False by (intros Hn; exact (Hn He)).
      apply (IH _ Hrest).
    + rewrite filter_cons_True by exact Hne.
      rewrite (IH _ Hrest), <- app_assoc. reflexivity.
Qed.


(** The tokens of [ScanLines], trimmed, are the trimmed lines, but for an
    empty piece after the last line break. *)
Lemma ScanLines_trimmed content :
  filter (fun p => p <> "") (TrimSpace <$> SecondVariant.ScanLines content)
  = filter (fun p => p <> "") (TrimSpace <$> Split content newline).
Proof.
  unfold SecondVariant.ScanLines.
  assert (forall pieces, TrimSpace <$> map SecondVariant.dropCR pieces = TrimSpace <$> pieces)
    as Hdrop.
  { intros pieces. induction pieces as [|l ls IH]; [reflexivity|].
    simpl. rewrite TrimSpace_dropCR. f_equal. exact IH. }
  rewrite Hdrop.
  destruct (List.rev (Split content newline)) as [|last front] eqn:Hrev; [reflexivity|].
  destruct last; [|reflexivity].
  rewrite <- (List.rev_involutive (Split content newline)), Hrev. simpl.
  rewrite fmap_app, filter_app. simpl.
  rewrite filter_cons_False by (intros Hn; apply Hn; reflexivity).
  rewrite filter_nil, app_nil_r. reflexivity.
Qed.

Lemma ScanLines_short content :
  Forall (fun line => (N.of_nat (String.length line) < SecondVariant.MaxScanTokenSize)%N)
         (Split content newline) ->
  Forall (fun line => (N.of_nat (String.length line) < SecondVariant.MaxScanTokenSize)%N)
         (SecondVariant.ScanLines content).
Proof.
  intros H. unfold SecondVariant.ScanLines.
  assert (forall pieces,
    Forall (fun line => (N.of_nat (String.length line) < SecondVariant.MaxScanTokenSize)%N)
           pieces ->
    Forall (fun line => (N.of_nat (String.length line) < SecondVariant.MaxScanTokenSize)%N)
           (map SecondVariant.dropCR pieces)) as Hdrop.
  { intros pieces Hp. apply Forall_fmap. eapply Forall_impl; [exact Hp|].
    intros l Hl. pose proof (dropCR_length l). unfold compose. cbv beta in *. lia. }
  apply Hdrop.
  destruct (List.rev (Split content newline)) as [|last front] eqn:Hrev; [exact H|].
  destruct last; [|exact H].
  rewrite <- (List.rev_involutive (Split content newline)), Hrev in H. simpl in H.
  apply Forall_app in H as [H _]. exact H.
Qed.

(** X8.  The loader of the other variant, on a file whose lines fit the
    scanner's buffer, returns the non-empty trimmed lines in the order of
    the file, repeated lines repeated; they are the addresses
    [extractProxies] returns for the same content. *)
Theorem second_variant_loads_in_order w filePath content :
  ReadFile w filePath = Ok content ->
  Forall (fun line => (N.of_nat (String.length line) < SecondVariant.MaxScanTokenSize)%N)
         (Split content newline) ->
  SecondVariant.readProxies w filePath
    = Ok (filter (fun p => p <> "") (TrimSpace <$> Split content newline)) /\
  (forall p, p ∈ filter (fun p => p <> "") (TrimSpace <$> Split content newline) <->
             p ∈ extractProxies content).
Proof.
  intros Hfile Hshort. split.
  - unfold SecondVariant.readProxies. rewrite Hfile.
    rewrite (readProxies_loop_ok _ [] (ScanLines_short content Hshort)).
    rewrite ScanLines_trimmed. reflexivity.
  - intros p. rewrite extractProxies_elem, list_elem_of_filter, list_elem_of_fmap.
    split.
    + intros [Hne (line & -> & Hline)]. split; [exact Hne | exists line; auto].
    + intros [Hne (line & Hline & ->)]. split; [exact Hne | exists line; auto].
Qed.

(** [second_variant_loads_in_order] at a file of two equal lines. *)
Lemma second_variant_loads_in_order_witness :
  SecondVariant.readProxies sources_two_lines "proxies.txt"
  = Ok (filter (fun p => p <> "") (TrimSpace <$> Split two_lines newline)).
Proof.
  assert (Split two_lines newline = ["1.2.3.4:8080"; "1.2.3.4:8080"; ""]) as Hlines
    by (vm_compute; reflexivity).
  assert (Forall (fun line =>
            (N.of_nat (String.length line) < SecondVariant.MaxScanTokenSize)%N)
            (Split two_lines newline)) as Hshort
    by (rewrite Hlines; repeat constructor).
  exact (proj1 (second_variant_loads_in_order sources_two_lines "proxies.txt" two_lines
                  eq_refl Hshort)).
Defined.






(** ** The probe and its buffer *)

Lemma slice_to_length n s : (String.length (slice_to n s) <= n)%nat.
Proof.
  revert s. induction n as [|n IH]; intros [|c s]; simpl; try lia.
  specialize (IH s). lia.
Qed.

Lemma Contains_length s sub :
  Contains s sub = true -> (String.length sub <= String.length s)%nat.
Proof.
  intros H. apply Contains_spec in H as (a & b & ->).
  rewrite !string_app_length. lia.
Qed.

(** X10.  A marker of more than 1024 bytes is never found: the probe looks
    for it in a buffer of 1024 bytes, so every proxy is reported invalid,
    whatever it answers, in both variants. *)
Theorem marker_longer_than_buffer net i proxy protocol targetURL validString timeout :
  (1024 < String.length validString)%nat ->
  checkProxy_verdict net i proxy protocol targetURL validString timeout = None /\
  SecondVariantProbe.checkProxy_verdict net i proxy protocol targetURL validString timeout
  = None.
Proof.
  intros Hlong.
  assert (forall resp, Contains (slice_to (Read_1024 resp) (resp_body resp)) validString = false)
    as Hmiss.
  { intros resp. destruct (Contains _ _) eqn:Hc; [|reflexivity].
    apply Contains_length in Hc.
    pose proof (slice_to_length (Read_1024 resp) (resp_body resp)).
    pose proof (Read_1024_le resp). lia. }
  unfold checkProxy_verdict, SecondVariantProbe.checkProxy_verdict.
  destruct (url_Parse net _) as [u|]; [|split; reflexivity].
  destruct (client_Get net i u targetURL timeout) as [e|resp]; [split; reflexivity|].
  rewrite Hmiss. split; reflexivity.
Qed.

(** [marker_longer_than_buffer] at a marker of 1025 bytes. *)
Lemma marker_longer_than_buffer_witness :
  checkProxy_verdict net_all_valid 0 "1.2.3.4:80" "https" "https://example.com"
    long_marker (5000 * Millisecond) = None.
Proof.
  assert (1024 < String.length long_marker)%nat as Hlong by (vm_compute; lia).
  exact (proj1 (marker_longer_than_buffer net_all_valid 0 "1.2.3.4:80" "https"
                  "https://example.com" long_marker (5000 * Millisecond) Hlong)).
Defined.

(** ** The handler *)

(** X11.  [handleValidProxy] saves the text before the first ['|'] of its
    message, whatever follows it, and panics on a message without a ['|']
    before it has written anything. *)
Theorem handleValidProxy_first_bar fs protocol :
  (forall a b, bar_byte ∉ bytes a ->
     handleValidProxy fs protocol (a +:+ String bar_byte b)
     = Some (fst (saveValidProxy fs protocol a))) /\
  (forall m, bar_byte ∉ bytes m -> handleValidProxy fs protocol m = None).
Proof.
  unfold handleValidProxy. split.
  - intros a b Ha. rewrite Split_app, (Split_none a bar_byte Ha).
    destruct (Split b bar_byte) as [|q rest] eqn:Hb; [|reflexivity].
    exfalso. exact (Split_nonempty _ _ Hb).
  - intros m Hm. rewrite (Split_none m bar_byte Hm). reflexivity.
Qed.

(** ** Every run ends *)

Lemma worker_fuel_nonneg w : 0 <= worker_fuel w.
Proof. unfold worker_fuel. destruct (w_pc w); lia. Qed.

Lemma aggr_fuel_nonneg pc : 0 <= aggr_fuel pc.
Proof. destruct pc; simpl; lia. Qed.

Lemma main_fuel_pos r pc : pc <> MExit -> 1 <= main_fuel r pc.
Proof. destruct pc; simpl; try lia. contradiction. Qed.

Lemma alive_not_exit s : alive s = true -> st_main s <> MExit /\ panicked s = None.
Proof.
  unfold alive. destruct (panicked s); [discriminate|].
  destruct (st_main s); try discriminate; split; congruence.
Qed.

Lemma alive_exit s : st_main s = MExit -> alive s = false.
Proof. unfold alive. intros ->. destruct (panicked s); reflexivity. Qed.

Lemma fuel_nonneg r s : 0 <= fuel r s.
Proof.
  unfold fuel. destruct (alive s) eqn:Ha; [|lia].
  pose proof (main_fuel_pos r _ (proj1 (alive_not_exit s Ha))).
  pose proof (sumZ_nonneg worker_fuel (st_workers s) worker_fuel_nonneg).
  pose proof (aggr_fuel_nonneg (st_aggr s)). lia.
Qed.

Section Termination.

Variable net : Network.
Variable r : Run.

(** Every step uses up some of the fuel. *)
Lemma step_uses_fuel t s s' : step_of net r t s = Some s' -> fuel r s' < fuel r s.
Proof.
  intros Hstep.
  assert (alive s = true) as Ha.
  { destruct t; simpl in Hstep; unfold step_main, step_worker, step_aggr in Hstep;
      destruct (alive s); try reflexivity; discriminate. }
  pose proof (main_fuel_pos r _ (proj1 (alive_not_exit s Ha))) as Hmain.
  pose proof (sumZ_nonneg worker_fuel (st_workers s) worker_fuel_nonneg) as Hws.
  pose proof (aggr_fuel_nonneg (st_aggr s)) as Hag.
  assert (alive s' = false \/ alive s' = true) as [Hd|Ha'] by (destruct (alive s'); auto).
  { unfold fuel. rewrite Hd, Ha. lia. }
  unfold fuel. rewrite Ha, Ha'.
  destruct t as [|i|]; simpl in Hstep.
  - (* main *)
    unfold step_main in Hstep. rewrite Ha in Hstep. simpl in Hstep.
    destruct (st_main s) as [|rest|p rest|p rest| | | |] eqn:Hm.
    + destruct (run_threads r <? 0); injection Hstep as <-; [discriminate Ha'|].
      simpl in *. destruct (st_aggr s); simpl; lia.
    + destruct rest as [|p rest]; injection Hstep as <-; simpl in *; lia.
    + destruct (sem s <? run_threads r); [|discriminate].
      injection Hstep as <-. simpl in *. lia.
    + injection Hstep as <-. simpl in *. rewrite sumZ_app. simpl.
      unfold worker_fuel at 2. simpl. lia.
    + destruct (wg s =? 0); [|discriminate]. injection Hstep as <-. simpl in *. lia.
    + destruct (results_closed s); injection Hstep as <-; [discriminate Ha'|].
      simpl in *. lia.
    + injection Hstep as <-. rewrite alive_exit in Ha' by reflexivity. discriminate.
    + discriminate.
  - (* a worker *)
    unfold step_worker in Hstep. rewrite Ha in Hstep. simpl in Hstep.
    destruct (st_workers s !! i) as [w|] eqn:Hi; [|discriminate].
    unfold step_worker_at in Hstep.
    pose proof (sumZ_insert worker_fuel (st_workers s) i w) as Hins.
    assert (forall pc, worker_fuel (at_pc w pc) = worker_fuel (mkWorker 0 "" pc)) as Hat
      by reflexivity.
    assert (worker_fuel w = worker_fuel (mkWorker 0 "" (w_pc w))) as Hw by reflexivity.
    destruct (w_pc w) as [|msg| |tmp| | | |] eqn:Hpc.
    + destruct (verdict_of net r w); injection Hstep as <-; simpl in *;
        rewrite (Hins _ Hi), Hat, Hw; cbv [worker_fuel w_pc]; lia.
    + destruct (results_closed s); [injection Hstep as <-; discriminate Ha'|].
      destruct (Nat.ltb _ _); [|discriminate].
      injection Hstep as <-. simpl in *.
      rewrite (Hins _ Hi), Hat, Hw, length_app. cbv [worker_fuel w_pc]. simpl length. lia.
    + injection Hstep as <-. simpl in *.
      rewrite (Hins _ Hi), Hat, Hw. cbv [worker_fuel w_pc]. lia.
    + injection Hstep as <-. simpl in *.
      rewrite (Hins _ Hi), Hat, Hw. cbv [worker_fuel w_pc]. lia.
    + destruct (wg s - 1 <? 0); injection Hstep as <-; [discriminate Ha'|].
      simpl in *. rewrite (Hins _ Hi), Hat, Hw. cbv [worker_fuel w_pc]. lia.
    + injection Hstep as <-. simpl in *.
      rewrite (Hins _ Hi), Hat, Hw. cbv [worker_fuel w_pc]. lia.
    + destruct (0 <? sem s); [|discriminate]. injection Hstep as <-. simpl in *.
      rewrite (Hins _ Hi), Hat, Hw. cbv [worker_fuel w_pc]. lia.
    + discriminate.
  - (* the aggregator *)
    unfold step_aggr in Hstep. rewrite Ha in Hstep. simpl in Hstep.
    destruct (st_aggr s) as [| |msg| |] eqn:Hag'; try discriminate.
    + destruct (results s) as [|msg rest] eqn:Hres.
      * destruct (results_closed s); [|discriminate].
        injection Hstep as <-. simpl in *. rewrite Hres. simpl. lia.
      * injection Hstep as <-. simpl in *. lia.
    + destruct (handleValidProxy (fs s) "socks5" msg);
        injection Hstep as <-; [|discriminate Ha'].
      simpl in *. lia.
    + injection Hstep as <-. simpl in *. lia.
Qed.

Lemma schedule_uses_fuel sched s s' :
  run_schedule net r sched s = Some s' ->
  Z.of_nat (length sched) + fuel r s' <= fuel r s.
Proof.
  revert s. induction sched as [|t sched IH]; intros s Hrun; simpl in Hrun.
  - injection Hrun as <-. simpl. lia.
  - destruct (step_of net r t s) as [s1|] eqn:Hstep; [|discriminate].
    pose proof (step_uses_fuel t s s1 Hstep). specialize (IH s1 Hrun).
    simpl length. lia.
Qed.

(** X12.  A run over [n] addresses takes at most [12 n + 7] steps, whatever
    the limit, the network's answers and the order in which the goroutines
    move: [main], the workers and the aggregator cannot go on for ever.  (The
    exchange of a probe with the network is one step: it is taken to
    return, as it does under a timeout that is not zero.) *)
Theorem run_is_bounded fs0 sched s :
  run_schedule net r sched (init fs0) = Some s ->
  Z.of_nat (length sched) <= 12 * Z.of_nat (length (run_proxies r)) + 7.
Proof.
  intros Hrun. pose proof (schedule_uses_fuel sched _ s Hrun) as Hfuel.
  pose proof (fuel_nonneg r s). unfold fuel in Hfuel at 2. simpl in Hfuel. lia.
Qed.

End Termination.

(** [run_is_bounded] at a run over one address that takes all of its 19
    steps. *)
Lemma run_is_bounded_witness :
  Z.of_nat (length sched_https_summary)
  <= 12 * Z.of_nat (length (run_proxies run_https)) + 7.
Proof.
  apply (run_is_bounded net_all_valid run_https ∅ sched_https_summary state_https_summary).
  vm_compute. reflexivity.
Defined.

(** ** Every run comes to its report *)

Section Completion.

Variable net : Network.
Variable r : Run.
Variable fs0 : gmap string file.

Ltac destruct_scrutinee :=
  match goal with
  | |- context [match ?x with _ => _ end] =>
      lazymatch x with
      | context [match _ with _ => _ end] => fail
      | _ => destruct x
      end
  end.

Lemma step_worker_main i s s' : step_worker net r i s = Some s' -> st_main s' = st_main s.
Proof.
  unfold step_worker. destruct (alive s); simpl; [|discriminate].
  destruct (st_workers s !! i) as [w|]; [|discriminate].
  unfold step_worker_at.
  destruct (w_pc w); simpl;
    repeat (destruct_scrutinee; simpl);
    try discriminate; intros [= <-]; reflexivity.
Qed.

Lemma step_aggr_main s s' : step_aggr s = Some s' -> st_main s' = st_main s.
Proof.
  unfold step_aggr. destruct (alive s); simpl; [|discriminate].
  destruct (st_aggr s); simpl; try discriminate;
    repeat (destruct_scrutinee; simpl);
    try discriminate; intros [= <-]; reflexivity.
Qed.

(** When [main] has returned it has printed its total. *)
Lemma exit_reports s :
  reachable net r fs0 s -> st_main s = MExit -> exists v, reported_total s = Some v.
Proof.
  revert s.
  apply (rtc_ind_r (fun s => st_main s = MExit -> exists v, reported_total s = Some v));
    [discriminate|].
  intros s s' _ [t Hstep] _ Hexit.
  assert (alive s = true) as Ha.
  { destruct t; simpl in Hstep; unfold step_main, step_worker, step_aggr in Hstep;
      destruct (alive s); try reflexivity; discriminate. }
  destruct (alive_not_exit s Ha) as [Hne _].
  destruct t as [|i|]; simpl in Hstep.
  - unfold step_main in Hstep. rewrite Ha in Hstep. simpl in Hstep.
    destruct (st_main s) as [|rest|p rest|p rest| | | |] eqn:Hm;
      repeat match type of Hstep with
             | context [match ?x with _ => _ end] => destruct x
             end;
      try discriminate; injection Hstep as <-; simpl in Hexit; try discriminate;
      try congruence.
    simpl. eauto.
  - apply step_worker_main in Hstep. congruence.
  - apply step_aggr_main in Hstep. congruence.
Qed.

(** X13.  Under a limit of at least 1 every run can be brought to its end
    from wherever it stands: some schedule leads to the state in which
    [main] has returned, without a panic, its total printed.  With the
    bound on the length of a run, no run waits or goes on for ever. *)
Theorem run_completes s :
  1 <= run_threads r ->
  reachable net r fs0 s ->
  exists sched s',
    run_schedule net r sched s = Some s' /\
    st_main s' = MExit /\ panicked s' = None /\
    exists v, reported_total s' = Some v.
Proof.
  intros Hthreads. remember (Z.to_nat (fuel r s)) as n eqn:Hn.
  revert s Hn. induction n as [n IH] using lt_wf_ind. intros s Hn Hreach.
  pose proof (Inv_reachable _ _ _ _ Hreach) as HI.
  assert (panicked s = None) as Hnp by (apply (inv_nopanic _ _ _ _ HI); lia).
  destruct (alive s) eqn:Ha.
  - destruct (run_never_stuck net r fs0 s Hthreads Hreach Ha) as (t & s1 & Hstep).
    pose proof (step_uses_fuel net r t s s1 Hstep) as Hlt.
    pose proof (fuel_nonneg r s1) as Hge.
    assert (reachable net r fs0 s1) as Hreach1
      by (eapply rtc_r; [exact Hreach | exists t; exact Hstep]).
    destruct (IH (Z.to_nat (fuel r s1)) ltac:(lia) s1 eq_refl Hreach1)
      as (sched & s' & Hrun & Hrest).
    exists (t :: sched), s'. split; [|exact Hrest].
    simpl. rewrite Hstep. exact Hrun.
  - assert (st_main s = MExit) as Hexit.
    { unfold alive in Ha. rewrite Hnp in Ha. destruct (st_main s); congruence. }
    exists [], s. split; [reflexivity|]. split; [exact Hexit|]. split; [exact Hnp|].
    exact (exit_reports s Hreach Hexit).
Qed.

(** X14.  The one panic a run can end in is the creation of [sem] with a
    negative size: no send on a closed channel, no second close, no
    [WaitGroup] counter below zero and no message without its ['|'] ever
    occurs. *)
Theorem only_panic_is_negative_limit s :
  reachable net r fs0 s ->
  panicked s = None \/
  (run_threads r < 0 /\ panicked s = Some "makechan: size out of range").
Proof.
  intros Hreach. destruct (Z.ltb_spec (run_threads r) 0) as [Hneg|Hge].
  - destruct (negative_limit_stays_in_setup net r fs0 s Hneg Hreach) as [_ [Hag|Hp]];
      [|right; auto].
    left. revert s Hreach Hag.
    apply (rtc_ind_r (fun s => st_aggr s = ANotStarted -> panicked s = None));
      [reflexivity|].
    intros s s' Hpre [t Hstep] IH Hag.
    destruct (negative_limit_stays_in_setup net r fs0 s Hneg Hpre) as [Hm _].
    destruct (no_worker net r fs0 s (or_introl (Z.lt_le_incl _ _ Hneg)) Hpre) as [Hws _].
    destruct t as [|i|]; simpl in Hstep.
    + unfold step_main in Hstep. destruct (alive s); simpl in Hstep; [|discriminate].
      rewrite Hm in Hstep. destruct (run_threads r <? 0); injection Hstep as <-;
        simpl in Hag; discriminate Hag.
    + unfold step_worker in Hstep. destruct (alive s); simpl in Hstep; [|discriminate].
      rewrite Hws in Hstep. discriminate.
    + unfold step_aggr in Hstep. destruct (alive s) eqn:Ha; simpl in Hstep; [|discriminate].
      destruct (negative_limit_stays_in_setup net r fs0 s Hneg Hpre) as [_ [Hags|Hps]].
      * rewrite Hags in Hstep. discriminate.
      * destruct (alive_not_exit s Ha) as [_ Hnone]. congruence.
  - left. exact (inv_nopanic _ _ _ _ (Inv_reachable _ _ _ _ Hreach) Hge).
Qed.

(** X15.  The addresses are handed out in the order of the list, one worker
    each: the [i]-th worker probes the [i]-th address, and once [main] waits
    every address has its worker. *)
Theorem dispatch_in_order s :
  reachable net r fs0 s ->
  (forall i w, st_workers s !! i = Some w ->
     w_id w = i /\ run_proxies r !! i = Some (w_proxy w)) /\
  (length (st_workers s) <= length (run_proxies r))%nat /\
  (past_wait (st_main s) = true \/ st_main s = MWait ->
     map w_proxy (st_workers s) = run_proxies r).
Proof.
  intros Hreach. pose proof (Inv_reachable _ _ _ _ Hreach) as HI.
  pose proof (inv_dispatch _ _ _ _ HI) as Hdis. split; [|split].
  - intros i w Hi. split; [exact (inv_ids _ _ _ _ HI i w Hi)|].
    rewrite <- Hdis. apply lookup_app_l_Some.
    rewrite list_lookup_fmap, Hi. reflexivity.
  - exact (dispatched_le net r fs0 s HI).
  - intros Hpc.
    destruct (st_main s); simpl in *; destruct Hpc as [Hpc|Hpc]; try discriminate;
      rewrite app_nil_r in Hdis; exact Hdis.
Qed.

End Completion.

(** [run_completes] from the state in which both workers are about to send. *)
Lemma run_completes_witness :
  exists sched s',
    run_schedule net_all_valid run_two sched state_both_sending = Some s' /\
    st_main s' = MExit.
Proof.
  destruct (run_completes net_all_valid run_two ∅ state_both_sending
              ltac:(vm_compute; discriminate) (after_reachable _ _ _ _))
    as (sched & s' & Hrun & Hexit & _).
  exists sched, s'. split; [exact Hrun | exact Hexit].
Defined.

(** ** The result file *)

Lemma Split_Cut m sep :
  Split m sep =
  fst (NetURL.Cut m sep) ::
  match snd (NetURL.Cut m sep) with
  | Some rest => Split rest sep
  | None => []
  end.
Proof.
  induction m as [|c m IH]; [reflexivity|]. simpl.
  destruct (Ascii.eqb c sep); [reflexivity|].
  rewrite IH. destruct (NetURL.Cut m sep) as [before after]. reflexivity.
Qed.

Lemma handleValidProxy_before_bar fs protocol m fs' :
  handleValidProxy fs protocol m = Some fs' ->
  fs' = fst (saveValidProxy fs protocol (before_bar m)).
Proof.
  unfold handleValidProxy, before_bar. rewrite Split_Cut.
  destruct (snd (NetURL.Cut m bar_byte)) as [rest|]; [|discriminate].
  destruct (Split rest bar_byte) as [|q qs] eqn:Hq; [discriminate|].
  intros [= <-]. reflexivity.
Qed.

Lemma Cut_no_sep a b sep : sep ∉ bytes a -> NetURL.Cut (a +:+ String sep b) sep = (a, Some b).
Proof.
  induction a as [|c a IH]; intros Ha.
  - change ("" +:+ String sep b) with (String sep b). simpl.
    rewrite Ascii.eqb_refl. reflexivity.
  - unfold bytes in Ha. simpl in Ha. apply not_elem_of_cons in Ha as [Hne Ha].
    rewrite append_cons. simpl.
    destruct (Ascii.eqb_spec c sep) as [->|_]; [contradiction|].
    rewrite (IH Ha). reflexivity.
Qed.

(** *** Successive saves *)

Lemma save_each_app fs protocol ps qs :
  save_each fs protocol (ps ++ qs) = save_each (save_each fs protocol ps) protocol qs.
Proof. unfold save_each. apply foldl_app. Qed.

Lemma save_each_frame fs protocol ps path :
  path <> valid_path protocol -> save_each fs protocol ps !! path = fs !! path.
Proof.
  intros Hne. revert fs. induction ps as [|p ps IH]; intros fs; [reflexivity|].
  simpl. rewrite IH. apply saveValidProxy_frame, Hne.
Qed.

Lemma save_each_unwritable fs protocol ps f :
  fs !! valid_path protocol = Some f -> writable f = false ->
  save_each fs protocol ps = fs.
Proof.
  intros Hf Hw. induction ps as [|p ps IH]; [reflexivity|].
  simpl. unfold saveValidProxy at 1. rewrite Hf, Hw. exact IH.
Qed.

Lemma save_each_data fs protocol ps :
  appendable fs (valid_path protocol) ->
  file_data (save_each fs protocol ps) (valid_path protocol)
  = file_data fs (valid_path protocol) +:+ lines_of ps /\
  appendable (save_each fs protocol ps) (valid_path protocol).
Proof.
  revert fs. induction ps as [|p ps IH]; intros fs Hfs.
  - simpl. rewrite append_nil_r. auto.
  - simpl save_each.
    assert (file_data (fst (saveValidProxy fs protocol p)) (valid_path protocol)
            = file_data fs (valid_path protocol) +:+ p +:+ String newline "" /\
            appendable (fst (saveValidProxy fs protocol p)) (valid_path protocol)) as [Hd Ha].
    { unfold appendable, file_data, saveValidProxy in *.
      destruct (fs !! valid_path protocol) as [f|] eqn:Hf.
      - rewrite Hfs. simpl. rewrite lookup_insert_eq. auto.
      - simpl. rewrite lookup_insert_eq. auto. }
    destruct (IH _ Ha) as [Hd' Ha']. split; [|exact Ha'].
    change (save_each fs protocol (p :: ps))
      with (save_each (fst (saveValidProxy fs protocol p)) protocol ps).
    rewrite Hd', Hd. simpl lines_of.
    rewrite !append_assoc. reflexivity.
Qed.

(** X16.  Calls of [saveValidProxy] one after the other append their
    addresses to the protocol's file in the order of the calls, one per
    line, after what the file held, and create it at the first call; a file
    that cannot be opened for writing stays as it is, every call failing;
    no other file is touched. *)
Theorem saves_append_in_order fs protocol ps :
  (appendable fs (valid_path protocol) ->
     file_data (save_each fs protocol ps) (valid_path protocol)
     = file_data fs (valid_path protocol) +:+ lines_of ps) /\
  (forall f, fs !! valid_path protocol = Some f -> writable f = false ->
     save_each fs protocol ps = fs /\
     forall p, snd (saveValidProxy fs protocol p) = Some "permission denied") /\
  (forall path, path <> valid_path protocol ->
     save_each fs protocol ps !! path = fs !! path).
Proof.
  split; [|split].
  - intros Ha. exact (proj1 (save_each_data fs protocol ps Ha)).
  - intros f Hf Hw. split; [exact (save_each_unwritable fs protocol ps f Hf Hw)|].
    intros p. unfold saveValidProxy. rewrite Hf, Hw. reflexivity.
  - intros path Hne. exact (save_each_frame fs protocol ps path Hne).
Qed.

Section ResultFile.

Variable net : Network.
Variable r : Run.
Variable fs0 : gmap string file.

(** Every message on the channel is an address of the list with the
    latency of its probe. *)
Lemma sent_messages s m :
  reachable net r fs0 s -> m ∈ sent_log s ->
  exists p latency,
    p ∈ run_proxies r /\ m = p +:+ "|" +:+ Sprintf_d latency +:+ "ms".
Proof.
  intros Hreach Hm. pose proof (Inv_reachable _ _ _ _ Hreach) as HI.
  destruct (inv_sent_by _ _ _ _ HI m Hm) as (i & w & Hi & Hv & _).
  assert (w_proxy w ∈ run_proxies r) as Hin.
  { rewrite <- (inv_dispatch _ _ _ _ HI). apply elem_of_app. left.
    apply list_elem_of_fmap. exists w. split; [reflexivity|].
    eapply list_elem_of_lookup_2, Hi. }
  unfold verdict_of, checkProxy_verdict in Hv.
  destruct (url_Parse net _) as [u|]; [|discriminate].
  destruct (client_Get net _ u _ _) as [e|resp]; [discriminate|].
  destruct (Contains _ _); [|discriminate].
  injection Hv as <-. eauto.
Qed.

(** The aggregator has saved a beginning of what was sent, in the order of
    the sends. *)
Lemma saved_so_far_reachable s :
  reachable net r fs0 s -> exists handled, saved_so_far fs0 s handled.
Proof.
  revert s. apply (rtc_ind_r (fun s => exists handled, saved_so_far fs0 s handled)).
  { exists []. split; [reflexivity|]. split; [reflexivity|]. split; [reflexivity|].
    simpl. intros [Hag|Hag]; discriminate. }
  intros s s' Hpre [t Hstep] (handled & Hlog & Hfs & Hset & Hdone).
  assert (alive s = true) as Ha.
  { destruct t; simpl in Hstep; unfold step_main, step_worker, step_aggr in Hstep;
      destruct (alive s); try reflexivity; discriminate. }
  specialize (Hset Ha).
  assert (forall s1 : State,
            sent_log s1 = sent_log s -> st_aggr s1 = st_aggr s -> results s1 = results s ->
            fs s1 = fs s -> (results_closed s = true -> results_closed s1 = true) ->
            (alive s1 = true -> st_main s1 = MSetup -> st_main s = MSetup) ->
            saved_so_far fs0 s1 handled) as Hsame.
  { intros s1 E1 E2 E3 E4 E5 E6. unfold saved_so_far. rewrite E1, E2, E3, E4.
    split; [exact Hlog|]. split; [exact Hfs|]. split; [intros Hal Hm; auto|].
    intros Hag. destruct (Hdone Hag). auto. }
  destruct t as [|i|]; simpl in Hstep.
  - (* main *)
    exists handled. unfold step_main in Hstep. rewrite Ha in Hstep. simpl in Hstep.
    destruct (st_main s) as [|rest|p rest|p rest| | | |] eqn:Hm.
    + rewrite (Hset eq_refl) in Hlog, Hdone.
      destruct (run_threads r <? 0); injection Hstep as <-;
        (split; [exact Hlog|]; split; [exact Hfs|]; split;
         [simpl; intros Hal Hm'; first [discriminate Hal | discriminate Hm']
         | simpl; intros [Hag|Hag]; discriminate]).
    + destruct rest; injection Hstep as <-;
        apply Hsame; try reflexivity; auto; simpl; intros _ Hm'; discriminate Hm'.
    + destruct (sem s <? run_threads r); [|discriminate]. injection Hstep as <-.
      apply Hsame; try reflexivity; auto; simpl; intros _ Hm'; discriminate Hm'.
    + injection Hstep as <-.
      apply Hsame; try reflexivity; auto; simpl; intros _ Hm'; discriminate Hm'.
    + destruct (wg s =? 0); [|discriminate]. injection Hstep as <-.
      apply Hsame; try reflexivity; auto; simpl; intros _ Hm'; discriminate Hm'.
    + destruct (results_closed s) eqn:Hc; injection Hstep as <-;
        apply Hsame; try reflexivity; auto; simpl; intros _ Hm'; congruence.
    + injection Hstep as <-.
      apply Hsame; try reflexivity; auto; simpl; intros _ Hm'; discriminate Hm'.
    + discriminate.
  - (* a worker *)
    exists handled.
    unfold step_worker in Hstep. rewrite Ha in Hstep. simpl in Hstep.
    destruct (st_workers s !! i) as [w|] eqn:Hi; [|discriminate].
    unfold step_worker_at in Hstep.
    destruct (w_pc w) as [|msg| |tmp| | | |] eqn:Hpc.
    + destruct (verdict_of net r w); injection Hstep as <-;
        apply Hsame; try reflexivity; auto.
    + destruct (results_closed s) eqn:Hc.
      * injection Hstep as <-. apply Hsame; try reflexivity; auto.
      * destruct (Nat.ltb _ _); [|discriminate]. injection Hstep as <-.
        split; [simpl; rewrite Hlog, <- !app_assoc; reflexivity|].
        split; [exact Hfs|]. split; [intros _; exact Hset|].
        simpl. intros Hag. destruct (Hdone Hag) as [_ Hcl]. congruence.
    + injection Hstep as <-. apply Hsame; try reflexivity; auto.
    + injection Hstep as <-. apply Hsame; try reflexivity; auto.
    + destruct (wg s - 1 <? 0); injection Hstep as <-;
        apply Hsame; try reflexivity; auto.
    + injection Hstep as <-. apply Hsame; try reflexivity; auto.
    + destruct (0 <? sem s); [|discriminate]. injection Hstep as <-.
      apply Hsame; try reflexivity; auto.
    + discriminate.
  - (* the aggregator *)
    unfold step_aggr in Hstep. rewrite Ha in Hstep. simpl in Hstep.
    assert (st_aggr s <> ANotStarted -> st_main s <> MSetup) as Hstarted
      by (intros Hne Hm; exact (Hne (Hset Hm))).
    destruct (st_aggr s) as [| |msg| |] eqn:Hag; try discriminate;
      specialize (Hstarted ltac:(discriminate)).
    + destruct (results s) as [|msg rest] eqn:Hres.
      * destruct (results_closed s) eqn:Hc; [|discriminate]. injection Hstep as <-.
        exists handled. unfold saved_so_far. simpl. rewrite Hres.
        split; [exact Hlog|]. split; [exact Hfs|].
        split; [intros _ Hm; contradiction | auto].
      * injection Hstep as <-. exists handled. unfold saved_so_far. simpl.
        split; [exact Hlog|]. split; [exact Hfs|].
        split; [intros _ Hm; contradiction|].
        intros [H|H]; discriminate.
    + destruct (handleValidProxy (fs s) "socks5" msg) as [fs'|] eqn:Hh;
        injection Hstep as <-.
      * exists (handled ++ [msg]). unfold saved_so_far. simpl.
        split; [rewrite Hlog, <- app_assoc; reflexivity|].
        split; [|split; [intros _ Hm; contradiction | intros [H|H]; discriminate]].
        rewrite fmap_app, save_each_app, <- Hfs. simpl.
        exact (handleValidProxy_before_bar _ _ _ _ Hh).
      * exists handled. apply Hsame; try reflexivity; auto.
    + injection Hstep as <-. exists handled. unfold saved_so_far. simpl.
      split; [exact Hlog|]. split; [exact Hfs|].
      split; [intros _ Hm; contradiction|].
      intros _. apply Hdone. auto.
Qed.

(** X17.  At every moment of a run the file [results/socks5.valid.txt] holds
    what it held before the run followed by one line for each message the
    aggregator has handled, in the order in which the messages were sent:
    the text before the first ['|'] of the message, which is an address of
    the list followed by the latency.  Nothing sent is skipped or saved
    twice, and once the aggregator has left its loop everything sent is
    saved.  A file that cannot be written is left as it is without stopping
    the run. *)
Theorem result_file_follows_channel s :
  reachable net r fs0 s ->
  exists handled,
    sent_log s = handled ++ in_hand (st_aggr s) ++ results s /\
    (forall m, m ∈ sent_log s ->
       exists p latency,
         p ∈ run_proxies r /\ m = p +:+ "|" +:+ Sprintf_d latency +:+ "ms" /\
         (bar_byte ∉ bytes p -> before_bar m = p)) /\
    (appendable fs0 (valid_path "socks5") ->
       file_data (fs s) (valid_path "socks5")
       = file_data fs0 (valid_path "socks5") +:+ lines_of (before_bar <$> handled)) /\
    (forall f, fs0 !! valid_path "socks5" = Some f -> writable f = false -> fs s = fs0) /\
    (st_aggr s = ASummary \/ st_aggr s = AExit -> handled = sent_log s).
Proof.
  intros Hreach.
  destruct (saved_so_far_reachable s Hreach) as (handled & Hlog & Hfs & _ & Hdone).
  exists handled. split; [exact Hlog|]. split; [|split; [|split]].
  - intros m Hm. destruct (sent_messages s m Hreach Hm) as (p & latency & Hp & ->).
    exists p, latency. split; [exact Hp|]. split; [reflexivity|].
    intros Hbar. unfold before_bar.
    change (p +:+ "|" +:+ Sprintf_d latency +:+ "ms")
      with (p +:+ String bar_byte (Sprintf_d latency +:+ "ms")).
    rewrite (Cut_no_sep p _ bar_byte Hbar). reflexivity.
  - intros Happ. rewrite Hfs. exact (proj1 (save_each_data fs0 "socks5" _ Happ)).
  - intros f Hf Hw. rewrite Hfs. exact (save_each_unwritable fs0 "socks5" _ f Hf Hw).
  - intros Hag. destruct (Hdone Hag) as [Hres _]. rewrite Hlog, Hres.
    destruct Hag as [Hag|Hag]; rewrite Hag; simpl; rewrite app_nil_r; reflexivity.
Qed.

End ResultFile.

(** ** The counter *)

Lemma wrap_int_small z : minInt <= z <= maxInt -> wrap_int z = z.
Proof.
  unfold wrap_int, minInt, maxInt, intBits. intros Hz.
  rewrite Z.mod_small; lia.
Qed.

Lemma sumZ_ext_in f g ws :
  (forall i w, ws !! i = Some w -> f w = g w) -> sumZ f ws = sumZ g ws.
Proof.
  induction ws as [|w ws IH]; intros Hfg; [reflexivity|]. simpl.
  rewrite (Hfg 0%nat w eq_refl), IH; [reflexivity|].
  intros i w' Hi. exact (Hfg (S i) w' Hi).
Qed.

(** Two workers that both count for one make a sum of two at least. *)
Lemma sumZ_two f ws i j wi wj :
  (forall w, 0 <= f w) -> i <> j ->
  ws !! i = Some wi -> ws !! j = Some wj -> f wi = 1 -> f wj = 1 ->
  2 <= sumZ f ws.
Proof.
  intros Hf. revert i j. induction ws as [|w ws IH]; intros [|i] [|j] Hne Hi Hj H1 H2;
    simpl in *; try discriminate; try contradiction.
  - injection Hi as ->. pose proof (sumZ_lookup_le f ws j wj Hf Hj). lia.
  - injection Hj as ->. pose proof (sumZ_lookup_le f ws i wi Hf Hi). lia.
  - specialize (IH i j ltac:(congruence) Hi Hj H1 H2). specialize (Hf w). lia.
Qed.

Section Counting.

Variable net : Network.
Variable r : Run.
Variable fs0 : gmap string file.

(** A Go slice holds no more than [maxInt] elements. *)
Hypothesis list_fits : Z.of_nat (length (run_proxies r)) <= maxInt.

Lemma stored_nonneg w : 0 <= stored net r w.
Proof. unfold stored. destruct (w_pc w); try lia; destruct (verdict_of net r w); lia. Qed.

Lemma stored_le_one w : stored net r w <= 1.
Proof. unfold stored. destruct (w_pc w); try lia; destruct (verdict_of net r w); lia. Qed.

Lemma stored_le_workers s :
  Inv net r fs0 s -> sumZ (stored net r) (st_workers s) <= maxInt.
Proof.
  intros HI. pose proof (dispatched_le net r fs0 s HI).
  pose proof (sumZ_le_length (stored net r) (st_workers s) stored_le_one). lia.
Qed.

(** A step that leaves the workers, the counter and the total alone. *)
Lemma counted_same s s1 :
  counted net r s ->
  st_workers s1 = st_workers s -> validCount s1 = validCount s ->
  reported_total s1 = reported_total s ->
  counted net r s1.
Proof. unfold counted. intros HC -> -> ->. exact HC. Qed.

(** A move of worker [i] that writes no update back. *)
Lemma counted_move s s1 i w pc :
  counted net r s -> st_workers s !! i = Some w ->
  st_workers s1 = st_workers s -> validCount s1 = validCount s ->
  reported_total s1 = reported_total s ->
  stored net r (at_pc w pc) = stored net r w ->
  (forall tmp, pc = WStore tmp -> tmp = validCount s) ->
  counted net r (set_workers (<[i := at_pc w pc]> (st_workers s1)) s1).
Proof.
  intros (Hv & Hone & Htmp & Htot) Hi Ews Ev Et Hst Hpc.
  unfold counted. simpl. rewrite Ews, Ev, Et.
  rewrite (sumZ_insert _ _ _ _ _ Hi), Hst.
  replace (sumZ (stored net r) (st_workers s) - stored net r w + stored net r w)
    with (sumZ (stored net r) (st_workers s)) by lia.
  split; [exact Hv|]. split; [exact Hone|]. split; [|exact Htot].
  intros j w' tmp Hj Hw'.
  apply list_lookup_insert_Some in Hj as [(-> & <- & _)|(_ & Hj)].
  - simpl in Hw'. rewrite (Hpc tmp Hw'). exact Hv.
  - exact (Htmp j w' tmp Hj Hw').
Qed.

Ltac apply_move s :=
  match goal with
  | |- counted _ _ (set_workers _ ?s1) => apply (counted_move s s1)
  end.

Lemma counted_step s s' :
  reachable net r fs0 s -> counted net r s -> step net r s s' -> counted net r s'.
Proof.
  intros Hreach HC [t Hstep]. pose proof (Inv_reachable _ _ _ _ Hreach) as HI.
  assert (alive s = true) as Ha.
  { destruct t; simpl in Hstep; unfold step_main, step_worker, step_aggr in Hstep;
      destruct (alive s); try reflexivity; discriminate. }
  assert (reported_total s = None) as Hnone.
  { destruct (reported_total s) as [v|] eqn:Hv; [|reflexivity].
    destruct (inv_total _ _ _ _ HI v Hv) as [Hexit _].
    destruct (alive_not_exit s Ha) as [Hne _]. contradiction. }
  destruct t as [|i|]; simpl in Hstep.
  - (* main *)
    unfold step_main in Hstep. rewrite Ha in Hstep. simpl in Hstep.
    destruct (st_main s) as [|rest|p rest|p rest| | | |] eqn:Hm.
    + destruct (run_threads r <? 0); injection Hstep as <-;
        apply (counted_same s); auto.
    + destruct rest; injection Hstep as <-; apply (counted_same s); auto.
    + destruct (sem s <? run_threads r); [|discriminate]. injection Hstep as <-.
      apply (counted_same s); auto.
    + injection Hstep as <-. destruct HC as (Hv & Hone & Htmp & Htot).
      assert (sumZ (stored net r) (st_workers s ++ [mkWorker (length (st_workers s)) p WProbe])
              = sumZ (stored net r) (st_workers s)) as Eapp
        by (rewrite sumZ_app; simpl; unfold stored; simpl; lia).
      unfold counted. simpl. rewrite Eapp.
      split; [exact Hv|]. split; [exact Hone|]. split; [|exact Htot].
      intros j w' tmp Hj Hw'. apply lookup_app_Some in Hj as [Hj|[_ Hj]].
      * exact (Htmp j w' tmp Hj Hw').
      * apply list_lookup_singleton_Some in Hj as [_ <-]. discriminate.
    + destruct (wg s =? 0); [|discriminate]. injection Hstep as <-.
      apply (counted_same s); auto.
    + destruct (results_closed s); injection Hstep as <-; apply (counted_same s); auto.
    + injection Hstep as <-. destruct HC as (Hv & Hone & Htmp & Htot).
      unfold counted. simpl. split; [exact Hv|]. split; [exact Hone|].
      split; [exact Htmp|]. intros v [= <-]. reflexivity.
    + discriminate.
  - (* a worker *)
    unfold step_worker in Hstep. rewrite Ha in Hstep. simpl in Hstep.
    destruct (st_workers s !! i) as [w|] eqn:Hi; [|discriminate].
    unfold step_worker_at in Hstep.
    destruct (w_pc w) as [|msg| |tmp| | | |] eqn:Hpc.
    + destruct (verdict_of net r w) as [msg|] eqn:Hv; injection Hstep as <-;
        apply_move s; auto; try discriminate;
        unfold stored; simpl; rewrite Hpc; try reflexivity.
      change (verdict_of net r (at_pc w WWgDone)) with (verdict_of net r w).
      rewrite Hv. reflexivity.
    + destruct (results_closed s).
      * injection Hstep as <-. apply_move s; auto; try discriminate.
        unfold stored; simpl; rewrite Hpc; reflexivity.
      * destruct (Nat.ltb _ _); [|discriminate]. injection Hstep as <-.
        apply_move s; auto; try discriminate.
        unfold stored; simpl; rewrite Hpc; reflexivity.
    + injection Hstep as <-. apply_move s; auto.
      * unfold stored; simpl; rewrite Hpc; reflexivity.
      * intros tmp [= <-]. reflexivity.
    + (* the write of the counter *)
      injection Hstep as <-. destruct HC as (Hv & Hone & Htmp & Htot).
      pose proof (Htmp i w tmp Hi Hpc) as Hb.
      pose proof (inv_wf _ _ _ _ HI i w Hi) as Hwf. unfold wf_worker in Hwf.
      rewrite Hpc in Hwf.
      assert (stored net r w = 0) as Hw0 by (unfold stored; rewrite Hpc; reflexivity).
      assert (stored net r (at_pc w WWgDone) = 1) as Hw1.
      { unfold stored. simpl.
        change (verdict_of net r (at_pc w WWgDone)) with (verdict_of net r w).
        destruct (verdict_of net r w); [reflexivity | contradiction]. }
      pose proof (sumZ_insert (stored net r) (st_workers s) i w (at_pc w WWgDone) Hi) as Hsum.
      rewrite Hw0, Hw1 in Hsum.
      assert (Inv net r fs0 (set_workers (<[i:=at_pc w WWgDone]> (st_workers s))
                               (set_validCount (wrap_int (tmp + 1)) s))) as HI'.
      { apply (Inv_step net r fs0 s); [exact HI|]. exists (TWorker i). simpl.
        unfold step_worker. rewrite Ha, Hi. simpl.
        unfold step_worker_at. rewrite Hpc. reflexivity. }
      pose proof (stored_le_workers _ HI') as Hmax. simpl in Hmax.
      assert (wrap_int (tmp + 1) = tmp + 1) as Hwrap.
      { apply wrap_int_small. unfold minInt, maxInt, intBits in *. lia. }
      unfold counted. simpl. rewrite Hwrap, Hsum.
      split; [lia|]. split; [lia|]. split; [|rewrite Hnone; discriminate].
      intros j w' tmp' Hj Hw'.
      apply list_lookup_insert_Some in Hj as [(-> & <- & _)|(_ & Hj)].
      * discriminate.
      * pose proof (Htmp j w' tmp' Hj Hw'). lia.
    + destruct (wg s - 1 <? 0); injection Hstep as <-;
        apply_move s; auto; try discriminate;
        unfold stored; simpl; rewrite Hpc; reflexivity.
    + injection Hstep as <-. apply_move s; auto; try discriminate.
      unfold stored; simpl; rewrite Hpc; reflexivity.
    + destruct (0 <? sem s); [|discriminate]. injection Hstep as <-.
      apply_move s; auto; try discriminate.
      unfold stored; simpl; rewrite Hpc; reflexivity.
    + discriminate.
  - (* the aggregator *)
    unfold step_aggr in Hstep. rewrite Ha in Hstep. simpl in Hstep.
    destruct (st_aggr s) as [| |msg| |]; try discriminate.
    + destruct (results s); [destruct (results_closed s); [|discriminate]|];
        injection Hstep as <-; apply (counted_same s); auto.
    + destruct (handleValidProxy (fs s) "socks5" msg); injection Hstep as <-;
        apply (counted_same s); auto.
    + injection Hstep as <-. apply (counted_same s); auto.
Qed.

Lemma counted_reachable s : reachable net r fs0 s -> counted net r s.
Proof.
  revert s. apply (rtc_ind_r (fun s => counted net r s)).
  - unfold counted. simpl. repeat split; try lia; try discriminate.
  - intros s s' Hpre Hstep HC. exact (counted_step s s' Hpre HC Hstep).
Qed.

(** When the total is printed every update is written back: the updates
    stored are the messages sent. *)
Lemma stored_at_exit s v :
  reachable net r fs0 s -> reported_total s = Some v ->
  sumZ (stored net r) (st_workers s) = Z.of_nat (length (sent_log s)).
Proof.
  intros Hreach Hv. pose proof (Inv_reachable _ _ _ _ Hreach) as HI.
  destruct (inv_total _ _ _ _ HI v Hv) as [Hexit _].
  pose proof (inv_waited _ _ _ _ HI) as Hwg. rewrite Hexit in Hwg.
  specialize (Hwg eq_refl).
  pose proof (inv_wg _ _ _ _ HI) as Hsum. rewrite Hexit in Hsum. simpl in Hsum.
  rewrite (inv_sent_len _ _ _ _ HI). apply sumZ_ext_in. intros i w Hi.
  assert (not_done w = 0) as Hnd
    by (apply (sumZ_zero_lookup not_done (st_workers s) i w not_done_nonneg); [lia | exact Hi]).
  unfold stored, has_sent, not_done in *. destruct (w_pc w); try reflexivity; discriminate.
Qed.

(** X18.  The counter never holds more than the number of messages sent
    and never less than zero, in any state of any run.  The total [main]
    prints is therefore at most the number of valid proxies found; it is
    zero exactly when none was found, and at least 1 otherwise: the lost
    updates of concurrent probes can lower it, never raise it. *)
Theorem reported_total_bounds s :
  reachable net r fs0 s ->
  0 <= validCount s <= Z.of_nat (length (sent_log s)) /\
  (forall v, reported_total s = Some v ->
     0 <= v <= Z.of_nat (length (sent_log s)) /\
     (v = 0 <-> sent_log s = [])).
Proof.
  intros Hreach. pose proof (Inv_reachable _ _ _ _ Hreach) as HI.
  destruct (counted_reachable s Hreach) as (Hv & Hone & _ & Htot).
  assert (sumZ (stored net r) (st_workers s) <= Z.of_nat (length (sent_log s))) as Hle.
  { rewrite (inv_sent_len _ _ _ _ HI). apply sumZ_le. intros w.
    unfold stored, has_sent. destruct (w_pc w); try lia; destruct (verdict_of net r w); lia. }
  split; [lia|]. intros v Hrep. rewrite (Htot v Hrep). split; [lia|].
  pose proof (stored_at_exit s v Hreach Hrep) as Hall.
  split.
  - intros Hzero. destruct (sent_log s); [reflexivity|]. simpl length in Hall. lia.
  - intros Hnil. rewrite Hnil in Hle. simpl in Hle. lia.
Qed.

Ltac apply_serial Hmove :=
  match goal with
  | |- counted_serially _ _ (set_workers _ ?s1) => apply (Hmove s1)
  end.

(** With one slot the counter is exact. *)
Lemma counted_serially_reachable s :
  run_threads r = 1 -> reachable net r fs0 s -> counted_serially net r s.
Proof.
  intros Hone. revert s. apply (rtc_ind_r (fun s => counted_serially net r s)).
  { split; [reflexivity|]. intros i w tmp Hi. discriminate. }
  intros s s' Hreach [t Hstep] [Hcount Hread].
  pose proof (Inv_reachable _ _ _ _ Hreach) as HI.
  pose proof (counted_reachable s Hreach) as (Hv & _ & Htmp & _).
  assert (alive s = true) as Ha.
  { destruct t; simpl in Hstep; unfold step_main, step_worker, step_aggr in Hstep;
      destruct (alive s); try reflexivity; discriminate. }
  assert (forall s1, st_workers s1 = st_workers s -> validCount s1 = validCount s ->
                     counted_serially net r s1) as Hsame.
  { intros s1 E1 E2. unfold counted_serially. rewrite E1, E2. auto. }
  assert (live_workers s <= 1) as Hlive.
  { pose proof (inv_sem _ _ _ _ HI). pose proof (inv_sem_le _ _ _ _ HI).
    pose proof (pending_sem_nonneg (st_main s)). lia. }
  destruct t as [|i|]; simpl in Hstep.
  - (* main *)
    unfold step_main in Hstep. rewrite Ha in Hstep. simpl in Hstep.
    destruct (st_main s) as [|rest|p rest|p rest| | | |] eqn:Hm.
    + destruct (run_threads r <? 0); injection Hstep as <-; apply Hsame; reflexivity.
    + destruct rest; injection Hstep as <-; apply Hsame; reflexivity.
    + destruct (sem s <? run_threads r); [|discriminate]. injection Hstep as <-.
      apply Hsame; reflexivity.
    + injection Hstep as <-.
      assert (sumZ (stored net r) (st_workers s ++ [mkWorker (length (st_workers s)) p WProbe])
              = sumZ (stored net r) (st_workers s)) as Eapp
        by (rewrite sumZ_app; simpl; unfold stored; simpl; lia).
      unfold counted_serially. simpl. rewrite Eapp.
      split; [exact Hcount|].
      intros j w' tmp Hj Hw'. apply lookup_app_Some in Hj as [Hj|[_ Hj]].
      * exact (Hread j w' tmp Hj Hw').
      * apply list_lookup_singleton_Some in Hj as [_ <-]. discriminate.
    + destruct (wg s =? 0); [|discriminate]. injection Hstep as <-.
      apply Hsame; reflexivity.
    + destruct (results_closed s); injection Hstep as <-; apply Hsame; reflexivity.
    + injection Hstep as <-. apply Hsame; reflexivity.
    + discriminate.
  - (* a worker *)
    unfold step_worker in Hstep. rewrite Ha in Hstep. simpl in Hstep.
    destruct (st_workers s !! i) as [w|] eqn:Hi; [|discriminate].
    unfold step_worker_at in Hstep.
    assert (forall s1 pc,
              st_workers s1 = st_workers s -> validCount s1 = validCount s ->
              stored net r (at_pc w pc) = stored net r w ->
              (forall tmp, pc = WStore tmp -> tmp = validCount s) ->
              counted_serially net r (set_workers (<[i := at_pc w pc]> (st_workers s1)) s1))
      as Hmove.
    { intros s1 pc E1 E2 Hst Hpc'. unfold counted_serially. simpl. rewrite E1, E2.
      rewrite (sumZ_insert _ _ _ _ _ Hi), Hst. split; [lia|].
      intros j w' tmp Hj Hw'.
      apply list_lookup_insert_Some in Hj as [(-> & <- & _)|(_ & Hj)].
      - simpl in Hw'. exact (Hpc' tmp Hw').
      - exact (Hread j w' tmp Hj Hw'). }
    destruct (w_pc w) as [|msg| |tmp| | | |] eqn:Hpc.
    + destruct (verdict_of net r w) as [msg|] eqn:Hverdict; injection Hstep as <-;
        apply_serial Hmove; auto; try discriminate;
        unfold stored; simpl; rewrite Hpc; try reflexivity.
      change (verdict_of net r (at_pc w WWgDone)) with (verdict_of net r w).
      rewrite Hverdict. reflexivity.
    + destruct (results_closed s).
      * injection Hstep as <-. apply_serial Hmove; auto; try discriminate.
        unfold stored; simpl; rewrite Hpc; reflexivity.
      * destruct (Nat.ltb _ _); [|discriminate]. injection Hstep as <-.
        apply_serial Hmove; auto; try discriminate.
        unfold stored; simpl; rewrite Hpc; reflexivity.
    + injection Hstep as <-. apply_serial Hmove; auto.
      * unfold stored; simpl; rewrite Hpc; reflexivity.
      * intros tmp [= <-]. reflexivity.
    + (* the write of the counter *)
      injection Hstep as <-.
      pose proof (Hread i w tmp Hi Hpc) as Htmp_eq.
      pose proof (inv_wf _ _ _ _ HI i w Hi) as Hwf. unfold wf_worker in Hwf.
      rewrite Hpc in Hwf.
      assert (stored net r w = 0) as Hw0 by (unfold stored; rewrite Hpc; reflexivity).
      assert (stored net r (at_pc w WWgDone) = 1) as Hw1.
      { unfold stored. simpl.
        change (verdict_of net r (at_pc w WWgDone)) with (verdict_of net r w).
        destruct (verdict_of net r w); [reflexivity | contradiction]. }
      pose proof (sumZ_insert (stored net r) (st_workers s) i w (at_pc w WWgDone) Hi) as Hsum.
      rewrite Hw0, Hw1 in Hsum.
      assert (Inv net r fs0 (set_workers (<[i:=at_pc w WWgDone]> (st_workers s))
                               (set_validCount (wrap_int (tmp + 1)) s))) as HI'.
      { apply (Inv_step net r fs0 s); [exact HI|]. exists (TWorker i). simpl.
        unfold step_worker. rewrite Ha, Hi. simpl.
        unfold step_worker_at. rewrite Hpc. reflexivity. }
      pose proof (stored_le_workers _ HI') as Hmax. simpl in Hmax.
      assert (wrap_int (tmp + 1) = tmp + 1) as Hwrap.
      { apply wrap_int_small. unfold minInt, maxInt, intBits in *. lia. }
      unfold counted_serially. simpl. rewrite Hwrap, Hsum. split; [lia|].
      intros j w' tmp' Hj Hw'.
      apply list_lookup_insert_Some in Hj as [(-> & <- & _)|(Hne & Hj)].
      * discriminate.
      * exfalso.
        assert (holds_slot w = 1) as H1 by (unfold holds_slot; rewrite Hpc; reflexivity).
        assert (holds_slot w' = 1) as H2 by (unfold holds_slot; rewrite Hw'; reflexivity).
        pose proof (sumZ_two holds_slot (st_workers s) i j w w' holds_slot_nonneg
                      Hne Hi Hj H1 H2) as Htwo.
        unfold live_workers in Hlive. lia.
    + destruct (wg s - 1 <? 0); injection Hstep as <-;
        apply_serial Hmove; auto; try discriminate;
        unfold stored; simpl; rewrite Hpc; reflexivity.
    + injection Hstep as <-. apply_serial Hmove; auto; try discriminate.
      unfold stored; simpl; rewrite Hpc; reflexivity.
    + destruct (0 <? sem s); [|discriminate]. injection Hstep as <-.
      apply_serial Hmove; auto; try discriminate.
      unfold stored; simpl; rewrite Hpc; reflexivity.
    + discriminate.
  - (* the aggregator *)
    unfold step_aggr in Hstep. rewrite Ha in Hstep. simpl in Hstep.
    destruct (st_aggr s) as [| |msg| |]; try discriminate.
    + destruct (results s); [destruct (results_closed s); [|discriminate]|];
        injection Hstep as <-; apply Hsame; reflexivity.
    + destruct (handleValidProxy (fs s) "socks5" msg); injection Hstep as <-;
        apply Hsame; reflexivity.
    + injection Hstep as <-. apply Hsame; reflexivity.
Qed.

(** X19.  Under a limit of 1 no update is lost: the probes run one after
    the other, and the total [main] prints is the number of messages
    sent. *)
Theorem serial_total_is_exact s v :
  run_threads r = 1 ->
  reachable net r fs0 s ->
  reported_total s = Some v ->
  v = Z.of_nat (length (sent_log s)).
Proof.
  intros Hone Hreach Hrep.
  destruct (counted_serially_reachable s Hone Hreach) as [Hcount _].
  destruct (counted_reachable s Hreach) as (_ & _ & _ & Htot).
  rewrite (Htot v Hrep), Hcount. exact (stored_at_exit s v Hreach Hrep).
Qed.

End Counting.

(** ** The theorems above at concrete runs *)

Lemma list_fits_two : Z.of_nat (length (run_proxies run_two)) <= maxInt.
Proof. vm_compute. discriminate. Qed.

(** [only_panic_is_negative_limit] at the end of the run of two valid
    proxies. *)
Lemma only_panic_is_negative_limit_witness :
  panicked state_lost_update = None \/
  (run_threads run_two < 0 /\
   panicked state_lost_update = Some "makechan: size out of range").
Proof.
  exact (only_panic_is_negative_limit net_all_valid run_two ∅ state_lost_update
           (after_reachable _ _ _ _)).
Defined.

(** [dispatch_in_order] at the end of the run of two valid proxies. *)
Lemma dispatch_in_order_witness :
  map w_proxy (st_workers state_lost_update) = run_proxies run_two.
Proof.
  apply (dispatch_in_order net_all_valid run_two ∅ state_lost_update
           (after_reachable _ _ _ _)).
  left. vm_compute. reflexivity.
Defined.

(** [result_file_follows_channel] at the end of a run under [https] that
    starts without files. *)
Lemma result_file_follows_channel_witness :
  exists handled,
    sent_log state_https_saved
    = handled ++ in_hand (st_aggr state_https_saved) ++ results state_https_saved /\
    file_data (fs state_https_saved) (valid_path "socks5")
    = file_data ∅ (valid_path "socks5") +:+ lines_of (before_bar <$> handled).
Proof.
  destruct (result_file_follows_channel net_all_valid run_https ∅ state_https_saved
              (after_reachable _ _ _ _)) as (handled & Hlog & _ & Hdata & _).
  exists handled. split; [exact Hlog|]. apply Hdata.
  unfold appendable. rewrite lookup_empty. exact I.
Defined.

(** [reported_total_bounds] at the end of the run that loses an update. *)
Lemma reported_total_bounds_witness :
  0 <= validCount state_lost_update <= Z.of_nat (length (sent_log state_lost_update)).
Proof.
  exact (proj1 (reported_total_bounds net_all_valid run_two ∅ list_fits_two
                  state_lost_update (after_reachable _ _ _ _))).
Defined.

(** [serial_total_is_exact] at the end of a run of two valid proxies under a
    limit of 1. *)
Lemma serial_total_is_exact_witness :
  reported_total state_serial = Some 2 /\
  2 = Z.of_nat (length (sent_log state_serial)).
Proof.
  assert (reported_total state_serial = Some 2) as Hrep by (vm_compute; reflexivity).
  split; [exact Hrep|].
  apply (serial_total_is_exact net_all_valid run_serial ∅ ltac:(vm_compute; discriminate)
           state_serial 2 eq_refl (after_reachable _ _ _ _) Hrep).
Defined.

(** ** One probe on its own *)

(** X20.  [checkProxy] run on its own for a valid proxy, the channel open
    and with room: it sends its message once, at the end of the channel,
    adds one to [validCount], takes one from the [WaitGroup] counter and
    returns without a panic. *)
Theorem checkProxy_alone_valid net r i s w msg :
  alive s = true -> st_workers s !! i = Some w -> w_pc w = WProbe ->
  verdict_of net r w = Some msg ->
  results_closed s = false -> (length (results s) < results_cap s)%nat ->
  0 < wg s -> in_int (validCount s + 1) = true ->
  exists s',
    checkProxy net r i s = Some s' /\
    results s' = results s ++ [msg] /\
    validCount s' = validCount s + 1 /\ wg s' = wg s - 1 /\
    panicked s' = None /\
    st_workers s' !! i = Some (at_pc w WBarAdd).
Proof.
  intros Halive Hi Hpc Hv Hopen Hroom Hwg Hint.
  destruct (checkProxy_valid net r i s w msg Halive Hi Hpc Hv Hopen Hroom Hwg)
    as (s' & Hrun & Hres & _ & Hcount & Hwg' & Hpanic & Hw).
  exists s'. split; [exact Hrun|]. split; [exact Hres|].
  split; [|split; [exact Hwg'|split; [|exact Hw]]].
  - rewrite Hcount. apply wrap_int_small.
    unfold in_int in Hint. apply andb_true_iff in Hint as [H1 H2]. lia.
  - rewrite Hpanic. exact (proj2 (alive_not_exit s Halive)).
Qed.

(** [checkProxy_alone_valid] for the one worker of a run, just started. *)
Lemma checkProxy_alone_valid_witness :
  exists s',
    checkProxy net_all_valid run_https 0 state_https_dispatched = Some s' /\
    results s' = ["1.2.3.4:80|3ms"] /\ validCount s' = 1.
Proof.
  destruct (checkProxy_alone_valid net_all_valid run_https 0 state_https_dispatched
              (mkWorker 0 "1.2.3.4:80" WProbe) "1.2.3.4:80|3ms"
              eq_refl eq_refl eq_refl eq_refl eq_refl
              ltac:(vm_compute; lia) ltac:(vm_compute; reflexivity) eq_refl)
    as (s' & Hrun & Hres & Hcount & _).
  exists s'. split; [exact Hrun|]. split; [exact Hres | exact Hcount].
Defined.

(** ** The configuration *)

(** X21.  [loadConfig] turns the timeout of the configuration file, a number
    of milliseconds, into a duration in nanoseconds: exactly, for every
    value up to 9223372036854 ms either side of zero (beyond that the
    product no longer fits an [int]), and 5 s when the key is not set. *)
Theorem loadConfig_timeout cfg :
  exists config,
    loadConfig (Ok cfg) = Ok config /\
    (ini_timeout cfg = None -> Timeout config = 5000000000) /\
    (forall ms, ini_timeout cfg = Some ms ->
       -9223372036854 <= ms <= 9223372036854 ->
       Timeout config = ms * 1000000 /\ Milliseconds (Timeout config) = ms).
Proof.
  eexists. split; [reflexivity|]. simpl. split.
  - intros ->. reflexivity.
  - intros ms -> Hms. simpl.
    assert (wrap_int (ms * Millisecond) = ms * 1000000) as ->.
    { unfold Millisecond. apply wrap_int_small. unfold minInt, maxInt, intBits. lia. }
    split; [reflexivity|]. unfold Milliseconds, Millisecond. apply Z.quot_mul. lia.
Qed.

(** ** A thread count out of range *)

Lemma startsRune_digit p2 p3 s :
  (forall c1 c2, isDigit c1 = true -> p2 c1 c2 = false) ->
  (forall c1 c2 c3, isDigit c1 = true -> p3 c1 c2 c3 = false) ->
  match s with
  | EmptyString => True
  | String c _ => isDigit c = true
  end ->
  startsRune isSpace1 p2 p3 s = false.
Proof.
  intros H2 H3. destruct s as [|c1 [|c2 [|c3 s3]]]; simpl; intros Hd; try reflexivity;
    rewrite ?(H2 _ _ Hd), ?(H3 _ _ _ Hd);
    (assert (isSpace1 c1 = false) as ->; [|reflexivity]);
    unfold isDigit, isSpace1 in *; destruct (N.leb_spec 48 (code c1));
      destruct (N.leb_spec (code c1) 57); try discriminate;
      destruct (N.leb_spec 9 (code c1)); destruct (N.leb_spec (code c1) 13);
      destruct (N.eqb_spec (code c1) 32); simpl; try reflexivity; lia.
Qed.

Lemma bytes_rev s : bytes (String.rev s) = List.rev (bytes s).
Proof.
  induction s as [|c s IH]; [reflexivity|].
  rewrite string_rev_cons, bytes_app, IH. reflexivity.
Qed.

Lemma isDigit_not_space c : isDigit c = true -> isSpace1 c = false.
Proof.
  unfold isDigit, isSpace1. intros H. apply andb_true_iff in H as [H1 H2].
  apply N.leb_le in H1, H2.
  destruct (N.leb_spec 9 (code c)); destruct (N.leb_spec (code c) 13);
    destruct (N.eqb_spec (code c) 32); simpl; try reflexivity; lia.
Qed.

Lemma isDigit_not_byte c n : (57 < n)%N -> isDigit c = true -> byte_eqb c n = false.
Proof.
  unfold isDigit, byte_eqb. intros Hn H. apply andb_true_iff in H as [H1 H2].
  apply N.leb_le in H1, H2. apply N.eqb_neq. lia.
Qed.

(** A text that begins and ends with a digit has nothing to trim. *)
Lemma TrimSpace_digits s :
  Forall (fun c => isDigit c = true) (bytes s) -> TrimSpace s = s.
Proof.
  intros Hd.
  assert (forall t, Forall (fun c => isDigit c = true) (bytes t) ->
            match t with EmptyString => True | String c _ => isDigit c = true end) as Hhead.
  { intros [|c t] Ht; [exact I|]. unfold bytes in Ht. simpl in Ht.
    apply Forall_cons in Ht as [Hc _]. exact Hc. }
  unfold TrimSpace.
  assert (trimLeftSpace s = s) as ->.
  { rewrite trimLeftSpace_runes. apply trimRunes_fix, startsRune_digit; [| |exact (Hhead s Hd)].
    - intros c1 c2 Hc. unfold isSpace2. rewrite (isDigit_not_byte c1 194 ltac:(lia) Hc).
      reflexivity.
    - intros c1 c2 c3 Hc. unfold isSpace3.
      rewrite (isDigit_not_byte c1 225 ltac:(lia) Hc),
        (isDigit_not_byte c1 226 ltac:(lia) Hc), (isDigit_not_byte c1 227 ltac:(lia) Hc).
      reflexivity. }
  unfold trimRightSpace.
  assert (trimLeftSpace_rev (String.rev s) = String.rev s) as ->;
    [|apply string_rev_involutive].
  rewrite trimLeftSpace_rev_runes. apply trimRunes_fix, startsRune_digit.
  - intros c1 c2 Hc. unfold isSpace2.
    rewrite (isDigit_not_byte c1 133 ltac:(lia) Hc), (isDigit_not_byte c1 160 ltac:(lia) Hc).
    apply andb_false_r.
  - intros c1 c2 c3 Hc. unfold isSpace3.
    rewrite (isDigit_not_byte c1 128 ltac:(lia) Hc), (isDigit_not_byte c1 159 ltac:(lia) Hc).
    assert (N.leb 128 (code c1) = false) as ->.
    { unfold isDigit in Hc. apply andb_true_iff in Hc as [_ H2]. apply N.leb_le in H2.
      apply N.leb_gt. lia. }
    assert (N.eqb (code c1) 168 = false) as ->
      by (apply (isDigit_not_byte c1 168); [lia | exact Hc]).
    assert (N.eqb (code c1) 169 = false) as ->
      by (apply (isDigit_not_byte c1 169); [lia | exact Hc]).
    assert (N.eqb (code c1) 175 = false) as ->
      by (apply (isDigit_not_byte c1 175); [lia | exact Hc]).
    simpl. rewrite !andb_false_r. reflexivity.
  - apply Hhead. rewrite bytes_rev. apply Forall_rev. exact Hd.
Qed.

Lemma string_of_uint_digits d :
  Forall (fun c => isDigit c = true) (bytes (NilEmpty.string_of_uint d)).
Proof.
  induction d; unfold bytes in *; simpl; [constructor | ..];
    (constructor; [reflexivity | exact IHd]).
Qed.

(** [Sscanf_d] on a run of digits: its value, when that fits an [int]. *)
Lemma Sscanf_d_digits d :
  d <> Decimal.Nil ->
  Sscanf_d (NilEmpty.string_of_uint d)
  = if in_int (Z.of_N (Pos.of_uint d)) then Some (Z.of_N (Pos.of_uint d)) else None.
Proof.
  intros Hd. unfold Sscanf_d.
  assert (exists c s, NilEmpty.string_of_uint d = String c s /\
                      N.ltb (code c) 128 = true /\ isSpace1 c = false /\
                      byte_eqb c 45 = false /\ byte_eqb c 43 = false)
    as (c & s & Hs & H1 & H2 & H3 & H4).
  { destruct d; [contradiction | ..]; simpl; do 2 eexists; repeat split; reflexivity. }
  rewrite Hs, (SkipSpace_ascii c s H1 H2), H3, H4. simpl orb. cbv iota.
  rewrite <- Hs, scanNumber_digits. simpl fst.
  rewrite Hs. cbv beta iota zeta. rewrite <- Hs.
  rewrite digits_value_of_uint. reflexivity.
Qed.

(** X22.  A reply to the thread prompt whose digits say more than the
    largest [int] is not wrapped around: the scan fails and the configured
    count is used. *)
Theorem thread_count_out_of_range config d :
  d <> Decimal.Nil ->
  maxInt < Z.of_N (Pos.of_uint d) ->
  parseThreads config (NilEmpty.string_of_uint d) = Threads config.
Proof.
  intros Hd Hbig. unfold parseThreads, promptInput.
  rewrite (TrimSpace_digits _ (string_of_uint_digits d)).
  destruct (decide (NilEmpty.string_of_uint d = "")) as [He|_].
  { destruct d; try discriminate He. contradiction. }
  rewrite (Sscanf_d_digits d Hd).
  assert (in_int (Z.of_N (Pos.of_uint d)) = false) as ->; [|reflexivity].
  unfold in_int. apply andb_false_iff. right. apply Z.leb_gt. exact Hbig.
Qed.

(** [thread_count_out_of_range] at the reply 9223372036854775808, one more
    than the largest [int]. *)
Lemma thread_count_out_of_range_witness :
  parseThreads default_config "9223372036854775808" = 10.
Proof.
  exact (thread_count_out_of_range default_config (Pos.to_uint 9223372036854775808)
           ltac:(vm_compute; discriminate) ltac:(vm_compute; reflexivity)).
Defined.

(** ** No address is saved twice *)

Lemma omap_insert_same {A B} (f : A -> option B) (l : list A) i x y :
  l !! i = Some x -> f y = f x -> omap f (<[i := y]> l) = omap f l.
Proof.
  revert i. induction l as [|a l IH]; intros [|i] Hi Hf; csimpl in *; try discriminate.
  - injection Hi as ->. rewrite Hf. reflexivity.
  - rewrite (IH i Hi Hf). reflexivity.
Qed.

Lemma omap_insert_new {A B} (f : A -> option B) (l : list A) i x y b :
  l !! i = Some x -> f x = None -> f y = Some b ->
  omap f (<[i := y]> l) ≡ₚ b :: omap f l.
Proof.
  revert i. induction l as [|a l IH]; intros [|i] Hi Hx Hy; csimpl in *; try discriminate.
  - injection Hi as ->. rewrite Hx, Hy. reflexivity.
  - specialize (IH i Hi Hx Hy). destruct (f a) as [b'|]; [|exact IH].
    rewrite IH. apply Permutation_swap.
Qed.

Section Distinct.

Variable net : Network.
Variable r : Run.
Variable fs0 : gmap string file.

Lemma sent_of_move ws i w pc :
  ws !! i = Some w -> has_sent net r (at_pc w pc) = has_sent net r w ->
  sent_of net r (<[i := at_pc w pc]> ws) = sent_of net r ws.
Proof.
  intros Hi Hs. unfold sent_of. apply (omap_insert_same _ _ _ w); [exact Hi|].
  cbv beta. rewrite Hs. reflexivity.
Qed.

(** What was sent is what the workers past their send have to send. *)
Lemma sent_log_of_workers s :
  reachable net r fs0 s -> sent_log s ≡ₚ sent_of net r (st_workers s).
Proof.
  revert s. apply (rtc_ind_r (fun s => sent_log s ≡ₚ sent_of net r (st_workers s)));
    [reflexivity|].
  intros s s' Hreach [t Hstep] IH.
  pose proof (Inv_reachable _ _ _ _ Hreach) as HI.
  assert (alive s = true) as Ha.
  { destruct t; simpl in Hstep; unfold step_main, step_worker, step_aggr in Hstep;
      destruct (alive s); try reflexivity; discriminate. }
  destruct t as [|i|]; simpl in Hstep.
  - unfold step_main in Hstep. rewrite Ha in Hstep. simpl in Hstep.
    destruct (st_main s) as [|rest|p rest|p rest| | | |] eqn:Hm;
      repeat match type of Hstep with
             | context [match ?x with _ => _ end] => destruct x
             end;
      try discriminate; injection Hstep as <-; simpl; try exact IH.
    unfold sent_of. rewrite omap_app. simpl. rewrite app_nil_r. exact IH.
  - unfold step_worker in Hstep. rewrite Ha in Hstep. simpl in Hstep.
    destruct (st_workers s !! i) as [w|] eqn:Hi; [|discriminate].
    unfold step_worker_at in Hstep.
    pose proof (inv_wf _ _ _ _ HI i w Hi) as Hwf. unfold wf_worker in Hwf.
    destruct (w_pc w) as [|msg| |tmp| | | |] eqn:Hpc.
    + destruct (verdict_of net r w) as [msg|] eqn:Hv; injection Hstep as <-; simpl;
        rewrite sent_of_move; auto; unfold has_sent; simpl; rewrite Hpc; try reflexivity.
      change (verdict_of net r (at_pc w WWgDone)) with (verdict_of net r w).
      rewrite Hv. reflexivity.
    + destruct (results_closed s).
      * injection Hstep as <-. simpl. rewrite sent_of_move; auto.
        unfold has_sent; simpl; rewrite Hpc; reflexivity.
      * destruct (Nat.ltb _ _); [|discriminate]. injection Hstep as <-. simpl.
        rewrite <- Permutation_cons_append, IH. symmetry.
        apply (omap_insert_new _ _ _ w); [exact Hi | |].
        -- unfold has_sent. rewrite Hpc. reflexivity.
        -- cbv beta. unfold has_sent. simpl.
           change (verdict_of net r (at_pc w WLoad)) with (verdict_of net r w).
           rewrite Hwf. reflexivity.
    + injection Hstep as <-. simpl. rewrite sent_of_move; auto.
      unfold has_sent; simpl; rewrite Hpc; reflexivity.
    + injection Hstep as <-. simpl. rewrite sent_of_move; auto.
      unfold has_sent; simpl; rewrite Hpc; reflexivity.
    + destruct (wg s - 1 <? 0); injection Hstep as <-; simpl;
        rewrite sent_of_move; auto; unfold has_sent; simpl; rewrite Hpc; reflexivity.
    + injection Hstep as <-. simpl. rewrite sent_of_move; auto.
      unfold has_sent; simpl; rewrite Hpc; reflexivity.
    + destruct (0 <? sem s); [|discriminate]. injection Hstep as <-. simpl.
      rewrite sent_of_move; auto. unfold has_sent; simpl; rewrite Hpc; reflexivity.
    + discriminate.
  - unfold step_aggr in Hstep. rewrite Ha in Hstep. simpl in Hstep.
    destruct (st_aggr s) as [| |msg| |]; try discriminate;
      repeat match type of Hstep with
             | context [match ?x with _ => _ end] => destruct x
             end;
      try discriminate; injection Hstep as <-; simpl; exact IH.
Qed.

Lemma verdict_before_bar w m :
  verdict_of net r w = Some m -> bar_byte ∉ bytes (w_proxy w) -> before_bar m = w_proxy w.
Proof.
  unfold verdict_of, checkProxy_verdict. intros Hv Hbar.
  destruct (url_Parse net _) as [u|]; [|discriminate].
  destruct (client_Get net _ u _ _) as [e|resp]; [discriminate|].
  destruct (Contains _ _); [|discriminate].
  injection Hv as <-. unfold before_bar.
  change (w_proxy w +:+ "|" +:+ Sprintf_d (Milliseconds (resp_elapsed resp)) +:+ "ms")
    with (w_proxy w +:+ String bar_byte (Sprintf_d (Milliseconds (resp_elapsed resp)) +:+ "ms")).
  rewrite (Cut_no_sep _ _ bar_byte Hbar). reflexivity.
Qed.

Lemma sent_of_sublist ws :
  Forall (fun w => bar_byte ∉ bytes (w_proxy w)) ws ->
  (before_bar <$> sent_of net r ws) `sublist_of` (w_proxy <$> ws).
Proof.
  induction ws as [|w ws IH]; intros Hbar; [constructor|].
  apply Forall_cons in Hbar as [Hw Hws]. specialize (IH Hws).
  unfold sent_of in *. simpl.
  destruct (decide (has_sent net r w = 1)) as [_|_]; [|apply sublist_cons, IH].
  destruct (verdict_of net r w) as [m|] eqn:Hv; [|apply sublist_cons, IH].
  simpl. rewrite (verdict_before_bar w m Hv Hw). apply sublist_skip, IH.
Qed.

(** X23.  When the list holds no address twice, as the list of
    [extractProxies] does, and no address holds a ['|'], no address is sent
    twice in a run: the addresses of the messages sent are distinct, and
    they are, up to their order, addresses of the list. *)
Theorem no_address_sent_twice s :
  NoDup (run_proxies r) ->
  Forall (fun p => bar_byte ∉ bytes p) (run_proxies r) ->
  reachable net r fs0 s ->
  NoDup (before_bar <$> sent_log s) /\
  (before_bar <$> sent_log s) ⊆+ run_proxies r.
Proof.
  intros Hnd Hbar Hreach. pose proof (Inv_reachable _ _ _ _ Hreach) as HI.
  pose proof (inv_dispatch _ _ _ _ HI) as Hdis.
  assert ((w_proxy <$> st_workers s) `sublist_of` run_proxies r) as Hpre.
  { rewrite <- Hdis. apply sublist_inserts_r. reflexivity. }
  assert (Forall (fun w => bar_byte ∉ bytes (w_proxy w)) (st_workers s)) as Hws.
  { apply Forall_forall. intros w Hw. rewrite Forall_forall in Hbar. apply Hbar.
    rewrite <- Hdis. apply elem_of_app. left. apply list_elem_of_fmap. eauto. }
  assert ((before_bar <$> sent_log s) ≡ₚ (before_bar <$> sent_of net r (st_workers s)))
    as Hperm by (apply fmap_Permutation, sent_log_of_workers, Hreach).
  pose proof (sent_of_sublist (st_workers s) Hws) as Hsub.
  assert ((before_bar <$> sent_of net r (st_workers s)) `sublist_of` run_proxies r) as Hall
    by (etransitivity; [exact Hsub | exact Hpre]).
  split.
  - rewrite Hperm. exact (sublist_NoDup _ _ Hnd Hall).
  - rewrite Hperm. apply sublist_submseteq, Hall.
Qed.

End Distinct.

(** [no_address_sent_twice] at the end of the run of two valid proxies. *)
Lemma no_address_sent_twice_witness :
  NoDup (before_bar <$> sent_log state_lost_update).
Proof.
  apply (no_address_sent_twice net_all_valid run_two ∅ state_lost_update).
  - apply (bool_decide_unpack _). vm_compute. exact I.
  - apply (bool_decide_unpack _). vm_compute. exact I.
  - apply after_reachable.
Defined.

(** ** The summary of the aggregator *)

Section Summary.

Variable net : Network.
Variable r : Run.
Variable fs0 : gmap string file.

(** The total [main] prints is the counter as it stands. *)
Lemma total_is_counter s v :
  reachable net r fs0 s -> reported_total s = Some v -> v = validCount s.
Proof.
  intros Hreach. revert s Hreach v.
  apply (rtc_ind_r (fun s => forall v, reported_total s = Some v -> v = validCount s));
    [discriminate|].
  intros s s' Hreach [t Hstep] IH v Hv.
  pose proof (Inv_reachable _ _ _ _ Hreach) as HI.
  assert (alive s = true) as Ha.
  { destruct t; simpl in Hstep; unfold step_main, step_worker, step_aggr in Hstep;
      destruct (alive s); try reflexivity; discriminate. }
  assert (reported_total s = None) as Hnone.
  { destruct (reported_total s) as [v0|] eqn:Hv0; [|reflexivity].
    destruct (inv_total _ _ _ _ HI v0 Hv0) as [Hexit _].
    destruct (alive_not_exit s Ha) as [Hne _]. contradiction. }
  destruct t as [|i|]; simpl in Hstep.
  - unfold step_main in Hstep. rewrite Ha in Hstep. simpl in Hstep.
    destruct (st_main s) as [|rest|p rest|p rest| | | |] eqn:Hm;
      repeat match type of Hstep with
             | context [match ?x with _ => _ end] => destruct x
             end;
      try discriminate; injection Hstep as <-; simpl in Hv; simpl; congruence.
  - unfold step_worker in Hstep. rewrite Ha in Hstep. simpl in Hstep.
    destruct (st_workers s !! i) as [w|]; [|discriminate].
    unfold step_worker_at in Hstep.
    destruct (w_pc w);
      repeat match type of Hstep with
             | context [match ?x with _ => _ end] =>
                 lazymatch x with
                 | context [match _ with _ => _ end] => fail
                 | _ => destruct x
                 end
             end;
      try discriminate; injection Hstep as <-; simpl in Hv; congruence.
  - unfold step_aggr in Hstep. rewrite Ha in Hstep. simpl in Hstep.
    destruct (st_aggr s);
      repeat match type of Hstep with
             | context [match ?x with _ => _ end] =>
                 lazymatch x with
                 | context [match _ with _ => _ end] => fail
                 | _ => destruct x
                 end
             end;
      try discriminate; injection Hstep as <-; simpl in Hv; congruence.
Qed.

Lemma summary_ok_reachable s : reachable net r fs0 s -> summary_ok s.
Proof.
  revert s. apply (rtc_ind_r (fun s => summary_ok s)); [intros v; discriminate|].
  intros s s' Hreach [t Hstep] IH v Hv.
  pose proof (Inv_reachable _ _ _ _ Hreach) as HI.
  destruct (saved_so_far_reachable net r fs0 s Hreach) as (handled & _ & _ & Hset & Hdone).
  assert (alive s = true) as Ha.
  { destruct t; simpl in Hstep; unfold step_main, step_worker, step_aggr in Hstep;
      destruct (alive s); try reflexivity; discriminate. }
  destruct t as [|i|]; simpl in Hstep.
  - (* main *)
    assert (reported_saved s' = reported_saved s /\ validCount s' = validCount s /\
            (st_main s <> MSetup -> st_aggr s' = st_aggr s)) as (E1 & E2 & E3).
    { unfold step_main in Hstep. rewrite Ha in Hstep. simpl in Hstep.
      destruct (st_main s) as [|rest|p rest|p rest| | | |] eqn:Hm;
        repeat match type of Hstep with
               | context [match ?x with _ => _ end] => destruct x
               end;
        try discriminate; injection Hstep as <-; simpl;
        (split; [reflexivity|]; split; [reflexivity|]; intros Hne; congruence). }
    rewrite E1 in Hv. destruct (IH v Hv) as [Hag ->].
    assert (st_main s <> MSetup) as Hne
      by (intros Hm; rewrite (Hset Ha Hm) in Hag; discriminate).
    rewrite (E3 Hne), E2. auto.
  - (* a worker *)
    assert (reported_saved s' = reported_saved s /\ st_aggr s' = st_aggr s /\
            ((forall j w, st_workers s !! j = Some w -> not_done w = 0) ->
             validCount s' = validCount s)) as (E1 & E2 & E3).
    { unfold step_worker in Hstep. rewrite Ha in Hstep. simpl in Hstep.
      destruct (st_workers s !! i) as [w|] eqn:Hi; [|discriminate].
      unfold step_worker_at in Hstep.
      destruct (w_pc w) eqn:Hpc;
        repeat match type of Hstep with
               | context [match ?x with _ => _ end] =>
                   lazymatch x with
                   | context [match _ with _ => _ end] => fail
                   | _ => destruct x
                   end
               end;
        try discriminate; injection Hstep as <-; simpl;
        (split; [reflexivity|]; split; [reflexivity|]; intros Hall; try reflexivity).
      specialize (Hall i w Hi). unfold not_done in Hall. rewrite Hpc in Hall. discriminate. }
    rewrite E1 in Hv. destruct (IH v Hv) as [Hag ->]. rewrite E2.
    split; [exact Hag|]. symmetry. apply E3.
    destruct (Hdone (or_intror Hag)) as [_ Hclosed].
    exact (proj2 (closed_after_all_done net r fs0 s Hreach Hclosed)).
  - (* the aggregator *)
    unfold step_aggr in Hstep. rewrite Ha in Hstep. simpl in Hstep.
    destruct (st_aggr s) as [| |msg| |] eqn:Hag; try discriminate.
    + destruct (results s); [destruct (results_closed s); [|discriminate]|];
        injection Hstep as <-; simpl in Hv; destruct (IH v Hv) as [Hex _]; congruence.
    + destruct (handleValidProxy (fs s) "socks5" msg); injection Hstep as <-;
        simpl in Hv; destruct (IH v Hv) as [Hex _]; congruence.
    + injection Hstep as <-. simpl in *. injection Hv as <-. auto.
Qed.

(** X24.  The aggregator prints its summary only when the channel is closed
    and empty and every message sent is saved; the number it prints is the
    counter, the number [main] prints as its total. *)
Theorem summary_after_all_saved s v :
  reachable net r fs0 s ->
  reported_saved s = Some v ->
  st_aggr s = AExit /\ results s = [] /\ results_closed s = true /\
  v = validCount s /\
  (forall total, reported_total s = Some total -> total = v) /\
  (appendable fs0 (valid_path "socks5") ->
     file_data (fs s) (valid_path "socks5")
     = file_data fs0 (valid_path "socks5") +:+ lines_of (before_bar <$> sent_log s)).
Proof.
  intros Hreach Hv.
  destruct (summary_ok_reachable s Hreach v Hv) as [Hag ->].
  destruct (saved_so_far_reachable net r fs0 s Hreach) as (handled & Hlog & Hfs & _ & Hdone).
  destruct (Hdone (or_intror Hag)) as [Hres Hclosed].
  split; [exact Hag|]. split; [exact Hres|]. split; [exact Hclosed|].
  split; [reflexivity|]. split.
  - intros total Htotal. exact (total_is_counter s total Hreach Htotal).
  - intros Happ. rewrite Hlog, Hag, Hres. simpl. rewrite app_nil_r, Hfs.
    exact (proj1 (save_each_data fs0 "socks5" _ Happ)).
Qed.

End Summary.

(** [summary_after_all_saved] at the end of a run in which the aggregator
    prints its summary. *)
Lemma summary_after_all_saved_witness :
  reported_saved state_https_summary = Some 1 /\
  st_aggr state_https_summary = AExit /\
  results state_https_summary = [].
Proof.
  assert (reported_saved state_https_summary = Some 1) as Hsaved
    by (vm_compute; reflexivity).
  split; [exact Hsaved|].
  destruct (summary_after_all_saved net_all_valid run_https ∅ state_https_summary 1
              (after_reachable _ _ _ _) Hsaved) as (Hag & Hres & _).
  split; [exact Hag | exact Hres].
Defined.

(** ** The run of the other variant *)

Section SecondVariantSchedules.

Variable net : Network.
Variable r : Run.

Lemma second_run_schedule_reachable sched s s' :
  SecondVariantRun.run_schedule net r sched s = Some s' ->
  rtc (SecondVariantRun.step net r) s s'.
Proof.
  revert s. induction sched as [|t sched IH]; intros s Hrun; simpl in Hrun.
  - injection Hrun as <-. apply rtc_refl.
  - destruct (SecondVariantRun.step_of net r t s) as [s1|] eqn:Hstep; [|discriminate].
    eapply rtc_l; [exists t; exact Hstep | apply IH, Hrun].
Qed.

Lemma second_after_reachable sched fs0 :
  SecondVariantRun.reachable net r fs0 (SecondVariantRun.after net r sched fs0).
Proof.
  unfold SecondVariantRun.after, SecondVariantRun.reachable.
  destruct (SecondVariantRun.run_schedule net r sched (SecondVariantRun.init fs0))
    as [s|] eqn:Hrun; simpl.
  - eapply second_run_schedule_reachable, Hrun.
  - apply rtc_refl.
Qed.

Lemma second_step_alive t s s' :
  SecondVariantRun.step_of net r t s = Some s' -> SecondVariantRun.alive s = true.
Proof.
  destruct t; simpl;
    unfold SecondVariantRun.step_main, SecondVariantRun.step_worker,
      SecondVariantRun.step_aggr, SecondVariantRun.step_closer,
      SecondVariantRun.step_signal;
    destruct (SecondVariantRun.alive s); try reflexivity; discriminate.
Qed.

End SecondVariantSchedules.

Section SecondVariantInvariant.

Import SecondVariantRun.

Variable net : Network.
Variable r : Run.
Variable fs0 : gmap string file.

Lemma past_send_nonneg w : 0 <= past_send w.
Proof. unfold past_send. destruct (w_pc w); lia. Qed.

Lemma past_send_at_send w : past_send w + at_send w <= 1.
Proof. unfold past_send, at_send. destruct (w_pc w); lia. Qed.

Lemma second_Inv_init : Inv r (init fs0).
Proof. constructor; simpl; try reflexivity; try lia; congruence. Qed.

Lemma second_Inv_step s s' : Inv r s -> step net r s s' -> Inv r s'.
Proof.
  intros [Hsem Hle Hdis Hcap Hsent Hbuf] [t Hstep].
  pose proof (second_step_alive net r t s s' Hstep) as Ha.
  unfold live_workers in *.
  destruct t as [|i| | |]; simpl in Hstep.
  - (* main *)
    unfold step_main in Hstep. rewrite Ha in Hstep. simpl in Hstep.
    destruct (st_main s) as [|rest|p rest|p rest| | |msg| | |] eqn:Hm; simpl in *.
    + destruct (run_threads r <? 0); injection Hstep as <-;
        constructor; unfold live_workers; simpl; rewrite ?Hm; simpl; auto; try lia;
        try congruence.
    + destruct rest; injection Hstep as <-;
        constructor; unfold live_workers; simpl; auto; try lia; try congruence.
    + destruct (sem s <? run_threads r) eqn:Hlt; [|discriminate]. injection Hstep as <-.
      constructor; unfold live_workers; simpl; auto; try lia; try congruence.
    + injection Hstep as <-.
      constructor; unfold live_workers; simpl; auto; try lia; try congruence.
      * rewrite sumZ_app. simpl. unfold holds_slot at 2. simpl. lia.
      * rewrite List.map_app, <- app_assoc. exact Hdis.
      * rewrite sumZ_app. simpl. unfold past_send at 2. simpl. lia.
    + injection Hstep as <-.
      constructor; unfold live_workers; simpl; auto; try lia; try congruence.
    + destruct (results s) as [|m rest] eqn:Hres.
      * destruct (results_closed s); [|discriminate]. injection Hstep as <-.
        constructor; unfold live_workers; simpl; rewrite ?Hres; simpl; auto; try lia;
          try congruence.
      * injection Hstep as <-.
        constructor; unfold live_workers; simpl; auto; try lia; try congruence.
        simpl in Hbuf. lia.
    + injection Hstep as <-.
      constructor; unfold live_workers; simpl; auto; try lia; try congruence.
    + injection Hstep as <-.
      constructor; unfold live_workers; simpl; auto; try lia; try congruence.
    + destruct (signalChan s); [discriminate|]. injection Hstep as <-.
      constructor; unfold live_workers; simpl; auto; try lia; try congruence.
    + discriminate.
  - (* a worker *)
    unfold step_worker in Hstep. rewrite Ha in Hstep. simpl in Hstep.
    destruct (st_workers s !! i) as [w|] eqn:Hi; [|discriminate].
    unfold step_worker_at in Hstep.
    assert (forall pc, holds_slot (at_pc w pc) = holds_slot (mkWorker 0 "" pc)) as Hh
      by reflexivity.
    assert (forall pc, past_send (at_pc w pc) = past_send (mkWorker 0 "" pc)) as Hp
      by reflexivity.
    assert (holds_slot w = holds_slot (mkWorker 0 "" (w_pc w))) as Hhw by reflexivity.
    assert (past_send w = past_send (mkWorker 0 "" (w_pc w))) as Hpw by reflexivity.
    assert (st_main s <> MSetup) as Hmain.
    { intros Hm. rewrite Hm in Hdis. simpl in Hdis. apply (f_equal length) in Hdis.
      rewrite length_app, length_map in Hdis. apply lookup_lt_Some in Hi. lia. }
    pose proof (sumZ_insert holds_slot (st_workers s) i w) as Hins1.
    pose proof (sumZ_insert past_send (st_workers s) i w) as Hins2.
    destruct (w_pc w) as [|msg| |tmp| | | |] eqn:Hpc;
      repeat match type of Hstep with
             | context [match ?x with _ => _ end] =>
                 lazymatch x with
                 | context [match _ with _ => _ end] => fail
                 | _ => destruct x eqn:?
                 end
             end;
      try discriminate; injection Hstep as <-;
      constructor; unfold live_workers; simpl;
      rewrite ?(Hins1 _ Hi), ?(Hins2 _ Hi), ?Hh, ?Hp, ?Hhw, ?Hpw, ?length_app;
      rewrite ?(workers_insert_proxy _ _ _ _ Hi);
      cbv [holds_slot past_send w_pc] in *; simpl length in *; auto; try lia.
  - (* the goroutine of handleExit *)
    unfold step_aggr in Hstep. rewrite Ha in Hstep. simpl in Hstep.
    destruct (st_aggr s) as [| |msg| |] eqn:Hag; try discriminate.
    + destruct (results s) as [|m rest] eqn:Hres.
      * destruct (results_closed s); [|discriminate]. injection Hstep as <-.
        constructor; unfold live_workers; simpl; rewrite ?Hres; simpl; auto; lia.
      * injection Hstep as <-.
        constructor; unfold live_workers; simpl; auto; try lia.
        simpl in Hbuf. lia.
    + injection Hstep as <-. constructor; unfold live_workers; simpl; auto.
    + injection Hstep as <-. constructor; unfold live_workers; simpl; auto.
  - (* the closing goroutine *)
    unfold step_closer in Hstep. rewrite Ha in Hstep. simpl in Hstep.
    destruct (st_closer s); try discriminate.
    + destruct (wg s =? 0); [|discriminate]. injection Hstep as <-.
      constructor; unfold live_workers; simpl; auto.
    + destruct (results_closed s); injection Hstep as <-;
        constructor; unfold live_workers; simpl; auto.
  - (* a signal *)
    unfold step_signal in Hstep. rewrite Ha in Hstep. simpl in Hstep.
    destruct (st_main s) eqn:Hm; try discriminate; injection Hstep as <-;
      constructor; unfold live_workers; simpl; rewrite ?Hm; simpl; auto.
Qed.

Lemma second_Inv_reachable s : reachable net r fs0 s -> Inv r s.
Proof.
  revert s. apply (rtc_ind_r (fun s => Inv r s)); [apply second_Inv_init|].
  intros s s' _ Hstep HI. exact (second_Inv_step s s' HI Hstep).
Qed.

(** X25.  The other variant keeps the admission gate and the room in its
    result channel as [proxy_checker.go] does: under a limit of at least 1
    no more than that many workers are between the acquisition of their slot
    and its release, the channel has the capacity of the list, and a worker
    about to send finds room in it. *)
Theorem second_variant_gate s :
  1 <= run_threads r ->
  reachable net r fs0 s ->
  live_workers s <= run_threads r /\
  sem s <= run_threads r /\
  (st_main s <> MSetup -> results_cap s = length (run_proxies r)) /\
  (forall i w m, st_workers s !! i = Some w -> w_pc w = WSend m ->
     (length (results s) < results_cap s)%nat).
Proof.
  intros Hthreads Hreach.
  destruct (second_Inv_reachable s Hreach) as [Hsem Hle Hdis Hcap Hsent Hbuf].
  assert (0 <= pending_sem (st_main s)) as Hp by (destruct (st_main s); simpl; lia).
  split; [lia|]. split; [lia|]. split; [exact Hcap|].
  intros i w m Hi Hpc.
  assert (st_main s <> MSetup) as Hmain.
  { intros Hm. rewrite Hm in Hdis. simpl in Hdis. apply (f_equal length) in Hdis.
    rewrite length_app, length_map in Hdis. apply lookup_lt_Some in Hi. lia. }
  rewrite (Hcap Hmain).
  pose proof (sumZ_pair_le_length past_send at_send (st_workers s) past_send_at_send) as Hpair.
  pose proof (sumZ_lookup_le at_send _ _ _ at_send_nonneg Hi) as Hat.
  assert (at_send w = 1) as Hw by (unfold at_send; rewrite Hpc; reflexivity).
  apply (f_equal length) in Hdis. rewrite length_app, length_map in Hdis. lia.
Qed.

End SecondVariantInvariant.

(** [second_variant_gate] in a run of the other variant with two valid
    proxies. *)
Lemma second_variant_gate_witness :
  SecondVariantRun.live_workers SecondVariantRun.state_split
  <= run_threads SecondVariantRun.run_split.
Proof.
  apply (second_variant_gate net_all_valid SecondVariantRun.run_split ∅
           SecondVariantRun.state_split ltac:(vm_compute; discriminate)
           (second_after_reachable _ _ _ _)).
Defined.

(** *** The two receivers *)

Lemma save_pairs_app fs saves more :
  SecondVariantRun.save_pairs fs (saves ++ more)
  = SecondVariantRun.save_pairs (SecondVariantRun.save_pairs fs saves) more.
Proof. unfold SecondVariantRun.save_pairs. apply foldl_app. Qed.

(** Each file gets the addresses saved under its protocol, in the order of
    the saves. *)
Lemma save_pairs_data fs saves protocol :
  appendable fs (valid_path protocol) ->
  file_data (SecondVariantRun.save_pairs fs saves) (valid_path protocol)
  = file_data fs (valid_path protocol)
    +:+ lines_of (snd <$> filter (fun sp => fst sp = protocol) saves) /\
  appendable (SecondVariantRun.save_pairs fs saves) (valid_path protocol).
Proof.
  revert fs. induction saves as [|[q p] saves IH]; intros fs Hfs.
  - simpl. rewrite append_nil_r. auto.
  - change (SecondVariantRun.save_pairs fs ((q, p) :: saves))
      with (SecondVariantRun.save_pairs (fst (saveValidProxy fs q p)) saves).
    destruct (decide (q = protocol)) as [->|Hne].
    + rewrite filter_cons_True by reflexivity.
      assert (file_data (fst (saveValidProxy fs protocol p)) (valid_path protocol)
              = file_data fs (valid_path protocol) +:+ p +:+ String newline "" /\
              appendable (fst (saveValidProxy fs protocol p)) (valid_path protocol))
        as [Hd Ha].
      { unfold appendable, file_data, saveValidProxy in *.
        destruct (fs !! valid_path protocol) as [f|] eqn:Hf.
        - rewrite Hfs. simpl. rewrite lookup_insert_eq. auto.
        - simpl. rewrite lookup_insert_eq. auto. }
      destruct (IH _ Ha) as [Hd' Ha']. split; [|exact Ha'].
      rewrite Hd', Hd. simpl. rewrite !append_assoc. reflexivity.
    + rewrite filter_cons_False by exact Hne.
      assert (fst (saveValidProxy fs q p) !! valid_path protocol = fs !! valid_path protocol)
        as Hframe.
      { apply saveValidProxy_frame. intros Heq. apply Hne. symmetry.
        exact (valid_path_inj _ _ Heq). }
      assert (appendable (fst (saveValidProxy fs q p)) (valid_path protocol)) as Ha
        by (unfold appendable in *; rewrite Hframe; exact Hfs).
      destruct (IH _ Ha) as [Hd' Ha']. split; [|exact Ha'].
      rewrite Hd'. unfold file_data. rewrite Hframe. reflexivity.
Qed.

Section SecondVariantReceivers.

Import SecondVariantRun.

Variable net : Network.
Variable r : Run.
Variable fs0 : gmap string file.

Lemma saved_by_both_reachable s :
  reachable net r fs0 s -> exists saves, saved_by_both r fs0 s saves.
Proof.
  revert s. apply (rtc_ind_r (fun s => exists saves, saved_by_both r fs0 s saves)).
  { exists []. split; [reflexivity|]. split; [reflexivity|]. split; [constructor|].
    reflexivity. }
  intros s s' _ [t Hstep] (saves & Hfs & Hlog & Hprot & Hset).
  pose proof (second_step_alive net r t s s' Hstep) as Ha. specialize (Hset Ha).
  assert (forall s1 : State,
            fs s1 = fs s -> sent_log s1 = sent_log s -> results s1 = results s ->
            main_in_hand (st_main s1) = main_in_hand (st_main s) ->
            st_aggr s1 = st_aggr s ->
            (alive s1 = true -> st_main s1 = MSetup -> st_main s = MSetup) ->
            saved_by_both r fs0 s1 saves) as Hsame.
  { intros s1 E1 E2 E3 E4 E5 E6. unfold saved_by_both. rewrite E1, E2, E3, E4, E5.
    split; [exact Hfs|]. split; [exact Hlog|]. split; [exact Hprot|]. auto. }
  destruct t as [|i| | |]; simpl in Hstep.
  - (* main *)
    unfold step_main in Hstep. rewrite Ha in Hstep. simpl in Hstep.
    destruct (st_main s) as [|rest|p rest|p rest| | |msg| | |] eqn:Hm.
    + exists saves. rewrite (Hset eq_refl) in Hlog.
      destruct (run_threads r <? 0); injection Hstep as <-;
        unfold saved_by_both; simpl; rewrite ?Hm; simpl in *;
        (split; [exact Hfs|]; split; [exact Hlog|]; split; [exact Hprot|];
         intros Hal Hm'; first [discriminate Hal | discriminate Hm']).
    + exists saves.
      destruct rest; injection Hstep as <-; apply Hsame; try reflexivity;
        simpl; intros _ Hm'; discriminate Hm'.
    + exists saves. destruct (sem s <? run_threads r); [|discriminate].
      injection Hstep as <-. apply Hsame; try reflexivity.
      simpl; intros _ Hm'; discriminate Hm'.
    + exists saves. injection Hstep as <-. apply Hsame; try reflexivity.
      simpl; intros _ Hm'; discriminate Hm'.
    + exists saves. injection Hstep as <-. apply Hsame; try reflexivity.
      simpl; intros _ Hm'; discriminate Hm'.
    + destruct (results s) as [|m rest] eqn:Hres.
      * exists saves. destruct (results_closed s); [|discriminate].
        injection Hstep as <-. apply Hsame; try reflexivity; simpl; auto.
        intros _ Hm'; discriminate Hm'.
      * exists saves. injection Hstep as <-. unfold saved_by_both. simpl.
        split; [exact Hfs|]. split; [|split; [exact Hprot | intros _ Hm'; discriminate Hm']].
        rewrite Hlog. simpl. apply Permutation_app_head.
        symmetry. apply (Permutation_middle (in_hand (st_aggr s)) rest m).
    + exists (saves ++ [(run_protocol r, msg)]). injection Hstep as <-.
      unfold saved_by_both. simpl.
      split; [rewrite save_pairs_app, <- Hfs; reflexivity|].
      split; [|split; [|intros _ Hm'; discriminate Hm']].
      * rewrite Hlog, fmap_app, <- app_assoc. reflexivity.
      * apply Forall_app. split; [exact Hprot|]. constructor; [left; reflexivity | constructor].
    + exists saves. injection Hstep as <-. apply Hsame; try reflexivity.
      simpl; intros _ Hm'; discriminate Hm'.
    + exists saves. destruct (signalChan s); [discriminate|]. injection Hstep as <-.
      apply Hsame; try reflexivity. simpl; intros _ Hm'; discriminate Hm'.
    + discriminate.
  - (* a worker *)
    exists saves.
    unfold step_worker in Hstep. rewrite Ha in Hstep. simpl in Hstep.
    destruct (st_workers s !! i) as [w|] eqn:Hi; [|discriminate].
    unfold step_worker_at in Hstep.
    destruct (w_pc w) as [|msg| |tmp| | | |] eqn:Hpc.
    + destruct (verdict_of net r w); injection Hstep as <-; apply Hsame; auto.
    + destruct (results_closed s).
      * injection Hstep as <-. apply Hsame; auto.
      * destruct (Nat.ltb _ _); [|discriminate]. injection Hstep as <-.
        unfold saved_by_both. simpl.
        split; [exact Hfs|]. split; [|split; [exact Hprot | intros _; exact Hset]].
        rewrite Hlog, <- !app_assoc. reflexivity.
    + injection Hstep as <-. apply Hsame; auto.
    + injection Hstep as <-. apply Hsame; auto.
    + destruct (wg s - 1 <? 0); injection Hstep as <-; apply Hsame; auto.
    + injection Hstep as <-. apply Hsame; auto.
    + destruct (0 <? sem s); [|discriminate]. injection Hstep as <-. apply Hsame; auto.
    + discriminate.
  - (* the goroutine of handleExit *)
    unfold step_aggr in Hstep. rewrite Ha in Hstep. simpl in Hstep.
    assert (st_aggr s <> ANotStarted -> st_main s <> MSetup) as Hstarted
      by (intros Hne Hm; exact (Hne (Hset Hm))).
    destruct (st_aggr s) as [| |msg| |] eqn:Hag; try discriminate;
      specialize (Hstarted ltac:(discriminate)).
    + destruct (results s) as [|m rest] eqn:Hres.
      * exists saves. destruct (results_closed s); [|discriminate].
        injection Hstep as <-. unfold saved_by_both. simpl. rewrite Hres.
        split; [exact Hfs|]. split; [exact Hlog|]. split; [exact Hprot|].
        intros _ Hm; contradiction.
      * exists saves. injection Hstep as <-. unfold saved_by_both. simpl.
        split; [exact Hfs|]. split; [|split; [exact Hprot | intros _ Hm; contradiction]].
        rewrite Hlog. simpl. reflexivity.
    + exists (saves ++ [("socks5", msg)]). injection Hstep as <-.
      unfold saved_by_both. simpl.
      split; [rewrite save_pairs_app, <- Hfs; reflexivity|].
      split; [|split; [|intros _ Hm; contradiction]].
      * rewrite Hlog, fmap_app, <- app_assoc. simpl.
        apply Permutation_app_head. symmetry.
        apply (Permutation_middle (main_in_hand (st_main s)) (results s) msg).
      * apply Forall_app. split; [exact Hprot|]. constructor; [right; reflexivity | constructor].
    + exists saves. injection Hstep as <-. unfold saved_by_both. simpl.
      split; [exact Hfs|]. split; [exact Hlog|]. split; [exact Hprot|].
      intros _ Hm; contradiction.
  - (* the closing goroutine *)
    exists saves.
    unfold step_closer in Hstep. rewrite Ha in Hstep. simpl in Hstep.
    destruct (st_closer s); try discriminate.
    + destruct (wg s =? 0); [|discriminate]. injection Hstep as <-. apply Hsame; auto.
    + destruct (results_closed s); injection Hstep as <-; apply Hsame; auto.
  - (* a signal *)
    exists saves.
    unfold step_signal in Hstep. rewrite Ha in Hstep. simpl in Hstep.
    destruct (st_main s) eqn:Hm; try discriminate; injection Hstep as <-;
      apply Hsame; simpl; rewrite ?Hm; auto.
Qed.

(** X26.  In the other variant [main] and the goroutine of [handleExit]
    both receive from [results].  Every message received is saved once, by
    the receiver that got it: by [main] under the protocol of the run, by
    the goroutine under "socks5".  Each of the two files holds what it held
    before followed by the addresses saved under its protocol, in the order
    of the saves; under a protocol other than "socks5" the valid addresses
    are thus divided between two files. *)
Theorem second_variant_two_receivers s :
  reachable net r fs0 s ->
  exists saves,
    sent_log s ≡ₚ (snd <$> saves) ++ main_in_hand (st_main s) ++ in_hand (st_aggr s)
                   ++ results s /\
    Forall (fun sp => fst sp = run_protocol r \/ fst sp = "socks5") saves /\
    (forall protocol, appendable fs0 (valid_path protocol) ->
       file_data (fs s) (valid_path protocol)
       = file_data fs0 (valid_path protocol)
         +:+ lines_of (snd <$> filter (fun sp => fst sp = protocol) saves)) /\
    (forall path, path <> valid_path (run_protocol r) -> path <> valid_path "socks5" ->
       fs s !! path = fs0 !! path).
Proof.
  intros Hreach.
  destruct (saved_by_both_reachable s Hreach) as (saves & Hfs & Hlog & Hprot & _).
  exists saves. split; [exact Hlog|]. split; [exact Hprot|]. split.
  - intros protocol Happ. rewrite Hfs.
    exact (proj1 (save_pairs_data fs0 saves protocol Happ)).
  - intros path Hp Hs. rewrite Hfs. clear Hfs Hlog. revert Hprot.
    generalize fs0 as fs1. induction saves as [|[q p] saves IH]; intros fs1 Hprot;
      [reflexivity|].
    apply Forall_cons in Hprot as [Hq Hrest].
    change (save_pairs fs1 ((q, p) :: saves))
      with (save_pairs (fst (saveValidProxy fs1 q p)) saves).
    rewrite (IH _ Hrest). apply saveValidProxy_frame.
    simpl in Hq. destruct Hq as [->| ->]; assumption.
Qed.

(** X27.  In the other variant [main] returns only after a signal was
    delivered, and only after it has printed its total: without SIGINT or
    SIGTERM the program stays at line 237 when its work is done.  A signal
    delivered earlier is kept in [signalChan], one at most. *)
Theorem second_variant_waits_for_signal s :
  reachable net r fs0 s ->
  (signalChan s <= signals s)%nat /\ (signalChan s <= 1)%nat /\
  (st_main s = MExit -> (1 <= signals s)%nat) /\
  (st_main s = MSignal \/ st_main s = MExit -> exists total, reported_total s = Some total).
Proof.
  revert s.
  apply (rtc_ind_r (fun s =>
    (signalChan s <= signals s)%nat /\ (signalChan s <= 1)%nat /\
    (st_main s = MExit -> (1 <= signals s)%nat) /\
    (st_main s = MSignal \/ st_main s = MExit -> exists total, reported_total s = Some total))).
  { simpl. repeat split; try lia; try discriminate. intros [H|H]; discriminate. }
  intros s s' _ [t Hstep] (Hbuf & Hone & Hexit & Htotal).
  pose proof (second_step_alive net r t s s' Hstep) as Ha.
  assert (st_main s <> MExit) as Hne.
  { intros Hm. unfold alive in Ha. rewrite Hm in Ha. destruct (panicked s); discriminate. }
  assert (forall s1 : State,
            signalChan s1 = signalChan s -> signals s1 = signals s ->
            reported_total s1 = reported_total s ->
            (st_main s1 = MExit -> st_main s = MExit) ->
            (st_main s1 = MSignal -> st_main s = MSignal) ->
            (signalChan s1 <= signals s1)%nat /\ (signalChan s1 <= 1)%nat /\
            (st_main s1 = MExit -> (1 <= signals s1)%nat) /\
            (st_main s1 = MSignal \/ st_main s1 = MExit ->
             exists total, reported_total s1 = Some total)) as Hsame.
  { intros s1 E1 E2 E3 E4 E5. rewrite E1, E2, E3.
    split; [exact Hbuf|]. split; [exact Hone|]. split; [auto|].
    intros [H|H]; auto. }
  destruct t as [|i| | |]; simpl in Hstep.
  - unfold step_main in Hstep. rewrite Ha in Hstep. simpl in Hstep.
    destruct (st_main s) as [|rest|p rest|p rest| | |msg| | |] eqn:Hm.
    + destruct (run_threads r <? 0); injection Hstep as <-;
        apply Hsame; simpl; rewrite ?Hm; auto; discriminate.
    + destruct rest; injection Hstep as <-; apply Hsame; simpl; auto; discriminate.
    + destruct (sem s <? run_threads r); [|discriminate]. injection Hstep as <-.
      apply Hsame; simpl; auto; discriminate.
    + injection Hstep as <-. apply Hsame; simpl; auto; discriminate.
    + injection Hstep as <-. apply Hsame; simpl; auto; discriminate.
    + destruct (results s); [destruct (results_closed s); [|discriminate]|];
        injection Hstep as <-; apply Hsame; simpl; auto; discriminate.
    + injection Hstep as <-. apply Hsame; simpl; auto; discriminate.
    + injection Hstep as <-. simpl.
      split; [exact Hbuf|]. split; [exact Hone|]. split; [discriminate|]. eauto.
    + destruct (signalChan s) as [|n] eqn:Hchan; [discriminate|]. injection Hstep as <-.
      simpl. split; [lia|]. split; [lia|]. split; [lia|]. intros _. apply Htotal. auto.
    + contradiction.
  - pose proof (Hsame s') as Hs'.
    unfold step_worker in Hstep. rewrite Ha in Hstep. simpl in Hstep.
    destruct (st_workers s !! i) as [w|]; [|discriminate].
    unfold step_worker_at in Hstep.
    destruct (w_pc w);
      repeat match type of Hstep with
             | context [match ?x with _ => _ end] =>
                 lazymatch x with
                 | context [match _ with _ => _ end] => fail
                 | _ => destruct x
                 end
             end;
      try discriminate; injection Hstep as <-; apply Hsame; simpl; auto.
  - unfold step_aggr in Hstep. rewrite Ha in Hstep. simpl in Hstep.
    destruct (st_aggr s);
      repeat match type of Hstep with
             | context [match ?x with _ => _ end] =>
                 lazymatch x with
                 | context [match _ with _ => _ end] => fail
                 | _ => destruct x
                 end
             end;
      try discriminate; injection Hstep as <-; apply Hsame; simpl; auto.
  - unfold step_closer in Hstep. rewrite Ha in Hstep. simpl in Hstep.
    destruct (st_closer s);
      repeat match type of Hstep with
             | context [match ?x with _ => _ end] =>
                 lazymatch x with
                 | context [match _ with _ => _ end] => fail
                 | _ => destruct x
                 end
             end;
      try discriminate; injection Hstep as <-; apply Hsame; simpl; auto.
  - unfold step_signal in Hstep. rewrite Ha in Hstep. simpl in Hstep.
    destruct (st_main s) eqn:Hm; try discriminate; injection Hstep as <-; simpl;
      rewrite ?Hm; (split; [lia|]; split; [lia|]; split; [intros _; lia|]);
      intros [H|H]; try discriminate; apply Htotal; auto.
Qed.

End SecondVariantReceivers.

(** [second_variant_two_receivers] in a run under [https]: one address in
    each of the two files. *)
Lemma second_variant_two_receivers_witness :
  file_data (SecondVariantRun.fs SecondVariantRun.state_split) (valid_path "https")
  = "a:1" +:+ String newline "" /\
  file_data (SecondVariantRun.fs SecondVariantRun.state_split) (valid_path "socks5")
  = "b:2" +:+ String newline "" /\
  exists saves : list (string * string),
    SecondVariantRun.sent_log SecondVariantRun.state_split
    ≡ₚ (snd <$> saves)
       ++ SecondVariantRun.main_in_hand (SecondVariantRun.st_main SecondVariantRun.state_split)
       ++ in_hand (SecondVariantRun.st_aggr SecondVariantRun.state_split)
       ++ SecondVariantRun.results SecondVariantRun.state_split.
Proof.
  split; [vm_compute; reflexivity|]. split; [vm_compute; reflexivity|].
  destruct (second_variant_two_receivers net_all_valid SecondVariantRun.run_split ∅
              SecondVariantRun.state_split (second_after_reachable _ _ _ _))
    as (saves & Hlog & _).
  exists saves. exact Hlog.
Defined.

(** [second_variant_waits_for_signal] at the end of a run in which a signal
    was delivered. *)
Lemma second_variant_waits_for_signal_witness :
  SecondVariantRun.st_main SecondVariantRun.state_exit = SecondVariantRun.MExit /\
  (1 <= SecondVariantRun.signals SecondVariantRun.state_exit)%nat.
Proof.
  assert (SecondVariantRun.st_main SecondVariantRun.state_exit = SecondVariantRun.MExit)
    as Hexit by (vm_compute; reflexivity).
  split; [exact Hexit|].
  exact (proj1 (proj2 (proj2 (second_variant_waits_for_signal net_all_valid
           SecondVariantRun.run_split ∅ SecondVariantRun.state_exit
           (second_after_reachable _ _ _ _)))) Hexit).
Defined.
